(** * Wishlisht: the item API, the item table and the grid's reorder logic

    A shallow embedding of [src/index.tsx] (the Hono worker that serves
    [/api/items]), of [schema.sql] (the [items] table) and of the React
    client ([App]: [handleDragEnd], [handleSubmit], [filteredItems]).

    Conventions of the model.
    - A JavaScript value that travels in a JSON body is a [jsval]; a key
      that is absent from the body destructures to [JUndefined].
    - Numbers are ideal whole numbers: the rounding of a double and
      numbers with a fraction in a body are outside the model.
    - A JavaScript string is a [string] of code units below 256.
    - The table is the list of its rows in rowid order together with the
      [sqlite_sequence] counter kept for [AUTOINCREMENT].
    - The D1 driver and SQLite are modelled where the worker relies on
      them: which values [bind] takes, what a column makes of a value
      (column affinity, NOT NULL), how [ORDER BY] compares values.
    - A handler is a function from the database to a reply and the next
      database; an exception that escapes a handler is the reply
      [Uncaught]. *)

From Stdlib Require Import ZArith List Bool Ascii String DecimalString Lia.
From Stdlib Require Import Permutation Sorted.
Import ListNotations.

Local Open Scope string_scope.
Local Open Scope list_scope.
Local Open Scope Z_scope.

(** ** JavaScript values *)

(** What [JSON.parse] can put in a field of a body, and [undefined] for a
    key that is absent.  The code never reads inside an object, so
    [JObject] stands for any of them; an array keeps its elements, since
    the driver looks at them. *)
#[warnings="-register-all"] Inductive jsval : Type :=
| JUndefined
| JNull
| JBool (b : bool)
| JNum (n : Z)
| JStr (s : string)
| JArray (elements : list jsval)
| JObject.

(** ToBoolean: [undefined], [null], [false], [0] and [''] are falsy;
    every object and every array is truthy. *)
Definition truthy (v : jsval) : bool :=
  match v with
  | JUndefined | JNull => false
  | JBool b => b
  | JNum n => negb (n =? 0)
  | JStr s => negb (String.eqb s "")
  | JArray _ | JObject => true
  end.

Definition is_jnull (v : jsval) : bool :=
  match v with JNull => true | _ => false end.

(** [a || b]. *)
Definition js_or (a b : jsval) : jsval := if truthy a then a else b.

(** [v !== undefined]. *)
Definition defined (v : jsval) : bool :=
  match v with JUndefined => false | _ => true end.

(** ** The [items] table (schema.sql) *)

(** What a column holds.  Numbers are ideal: [SNum n] is the whole number
    [n], stored as INTEGER or as REAL, and [SDec m k] is the number
    [m / 10^k], which only a text read as a number brings in. *)
Inductive sqlval : Type :=
| SNull
| SNum (n : Z)
| SDec (m : Z) (k : positive)
| SText (s : string)
| SBlob (bytes : list Z).

Definition is_null (v : sqlval) : bool :=
  match v with SNull => true | _ => false end.

(** One row of [items].  [id] is the INTEGER PRIMARY KEY, [created_at] is
    filled by its DEFAULT [(unixepoch())] and no statement of the API
    names it, so both are integers; the other columns hold what was
    stored in them. *)
Module Row.
Record t : Type := mk {
  id : Z;
  name : sqlval;
  price : sqlval;
  url : sqlval;
  image_key : sqlval;
  category : sqlval;
  priority : sqlval;
  created_at : Z
}.
End Row.

Module Db.
Record t : Type := mk {
  items : list Row.t;
  sqlite_sequence : Z
}.
End Db.

(** The columns a statement of the API can assign. *)
Inductive column : Type :=
| c_name | c_price | c_url | c_image_key | c_category | c_priority.

Definition set_column (c : column) (v : sqlval) (r : Row.t) : Row.t :=
  let 'Row.mk i n p u k g o t := r in
  match c with
  | c_name => Row.mk i v p u k g o t
  | c_price => Row.mk i n v u k g o t
  | c_url => Row.mk i n p v k g o t
  | c_image_key => Row.mk i n p u v g o t
  | c_category => Row.mk i n p u k v o t
  | c_priority => Row.mk i n p u k g v t
  end.

Definition get_column (c : column) (r : Row.t) : sqlval :=
  match c with
  | c_name => Row.name r
  | c_price => Row.price r
  | c_url => Row.url r
  | c_image_key => Row.image_key r
  | c_category => Row.category r
  | c_priority => Row.priority r
  end.

(** *** Binding parameters

    [prepare(..).bind(v1, .., vn)] turns JavaScript values into the
    parameters of the statement.  The D1 driver takes [null], numbers and
    strings as they are, a boolean as 1 or 0 and an array of bytes as a
    blob; it refuses everything else, [undefined] included, with
    D1_TYPE_ERROR.  A number is bound as a double. *)
Inductive param : Type :=
| PNull
| PReal (n : Z)
| PText (s : string)
| PBlob (bytes : list Z).

Inductive d1_error : Type :=
| D1_TYPE_ERROR            (* a value that cannot be bound *)
| D1_BIND_COUNT            (* wrong number of bound parameters *)
| SQLITE_CONSTRAINT_NOTNULL.

Inductive result (A : Type) : Type :=
| Resolved (a : A)
| Rejected (e : d1_error).
Arguments Resolved {A} a.
Arguments Rejected {A} e.

(** [typeof b == 'number' && b >= 0 && b < 256]. *)
Definition byte_of (v : jsval) : option Z :=
  match v with
  | JNum n => if (0 <=? n) && (n <? 256) then Some n else None
  | _ => None
  end.

Fixpoint bytes_of (vs : list jsval) : option (list Z) :=
  match vs with
  | [] => Some []
  | v :: vs' =>
      match byte_of v, bytes_of vs' with
      | Some b, Some bs => Some (b :: bs)
      | _, _ => None
      end
  end.

Definition bind_value (v : jsval) : option param :=
  match v with
  | JUndefined => None
  | JNull => Some PNull
  | JBool b => Some (PReal (if b then 1 else 0))
  | JNum n => Some (PReal n)
  | JStr s => Some (PText s)
  | JArray vs => option_map PBlob (bytes_of vs)
  | JObject => None
  end.

Fixpoint bind (vs : list jsval) : option (list param) :=
  match vs with
  | [] => Some []
  | v :: vs' =>
      match bind_value v, bind vs' with
      | Some p, Some ps => Some (p :: ps)
      | _, _ => None
      end
  end.

(** *** Column affinity

    A value is converted to the affinity of its column when it is
    stored: a number that goes to a TEXT column becomes the text SQLite
    writes for it, a text that goes to an INTEGER or REAL column and
    reads as a number becomes that number.  NULL and blobs are stored as
    they are. *)
Inductive affinity : Type := TEXT | INTEGER | REAL.

Definition column_affinity (c : column) : affinity :=
  match c with
  | c_price => REAL
  | c_priority => INTEGER
  | c_name | c_url | c_image_key | c_category => TEXT
  end.

Definition pow10 (k : positive) : Z := 10 ^ Z.pos k.

(** The decimal writing of a natural number. *)
Definition digits (n : Z) : string :=
  DecimalString.NilZero.string_of_uint (N.to_uint (Z.to_N n)).

Fixpoint strip_zeros (s : string) : string :=
  match s with
  | EmptyString => EmptyString
  | String c rest =>
      let r := strip_zeros rest in
      if Ascii.eqb c "0" && String.eqb r "" then EmptyString else String c r
  end.

(** The text of a whole REAL, as [%!.15g] prints it: [123.0], and with
    an exponent from sixteen digits on ([1.0e+15]). *)
Definition text_of_real (n : Z) : string :=
  let sign := if n <? 0 then "-" else "" in
  let a := Z.abs n in
  let d := digits a in
  let len := Z.of_nat (String.length d) in
  if len <=? 15 then (sign ++ d ++ ".0")%string
  else
    let scale := 10 ^ (len - 15) in
    let q := a / scale in
    let q := if scale <=? 2 * (a mod scale) then q + 1 else q in
    let '(q, e) := if q =? 10 ^ 15 then (10 ^ 14, len) else (q, len - 1) in
    match digits q with
    | String c rest =>
        let f := strip_zeros rest in
        (sign ++ String c "." ++ (if String.eqb f "" then "0" else f)
         ++ "e+" ++ digits e)%string
    | EmptyString => EmptyString
    end.

(** SQLite's white space: tab to carriage return, and the space. *)
Definition is_sql_space (c : ascii) : bool :=
  let n := nat_of_ascii c in
  ((9 <=? n) && (n <=? 13) || (n =? 32))%nat.

Fixpoint skip_spaces (s : string) : string :=
  match s with
  | String c rest => if is_sql_space c then skip_spaces rest else s
  | EmptyString => EmptyString
  end.

Definition digit_of (c : ascii) : option Z :=
  let n := Z.of_nat (nat_of_ascii c) in
  if (48 <=? n) && (n <=? 57) then Some (n - 48) else None.

(** The digits a string starts with: the number they make after those of
    [acc], how many they are, and what follows them. *)
Fixpoint take_digits (s : string) (acc : Z) (count : nat)
  : Z * nat * string :=
  match s with
  | String c rest =>
      match digit_of c with
      | Some d => take_digits rest (acc * 10 + d) (S count)
      | None => (acc, count, s)
      end
  | EmptyString => (acc, count, s)
  end.

Definition take_sign (s : string) : bool * string :=
  match s with
  | String "-" rest => (true, rest)
  | String "+" rest => (false, rest)
  | _ => (false, s)
  end.

(** A text that reads as a number: white space, a sign, digits with at
    most one point, an exponent, white space.  The result is the pair
    [(m, e)] of the number [m * 10^e]. *)
Definition numeric_literal (s : string) : option (Z * Z) :=
  let '(negative, s) := take_sign (skip_spaces s) in
  let '(m, whole, s) := take_digits s 0 0 in
  let '(m, fraction, s) :=
    match s with
    | String "." rest => take_digits rest m 0
    | _ => (m, 0%nat, s)
    end in
  let '(e, valid, s) :=
    match s with
    | String c rest =>
        if Ascii.eqb c "e" || Ascii.eqb c "E" then
          let '(minus, rest) := take_sign rest in
          let '(e, count, rest) := take_digits rest 0 0 in
          (if minus then - e else e, negb (count =? 0)%nat, rest)
        else (0, true, s)
    | EmptyString => (0, true, s)
    end in
  if negb (whole + fraction =? 0)%nat && valid
     && String.eqb (skip_spaces s) ""
  then Some (if negative then - m else m, e - Z.of_nat fraction)
  else None.

(** [m / 10^k] in lowest terms, [fuel] being [k]. *)
Fixpoint reduce (fuel : nat) (m k : Z) : sqlval :=
  match fuel with
  | O => SNum m
  | S fuel' =>
      if m mod 10 =? 0 then reduce fuel' (m / 10) (k - 1)
      else SDec m (Z.to_pos k)
  end.

(** The number [m * 10^e]. *)
Definition number_value (m e : Z) : sqlval :=
  if 0 <=? e then SNum (m * 10 ^ e) else reduce (Z.to_nat (- e)) m (- e).

(** The value a column keeps of a parameter. *)
Definition store (c : column) (p : param) : sqlval :=
  match p with
  | PNull => SNull
  | PBlob bytes => SBlob bytes
  | PReal n =>
      match column_affinity c with
      | TEXT => SText (text_of_real n)
      | INTEGER | REAL => SNum n
      end
  | PText s =>
      match column_affinity c with
      | TEXT => SText s
      | INTEGER | REAL =>
          match numeric_literal s with
          | Some (m, e) => number_value m e
          | None => SText s
          end
      end
  end.

(** *** ORDER BY priority ASC, created_at DESC

    SQLite orders NULL before numbers, numbers before text and text
    before blobs; numbers are compared by their value, text code unit by
    code unit (BINARY collation), blobs byte by byte. *)
Definition storage_class (v : sqlval) : Z :=
  match v with
  | SNull => 0
  | SNum _ | SDec _ _ => 1
  | SText _ => 2
  | SBlob _ => 3
  end.

Fixpoint bytes_compare (u v : list Z) : comparison :=
  match u, v with
  | [], [] => Eq
  | [], _ :: _ => Lt
  | _ :: _, [] => Gt
  | x :: u', y :: v' =>
      match Z.compare x y with
      | Eq => bytes_compare u' v'
      | c => c
      end
  end.

Definition sql_compare (a b : sqlval) : comparison :=
  match a, b with
  | SNum x, SNum y => Z.compare x y
  | SNum x, SDec m k => Z.compare (x * pow10 k) m
  | SDec m k, SNum y => Z.compare m (y * pow10 k)
  | SDec m k, SDec m' k' => Z.compare (m * pow10 k') (m' * pow10 k)
  | SText s, SText t => String.compare s t
  | SBlob u, SBlob v => bytes_compare u v
  | _, _ => Z.compare (storage_class a) (storage_class b)
  end.

Definition order_by (r1 r2 : Row.t) : comparison :=
  match sql_compare (Row.priority r1) (Row.priority r2) with
  | Eq => Z.compare (Row.created_at r2) (Row.created_at r1)
  | c => c
  end.

Definition order_leb (r1 r2 : Row.t) : bool :=
  match order_by r1 r2 with Gt => false | _ => true end.

Fixpoint sort_insert (r : Row.t) (sorted : list Row.t) : list Row.t :=
  match sorted with
  | [] => [r]
  | h :: t => if order_leb r h then r :: h :: t else h :: sort_insert r t
  end.

(** The sort is an insertion sort started from the rowid order; rows equal
    under [order_by] come out in an order SQL leaves open. *)
Definition sql_order (rs : list Row.t) : list Row.t :=
  fold_right sort_insert [] rs.

(** [SELECT * FROM items ORDER BY priority ASC, created_at DESC]. *)
Definition select_items (db : Db.t) : list Row.t := sql_order (Db.items db).

(** *** INSERT

    AUTOINCREMENT: the new rowid is one more than the largest rowid the
    table has ever held. *)
Definition max_id (rs : list Row.t) : Z :=
  fold_right (fun r m => Z.max (Row.id r) m) 0 rs.

Definition next_rowid (db : Db.t) : Z :=
  Z.max (Db.sqlite_sequence db) (max_id (Db.items db)) + 1.

(** [INSERT INTO items (name, price, url, image_key, category, priority)
    VALUES (?, ?, ?, ?, ?, ?)]: every column with a DEFAULT but
    [created_at] is named, so only [created_at] takes its default
    ([now], the clock of the database).  [name] is NOT NULL. *)
Definition insert_items (now : Z) (params : list param) (db : Db.t)
  : result (Z * Db.t) :=
  match params with
  | [n; p; u; k; g; o] =>
      let i := next_rowid db in
      let row :=
        Row.mk i (store c_name n) (store c_price p) (store c_url u)
               (store c_image_key k) (store c_category g)
               (store c_priority o) now in
      if is_null (Row.name row) then Rejected SQLITE_CONSTRAINT_NOTNULL
      else Resolved (i, Db.mk (Db.items db ++ [row]) i)
  | _ => Rejected D1_BIND_COUNT
  end.

(** *** UPDATE

    [UPDATE items SET c1 = ?, .., cn = ? WHERE id = ?]: the first [n]
    parameters are the new values in the order of the SET clauses, the
    next one is the key.  NOT NULL is checked on the rows the statement
    writes and on the columns it assigns: a matched row whose [name] is
    set to NULL aborts the statement and nothing is written. *)
Fixpoint assign (cols : list column) (params : list param) (r : Row.t) : Row.t :=
  match cols, params with
  | c :: cols', v :: params' =>
      assign cols' params' (set_column c (store c v) r)
  | _, _ => r
  end.

Definition is_c_name (c : column) : bool :=
  match c with c_name => true | _ => false end.

Definition key_matches (key : param) (r : Row.t) : bool :=
  match key with
  | PReal k => Row.id r =? k
  | _ => false
  end.

Definition update_row (cols : list column) (params : list param) (r : Row.t)
  : Row.t :=
  if key_matches (nth (List.length cols) params PNull) r
  then assign cols params r
  else r.

Definition update_items (cols : list column) (params : list param) (db : Db.t)
  : result Db.t :=
  if negb (List.length params =? S (List.length cols))%nat
  then Rejected D1_BIND_COUNT
  else
    let key := nth (List.length cols) params PNull in
    if existsb (fun r => key_matches key r
                         && existsb is_c_name cols
                         && is_null (Row.name (assign cols params r)))
               (Db.items db)
    then Rejected SQLITE_CONSTRAINT_NOTNULL
    else Resolved (Db.mk (map (update_row cols params) (Db.items db))
                         (Db.sqlite_sequence db)).

(** [DELETE FROM items WHERE id = ?]. *)
Definition delete_items (key : param) (db : Db.t) : Db.t :=
  Db.mk (filter (fun r => negb (key_matches key r)) (Db.items db))
        (Db.sqlite_sequence db).

(** ** The item API (the worker's handlers) *)

(** The JSON body of a request after
    [const { name, price, url, image_key, category, priority } = body]. *)
Module Body.
Record t : Type := mk {
  name : jsval;
  price : jsval;
  url : jsval;
  image_key : jsval;
  category : jsval;
  priority : jsval
}.
End Body.

Inductive json : Type :=
| Results (results : list Row.t)      (* c.json(results) *)
| Success                             (* { success: true } *)
| SuccessId (id : Z)                  (* { success: true, id } *)
| SuccessKey (key : string).          (* { success: true, key } *)

(** What a handler does: it answers with [c.json(..)], or an exception
    leaves it. *)
Inductive reply : Type :=
| Json (j : json)
| Uncaught (e : d1_error).

(** [c.json(x)] answers 200; no handler of the item API sets another
    status, and the framework answers 500 for an exception nobody caught. *)
Definition status (r : reply) : Z :=
  match r with
  | Json _ => 200
  | Uncaught _ => 500
  end.

Definition is_client_error (r : reply) : bool :=
  (400 <=? status r) && (status r <? 500).

(** [app.get('/api/items')]. *)
Definition get_items (db : Db.t) : reply * Db.t :=
  (Json (Results (select_items db)), db).

(** [app.post('/api/items')]. *)
Definition post_items (now : Z) (body : Body.t)
  (db : Db.t) : reply * Db.t :=
  let 'Body.mk name price url image_key category priority := body in
  match bind [name; price; url; image_key;
                  js_or category (JStr "uncategorized");
                  js_or priority (JNum 0)] with
  | None => (Uncaught D1_TYPE_ERROR, db)
  | Some params =>
      match insert_items now params db with
      | Resolved (last_row_id, db') => (Json (SuccessId last_row_id), db')
      | Rejected e => (Uncaught e, db)
      end
  end.

(** [if (v !== undefined) { updates.push('c = ?'); values.push(v) }]. *)
Definition push_if (v : jsval) (c : column)
  (acc : list column * list jsval) : list column * list jsval :=
  if defined v then (fst acc ++ [c], snd acc ++ [v]) else acc.

(** [app.put('/api/items/:id')].  The [:id] segment is taken as the
    integer that the comparison with the INTEGER key column reads in it. *)
Definition put_items (id : Z) (body : Body.t)
  (db : Db.t) : reply * Db.t :=
  let 'Body.mk name price url image_key category priority := body in
  let acc := ([], []) in
  let acc := push_if name c_name acc in
  let acc := push_if price c_price acc in
  let acc := push_if url c_url acc in
  let acc := push_if image_key c_image_key acc in
  let acc := push_if category c_category acc in
  let acc := push_if priority c_priority acc in
  let '(updates, values) := acc in
  if (List.length updates =? 0)%nat then (Json Success, db)
  else
    let values := values ++ [JNum id] in
    match bind values with
    | None => (Uncaught D1_TYPE_ERROR, db)
    | Some params =>
        match update_items updates params db with
        | Resolved db' => (Json Success, db')
        | Rejected e => (Uncaught e, db)
        end
    end.

(** [app.delete('/api/items/:id')]. *)
Definition delete_item (id : Z) (db : Db.t) : reply * Db.t :=
  (Json Success, delete_items (PReal id) db).

(** The requests the client sends.  The bucket behind [/api/upload] is not
    part of the model: an upload leaves the table alone. *)
Inductive request : Type :=
| GET_items
| POST_items (body : Body.t)
| PUT_items (id : Z) (body : Body.t)
| DELETE_items (id : Z)
| PUT_upload (key : string).

Definition serve (now : Z) (rq : request) (db : Db.t)
  : reply * Db.t :=
  match rq with
  | GET_items => get_items db
  | POST_items body => post_items now body db
  | PUT_items id body => put_items id body db
  | DELETE_items id => delete_item id db
  | PUT_upload key => (Json (SuccessKey key), db)
  end.

(** The requests that reach the worker, served one after the other in the
    order of their arrival. *)
Fixpoint serve_all (now : Z) (rqs : list request)
  (db : Db.t) : Db.t :=
  match rqs with
  | [] => db
  | rq :: rqs' => serve_all now rqs' (snd (serve now rq db))
  end.

(** The store operations of the specification, read on the handlers. *)
Definition listAll (db : Db.t) : list Row.t := select_items db.

Definition lookup (id : Z) (db : Db.t) : option Row.t :=
  find (fun r => Row.id r =? id) (Db.items db).

Definition priority_of (id : Z) (db : Db.t) : option sqlval :=
  option_map Row.priority (lookup id db).

(** ** The client ([App]) *)

Module Item.
Record t : Type := mk {
  id : Z;
  name : string;
  price : Z;
  url : string;
  image_key : option string;
  category : string;
  priority : Z
}.
End Item.

Module File.
Record t : Type := mk { name : string; type : string }.
End File.

Module FormData.
Record t : Type := mk {
  name : string;
  price : string;
  url : string;
  category : string;
  imageFile : option File.t;
  currentImageKey : string
}.
End FormData.

Module App.
Record t : Type := mk {
  items : list Item.t;
  activeCategory : string;
  isModalOpen : bool;
  isSubmitting : bool;
  editingItem : option Item.t;
  formData : FormData.t
}.
End App.

(** [activeCategory === 'All' ? items
      : items.filter(i => i.category === activeCategory)]:
    the sequence the grid renders. *)
Definition filteredItems (st : App.t) : list Item.t :=
  if String.eqb (App.activeCategory st) "All" then App.items st
  else filter (fun i => String.eqb (Item.category i) (App.activeCategory st))
              (App.items st).

(** *** Arrays *)

(** [Array.prototype.findIndex]: the first index whose element passes the
    test, or -1. *)
Fixpoint findIndex {A : Type} (test : A -> bool) (array : list A) : Z :=
  match array with
  | [] => -1
  | x :: rest =>
      if test x then 0
      else let k := findIndex test rest in if k <? 0 then -1 else k + 1
  end.

(** The start of [Array.prototype.splice]: a negative start counts from
    the end, and the result is clamped to the array. *)
Definition splice_start (len start : Z) : nat :=
  Z.to_nat (if start <? 0 then Z.max (len + start) 0 else Z.min start len).

(** [array.splice(start, 1)]: the removed element, if there is one, and
    what is left of the array. *)
Definition splice_one {A : Type} (array : list A) (start : Z)
  : option A * list A :=
  let s := splice_start (Z.of_nat (List.length array)) start in
  (nth_error array s, firstn s array ++ skipn (S s) array).

(** [array.splice(start, 0, x)]. *)
Definition splice_in {A : Type} (array : list A) (start : Z) (x : A) : list A :=
  let s := splice_start (Z.of_nat (List.length array)) start in
  firstn s array ++ x :: skipn s array.

(** [arrayMove] of @dnd-kit/sortable:
    [newArray = array.slice();
     newArray.splice(to < 0 ? newArray.length + to : to, 0,
                     newArray.splice(from, 1)[0])].
    The position is computed before the element is taken out.  When
    nothing is taken out (the array is empty) the library stores
    [undefined] in the new array; that outcome is [None]. *)
Definition arrayMove {A : Type} (array : list A) (from to : Z)
  : option (list A) :=
  let position := if to <? 0 then Z.of_nat (List.length array) + to else to in
  let '(moved, newArray) := splice_one array from in
  match moved with
  | Some x => Some (splice_in newArray position x)
  | None => None
  end.

(** [array.forEach((item, index) => ..)], collecting what each call
    sends. *)
Fixpoint forEach_from {A B : Type} (f : A -> Z -> B) (array : list A)
  (index : Z) : list B :=
  match array with
  | [] => []
  | item :: rest => f item index :: forEach_from f rest (index + 1)
  end.

Definition forEach {A B : Type} (f : A -> Z -> B) (array : list A) : list B :=
  forEach_from f array 0.

(** *** Drag and drop *)

Module DragEndEvent.
Record t : Type := mk {
  active : Z;            (* active.id *)
  over : option Z        (* over?.id, [None] when over is null *)
}.
End DragEndEvent.

(** [JSON.stringify({ priority: index })]. *)
Definition priority_body (index : Z) : Body.t :=
  Body.mk JUndefined JUndefined JUndefined JUndefined JUndefined (JNum index).

(** [handleDragEnd]: the next state and the requests sent, in the order
    of the [forEach].  [None]: the moved array holds [undefined] and the
    callback throws on [item.id]. *)
Definition handleDragEnd (event : DragEndEvent.t) (st : App.t)
  : option (App.t * list request) :=
  let active := DragEndEvent.active event in
  let over := DragEndEvent.over event in
  let differ :=
    match over with Some o => negb (active =? o) | None => true end in
  if differ then
    let items := App.items st in
    let oldIndex := findIndex (fun i => Item.id i =? active) items in
    let newIndex :=
      findIndex (fun i => match over with
                          | Some o => Item.id i =? o
                          | None => false
                          end) items in
    match arrayMove items oldIndex newIndex with
    | Some newItems =>
        Some (App.mk newItems (App.activeCategory st) (App.isModalOpen st)
                (App.isSubmitting st) (App.editingItem st) (App.formData st),
              forEach (fun item index =>
                         PUT_items (Item.id item) (priority_body index))
                      newItems)
    | None => None
    end
  else Some (st, []).

(** *** The add and edit form *)

(** WhiteSpace and LineTerminator code units below 256. *)
Definition is_space (c : ascii) : bool :=
  let n := nat_of_ascii c in
  ((9 <=? n) && (n <=? 13) || (n =? 32) || (n =? 160))%nat.

Fixpoint trimStart (s : string) : string :=
  match s with
  | String c rest => if is_space c then trimStart rest else s
  | EmptyString => EmptyString
  end.

Fixpoint string_rev (s acc : string) : string :=
  match s with
  | String c rest => string_rev rest (String c acc)
  | EmptyString => acc
  end.

(** [String.prototype.trim]. *)
Definition trim (s : string) : string :=
  string_rev (trimStart (string_rev (trimStart s) "")) "".

Definition lower (c : ascii) : ascii :=
  let n := nat_of_ascii c in
  if ((65 <=? n) && (n <=? 90))%nat then ascii_of_nat (n + 32) else c.

(** Does [s] start with [p], letters compared without case ([p] is in
    lower case)? *)
Fixpoint starts_with_i (p s : string) : bool :=
  match p, s with
  | EmptyString, _ => true
  | String a p', String b s' => Ascii.eqb a (lower b) && starts_with_i p' s'
  | String _ _, EmptyString => false
  end.

(** [/^https?:\/\//i.test(s)]. *)
Definition has_scheme (s : string) : bool :=
  starts_with_i "http://" s || starts_with_i "https://" s.

(** Lines 332-336: [let submitUrl = formData.url.trim();
    if (submitUrl && !/^https?:\/\//i.test(submitUrl))
      submitUrl = 'https://' + submitUrl]. *)
Definition submitUrl (url : string) : string :=
  let s := trim url in
  if negb (String.eqb s "") && negb (has_scheme s)
  then String.append "https://" s
  else s.

(** [name.replace(/[^a-zA-Z0-9.-]/g, '')]. *)
Definition key_char (c : ascii) : bool :=
  let n := nat_of_ascii c in
  ((97 <=? n) && (n <=? 122) || (65 <=? n) && (n <=? 90)
   || (48 <=? n) && (n <=? 57) || (n =? 46) || (n =? 45))%nat.

Fixpoint keep (f : ascii -> bool) (s : string) : string :=
  match s with
  | String c rest => if f c then String c (keep f rest) else keep f rest
  | EmptyString => EmptyString
  end.

(** [`img-${Date.now()}-${file.name.replace(..)}`]. *)
Definition upload_key (date_now : Z) (file : File.t) : string :=
  String.append "img-"
    (String.append (DecimalString.NilZero.string_of_int (Z.to_int date_now))
       (String.append "-" (keep key_char (File.name file)))).

Section Submit.

(** [parseFloat], as [JSON.stringify] shows its result: a number, or
    [None] for NaN, which is written [null]. *)
Variable parseFloat : string -> option Z.

(** The object [payload] once serialised: NaN is written [null], and
    the spread of [{}] adds no [priority] key when an item is edited. *)
Definition payload (imageKey : string) (st : App.t) : Body.t :=
  let formData := App.formData st in
  Body.mk
    (JStr (FormData.name formData))
    (match parseFloat (FormData.price formData) with
     | Some n => JNum n
     | None => JNull
     end)
    (JStr (submitUrl (FormData.url formData)))
    (JStr imageKey)
    (JStr (FormData.category formData))
    (match App.editingItem st with
     | Some _ => JUndefined
     | None => JNum (Z.of_nat (List.length (App.items st)))
     end).

(** [handleSubmit], on the path where every awaited [fetch] resolves:
    the next state and the requests sent, in order ([fetchItems] is the
    last one).  [date_now] is [Date.now()]. *)
Definition handleSubmit (date_now : Z) (st : App.t) : App.t * list request :=
  if App.isSubmitting st then (st, [])
  else
    let formData := App.formData st in
    let '(imageKey, upload) :=
      match FormData.imageFile formData with
      | Some file =>
          let key := upload_key date_now file in (key, [PUT_upload key])
      | None => (FormData.currentImageKey formData, [])
      end in
    let save :=
      match App.editingItem st with
      | Some item => PUT_items (Item.id item) (payload imageKey st)
      | None => POST_items (payload imageKey st)
      end in
    (App.mk (App.items st) (App.activeCategory st) false false
       (App.editingItem st) formData,
     upload ++ [save; GET_items]).

End Submit.

(** ** The properties, as the specification words them *)

(** A blob sorts before another: byte by byte, a prefix first. *)
Fixpoint bytes_lt (u v : list Z) : Prop :=
  match u, v with
  | _, [] => False
  | [], _ :: _ => True
  | x :: u', y :: v' => x < y \/ (x = y /\ bytes_lt u' v')
  end.

(** One value sorts before another one in ascending order: NULL first,
    then the numbers by their value, then the texts, then the blobs. *)
Definition sorts_before (a b : sqlval) : Prop :=
  match a, b with
  | SNull, SNull => False
  | SNull, _ => True
  | SNum x, SNum y => x < y
  | SNum x, SDec m k => x * 10 ^ Z.pos k < m
  | SDec m k, SNum y => m < y * 10 ^ Z.pos k
  | SDec m k, SDec m' k' => m * 10 ^ Z.pos k' < m' * 10 ^ Z.pos k
  | (SNum _ | SDec _ _), (SText _ | SBlob _) => True
  | SText s, SText t => String.ltb s t = true
  | SText _, SBlob _ => True
  | SBlob u, SBlob v => bytes_lt u v
  | _, _ => False
  end.

(** Two values are the same for the sort. *)
Definition sorts_equal (a b : sqlval) : Prop :=
  match a, b with
  | SNull, SNull => True
  | SNum x, SNum y => x = y
  | SNum x, SDec m k => x * 10 ^ Z.pos k = m
  | SDec m k, SNum y => m = y * 10 ^ Z.pos k
  | SDec m k, SDec m' k' => m * 10 ^ Z.pos k' = m' * 10 ^ Z.pos k
  | SText s, SText t => s = t
  | SBlob u, SBlob v => u = v
  | _, _ => False
  end.

(** Priority ascending, and among equal priorities the newest first. *)
Definition priority_asc_created_desc (r1 r2 : Row.t) : Prop :=
  sorts_before (Row.priority r1) (Row.priority r2)
  \/ (sorts_equal (Row.priority r1) (Row.priority r2)
      /\ Row.created_at r2 <= Row.created_at r1).

(** The driver takes the value. *)
Definition can_bind (v : jsval) : bool :=
  match bind_value v with Some _ => true | None => false end.

(** The parameter a value is bound as. *)
Definition bound (v : jsval) : param :=
  match bind_value v with Some p => p | None => PNull end.

(** The value a field of a body leaves in a column: a field that is not
    provided leaves the old value, a provided one is stored. *)
Definition write (c : column) (v : jsval) (old : sqlval) : sqlval :=
  if defined v then store c (bound v) else old.

(** A partial update, field by field. *)
Definition patch (body : Body.t) (r : Row.t) : Row.t :=
  Row.mk (Row.id r)
    (write c_name (Body.name body) (Row.name r))
    (write c_price (Body.price body) (Row.price r))
    (write c_url (Body.url body) (Row.url r))
    (write c_image_key (Body.image_key body) (Row.image_key r))
    (write c_category (Body.category body) (Row.category r))
    (write c_priority (Body.priority body) (Row.priority r))
    (Row.created_at r).

Definition patch_at (id : Z) (body : Body.t) (r : Row.t) : Row.t :=
  if Row.id r =? id then patch body r else r.

(** The body with no field. *)
Definition empty_body : Body.t :=
  Body.mk JUndefined JUndefined JUndefined JUndefined JUndefined JUndefined.

(** The six values the insert binds. *)
Definition insert_values (body : Body.t) : list jsval :=
  [Body.name body; Body.price body; Body.url body; Body.image_key body;
   js_or (Body.category body) (JStr "uncategorized");
   js_or (Body.priority body) (JNum 0)].

(** An insert goes through when its six values can be bound and the name
    bound is not NULL. *)
Definition accepted (body : Body.t) : bool :=
  forallb can_bind (insert_values body)
  && negb (is_jnull (Body.name body)).

(** The row an accepted insert creates. *)
Definition inserted_row (id now : Z) (body : Body.t) : Row.t :=
  Row.mk id
    (store c_name (bound (Body.name body)))
    (store c_price (bound (Body.price body)))
    (store c_url (bound (Body.url body)))
    (store c_image_key (bound (Body.image_key body)))
    (store c_category (bound (js_or (Body.category body) (JStr "uncategorized"))))
    (store c_priority (bound (js_or (Body.priority body) (JNum 0))))
    now.

(** The [forEach] of [handleDragEnd] does not await its fetches: every
    request is sent whatever becomes of the others.  When the request of
    index [k] fails, the others are the ones that reach the worker. *)
Definition all_but {A : Type} (k : nat) (sent : list A) : list A :=
  firstn k sent ++ skipn (S k) sent.

(** The reorder as the specification words it for a filtered view:
    positions taken in the rendered sequence, one update per rendered
    item. *)
Definition reorder_rendered_only (event : DragEndEvent.t) (st : App.t)
  : option (list request) :=
  let shown := filteredItems st in
  let active := DragEndEvent.active event in
  let oldIndex := findIndex (fun i => Item.id i =? active) shown in
  let newIndex :=
    findIndex (fun i => match DragEndEvent.over event with
                        | Some o => Item.id i =? o
                        | None => false
                        end) shown in
  match arrayMove shown oldIndex newIndex with
  | Some newShown =>
      Some (forEach (fun item index =>
                       PUT_items (Item.id item) (priority_body index))
                    newShown)
  | None => None
  end.

(** No field of the body is provided. *)
Definition no_field (body : Body.t) : bool :=
  negb (defined (Body.name body) || defined (Body.price body)
        || defined (Body.url body) || defined (Body.image_key body)
        || defined (Body.category body) || defined (Body.priority body)).

(** The field of a body that goes to a column, and the columns whose
    field is provided, in the order of the handler's tests. *)
Definition field (body : Body.t) (c : column) : jsval :=
  match c with
  | c_name => Body.name body
  | c_price => Body.price body
  | c_url => Body.url body
  | c_image_key => Body.image_key body
  | c_category => Body.category body
  | c_priority => Body.priority body
  end.

Definition all_columns : list column :=
  [c_name; c_price; c_url; c_image_key; c_category; c_priority].

Definition provided (body : Body.t) : list column :=
  filter (fun c => defined (field body c)) all_columns.

Definition column_eqb (a b : column) : bool :=
  match a, b with
  | c_name, c_name | c_price, c_price | c_url, c_url
  | c_image_key, c_image_key | c_category, c_category
  | c_priority, c_priority => true
  | _, _ => false
  end.

(** Every field the body provides is a value the driver takes. *)
Definition bindable (body : Body.t) : bool :=
  forallb (fun c => negb (defined (field body c)) || can_bind (field body c))
          all_columns.

(** A value of the column's own type in the data model: a string for
    the name, the url, the image key and the category, a number for the
    price and the priority, and [null] where the column may be empty. *)
Definition typed (c : column) (v : jsval) : bool :=
  match v with
  | JStr _ => match column_affinity c with TEXT => true | _ => false end
  | JNum _ => match column_affinity c with TEXT => false | _ => true end
  | JNull => negb (is_c_name c)
  | _ => false
  end.

(** The parameter a value of the column's type is stored as. *)
Definition as_given (v : jsval) : sqlval :=
  match v with
  | JStr s => SText s
  | JNum n => SNum n
  | _ => SNull
  end.

(** [null], a number or a string. *)
Definition plain (v : jsval) : bool :=
  match v with
  | JNull | JNum _ | JStr _ => true
  | _ => false
  end.

(** Every field the body provides is [null], a number or a string. *)
Definition plain_body (body : Body.t) : bool :=
  forallb (fun c => negb (defined (field body c)) || plain (field body c))
          all_columns.

(** The body of an insert that leaves nothing out: a name that is not
    [null], a price, a url and an image key, each [null], a number or a
    string, and a category and a priority that are absent or such a
    value. *)
Definition complete (body : Body.t) : bool :=
  plain (Body.name body) && negb (is_jnull (Body.name body))
  && plain (Body.price body) && plain (Body.url body)
  && plain (Body.image_key body)
  && (negb (defined (Body.category body)) || plain (Body.category body))
  && (negb (defined (Body.priority body)) || plain (Body.priority body)).

(** What an update of the rows of [id] leaves of a row [r]: the id and
    the creation time stay; another row is untouched; in a row of the id
    a column whose field is absent keeps its value, a field of the
    column's type is there as given, and so is the empty string. *)
Definition updated_row (id : Z) (body : Body.t) (r r' : Row.t) : Prop :=
  Row.id r' = Row.id r
  /\ Row.created_at r' = Row.created_at r
  /\ (Row.id r <> id -> r' = r)
  /\ (Row.id r = id ->
      forall c,
        (field body c = JUndefined -> get_column c r' = get_column c r)
        /\ (typed c (field body c) = true ->
            get_column c r' = as_given (field body c))
        /\ (field body c = JStr "" -> get_column c r' = SText "")).

(** ** Fixtures *)

(** Three rows A, B, C with priorities 0, 1, 2. *)
Definition row_A : Row.t :=
  Row.mk 1 (SText "A") (SNum 10) (SText "https://a.example") (SText "")
         (SText "Toys") (SNum 0) 1000.
Definition row_B : Row.t :=
  Row.mk 2 (SText "B") (SNum 20) (SText "https://b.example") (SText "")
         (SText "Toys") (SNum 1) 1001.
Definition row_C : Row.t :=
  Row.mk 3 (SText "C") (SNum 30) (SText "https://c.example") (SText "")
         (SText "Tech") (SNum 2) 1002.
Definition db_ABC : Db.t := Db.mk [row_A; row_B; row_C] 3.

Definition item_A : Item.t := Item.mk 1 "A" 10 "https://a.example" None "Toys" 0.
Definition item_B : Item.t := Item.mk 2 "B" 20 "https://b.example" None "Toys" 1.
Definition item_C : Item.t := Item.mk 3 "C" 30 "https://c.example" None "Tech" 2.

Definition blank_form : FormData.t := FormData.mk "" "" "" "Toys" None "".

(** The grid showing A, B, C with no filter. *)
Definition app_ABC : App.t :=
  App.mk [item_A; item_B; item_C] "All" false false None blank_form.

(** Two categories, four items: Toys T1, T2 and Tech K1, K2, interleaved;
    the Toys filter is active. *)
Definition item_T1 : Item.t := Item.mk 1 "T1" 10 "https://t1.example" None "Toys" 0.
Definition item_K1 : Item.t := Item.mk 2 "K1" 20 "https://k1.example" None "Tech" 1.
Definition item_T2 : Item.t := Item.mk 3 "T2" 30 "https://t2.example" None "Toys" 2.
Definition item_K2 : Item.t := Item.mk 4 "K2" 40 "https://k2.example" None "Tech" 3.

Definition app_toys : App.t :=
  App.mk [item_T1; item_K1; item_T2; item_K2] "Toys" false false None
         blank_form.

Definition row_of (i : Item.t) (created : Z) : Row.t :=
  Row.mk (Item.id i) (SText (Item.name i)) (SNum (Item.price i))
         (SText (Item.url i)) (SText "") (SText (Item.category i))
         (SNum (Item.priority i)) created.

Definition db_toys : Db.t :=
  Db.mk [row_of item_T1 1000; row_of item_K1 1001; row_of item_T2 1002;
         row_of item_K2 1003] 4.

(** A complete body but for its name, and one but for its price. *)
Definition body_without_name : Body.t :=
  Body.mk JUndefined (JNum 5) (JStr "https://d.example") (JStr "")
          (JStr "Toys") (JNum 3).
Definition body_without_price : Body.t :=
  Body.mk (JStr "D") JUndefined (JStr "https://d.example") (JStr "")
          (JStr "Toys") (JNum 3).
(** A body that leaves category and priority to their defaults. *)
Definition body_defaults : Body.t :=
  Body.mk (JStr "D") (JNum 5) (JStr "https://d.example") (JStr "")
          JUndefined JUndefined.

(** The request that [handleDragEnd] sends for an item id and an index. *)
Definition priority_request (p : Z * Z) : request :=
  PUT_items (fst p) (priority_body (snd p)).

(** The state after a drag: only the list of items changes. *)
Definition with_items (newItems : list Item.t) (st : App.t) : App.t :=
  App.mk newItems (App.activeCategory st) (App.isModalOpen st)
         (App.isSubmitting st) (App.editingItem st) (App.formData st).

(** The tests of the two [findIndex] calls of [handleDragEnd]. *)
Definition is_active (event : DragEndEvent.t) (i : Item.t) : bool :=
  Item.id i =? DragEndEvent.active event.

Definition is_over (event : DragEndEvent.t) (i : Item.t) : bool :=
  match DragEndEvent.over event with
  | Some o => Item.id i =? o
  | None => false
  end.

(** The form of a new item D whose link is three spaces, and the form
    that edits B. *)
Definition app_new_blank_url : App.t :=
  App.mk [item_A; item_B; item_C] "All" true false None
         (FormData.mk "D" "5" "   " "Toys" None "").

Definition app_new_D : App.t :=
  App.mk [item_A; item_B; item_C] "All" true false None
         (FormData.mk "D" "5" "example.com" "Toys" None "").

Definition app_edit_B : App.t :=
  App.mk [item_A; item_B; item_C] "All" true false (Some item_B)
         (FormData.mk "B2" "25" "http://example.com" "Tech" None "").

(** A [parseFloat] good enough for the fixtures. *)
Definition parseFloat_fixture (s : string) : option Z :=
  if String.eqb s "5" then Some 5
  else if String.eqb s "25" then Some 25
  else None.

(** Two partial bodies: one that sets the name to [null] and the price
    to 99, one that empties the url and leaves the rest. *)
Definition body_null_name : Body.t :=
  Body.mk JNull (JNum 99) JUndefined JUndefined JUndefined JUndefined.
Definition body_empty_url : Body.t :=
  Body.mk JUndefined JUndefined (JStr "") JUndefined JUndefined JUndefined.

(** Bodies outside the data model: a price that is an object (next to a
    new name), and a name that is a number. *)
Definition body_object_price : Body.t :=
  Body.mk (JStr "A2") JObject JUndefined JUndefined JUndefined JUndefined.
Definition body_number_name : Body.t :=
  Body.mk (JNum 123) JUndefined JUndefined JUndefined JUndefined JUndefined.

(** Complete bodies but for the url, and but for the image key. *)
Definition body_without_url : Body.t :=
  Body.mk (JStr "D") (JNum 5) JUndefined (JStr "") (JStr "Toys") (JNum 3).
Definition body_without_image_key : Body.t :=
  Body.mk (JStr "D") (JNum 5) (JStr "https://d.example") JUndefined
          (JStr "Toys") (JNum 3).

(** A table whose rows are not in the order of their priorities, with a
    priority held twice, a negative one, a NULL one and one that is a
    text. *)
Definition db_shuffled : Db.t :=
  Db.mk [Row.mk 1 (SText "A") SNull SNull SNull SNull (SNum 2) 1000;
         Row.mk 2 (SText "B") SNull SNull SNull SNull (SNum 0) 1001;
         Row.mk 3 (SText "C") SNull SNull SNull SNull (SNum 0) 1002;
         Row.mk 4 (SText "D") SNull SNull SNull SNull (SNum (-1)) 1003;
         Row.mk 5 (SText "E") SNull SNull SNull SNull SNull 1004;
         Row.mk 6 (SText "F") SNull SNull SNull SNull (SText "top") 1005] 6.

(** ** The rest of the worker: delete, images, static assets *)

(** An object of the bucket: its body and the content type kept in its
    HTTP metadata (the entity tag is left out of the model). *)
Module R2Object.
Record t : Type := mk { body : string; contentType : string }.
End R2Object.

(** [BUCKET]: [get] answers [null] for a key that holds nothing. *)
Definition Bucket : Type := string -> option R2Object.t.

Definition bucket_put (key : string) (object : R2Object.t) (bucket : Bucket)
  : Bucket :=
  fun k => if String.eqb k key then Some object else bucket k.

(** A string that may be [undefined], and [a || b] on such strings: the
    empty string is falsy too. *)
Definition or_string (a b : option string) : option string :=
  match a with
  | Some s => if String.eqb s "" then b else a
  | None => b
  end.

Definition truthy_string (a : option string) : bool :=
  match a with
  | Some s => negb (String.eqb s "")
  | None => false
  end.

(** [app.put('/api/upload/:key')]: the body is stored under the key with
    [c.req.header('content-type') || 'application/octet-stream']. *)
Definition put_upload (key body : string) (content_type : option string)
  (bucket : Bucket) : json * Bucket :=
  let contentType :=
    match or_string content_type (Some "application/octet-stream") with
    | Some t => t
    | None => "application/octet-stream"
    end in
  (SuccessKey key, bucket_put key (R2Object.mk body contentType) bucket).

(** What the routes outside the item API answer: [c.text(text, status)],
    or a body with its Content-Type. *)
Inductive response : Type :=
| Text (text : string) (status : Z)
| Content (body : string) (status : Z) (contentType : string).

Definition response_status (r : response) : Z :=
  match r with
  | Text _ s => s
  | Content _ s _ => s
  end.

(** [app.get('/image/:key')]. *)
Definition get_image (key : string) (bucket : Bucket) : response :=
  match bucket key with
  | None => Text "Image not found" 404
  | Some object =>
      Content (R2Object.body object) 200 (R2Object.contentType object)
  end.

(** What [manifest[path]] finds in the object that [JSON.parse] built:
    an entry of the manifest, a member that every object inherits from
    [Object.prototype], or nothing. *)
Inductive member : Type :=
| Own (assetKey : string)
| Inherited (text : string)     (* the member, as the key-value store reads it *)
| Missing.

(** The members of [Object.prototype]. *)
Definition object_prototype : list string :=
  ["constructor"; "__defineGetter__"; "__defineSetter__"; "hasOwnProperty";
   "__lookupGetter__"; "__lookupSetter__"; "isPrototypeOf";
   "propertyIsEnumerable"; "toString"; "valueOf"; "__proto__";
   "toLocaleString"].

(** The string a member of [Object.prototype] is turned into when it is
    used as a key: the source text of a built-in function, and
    [[object Object]] for the prototype itself. *)
Definition member_text (name : string) : string :=
  if String.eqb name "__proto__" then "[object Object]"
  else
    ("function " ++ (if String.eqb name "constructor" then "Object" else name)
     ++ "() { [native code] }")%string.

Section Static.

(** The entries of the asset manifest, the key-value store of the assets
    and [getMimeType] of hono/utils/mime. *)
Variable manifest : string -> option string.
Variable STATIC_CONTENT : string -> option string.
Variable getMimeType : string -> option string.

(** [manifest[path]]. *)
Definition manifest_get (path : string) : member :=
  match manifest path with
  | Some key => Own key
  | None =>
      if existsb (String.eqb path) object_prototype
      then Inherited (member_text path)
      else Missing
  end.

(** [a || b] on what the manifest finds: a function and an object are
    truthy, the empty string is not. *)
Definition or_member (a b : member) : member :=
  match a with
  | Own key => if String.eqb key "" then b else a
  | Inherited _ => a
  | Missing => b
  end.

(** [if (path === '/') path = 'index.html';
     if (path.startsWith('/')) path = path.substring(1)]. *)
Definition asset_path (pathname : string) : string :=
  let path := if String.eqb pathname "/" then "index.html" else pathname in
  match path with
  | String "/" rest => rest
  | _ => path
  end.

(** [app.get('*')] on the pathname of the request. *)
Definition get_static (pathname : string) : response :=
  let path := asset_path pathname in
  let assetKey := or_member (manifest_get path) (manifest_get "index.html") in
  let found :=
    match assetKey with
    | Own key => if String.eqb key "" then None else Some key
    | Inherited text => Some text
    | Missing => None
    end in
  match found with
  | None => Text "Not Found" 404
  | Some key =>
      match STATIC_CONTENT key with
      | None => Text "Asset Not Found" 404
      | Some content =>
          Content content 200
            (match or_string (getMimeType path) (Some "text/html") with
             | Some t => t
             | None => "text/html"
             end)
      end
  end.

End Static.

(** ** The rest of the client: categories, modal, delete *)

Definition categories : list string :=
  ["All"; "Toys"; "Clothing"; "Furniture"; "Tech"; "Other"].

(** The options of the form's select:
    [categories.filter(c => c !== 'All')]. *)
Definition category_options : list string :=
  filter (fun c => negb (String.eqb c "All")) categories.

(** [openModal(item?)]; [toString] is [Number.prototype.toString]. *)
Definition openModal (toString : Z -> string) (item : option Item.t)
  (st : App.t) : App.t :=
  match item with
  | Some item =>
      App.mk (App.items st) (App.activeCategory st) true (App.isSubmitting st)
        (Some item)
        (FormData.mk (Item.name item) (toString (Item.price item))
           (Item.url item) (Item.category item) None
           (match or_string (Item.image_key item) (Some "") with
            | Some k => k
            | None => ""
            end))
  | None =>
      App.mk (App.items st) (App.activeCategory st) true (App.isSubmitting st)
        None
        (FormData.mk "" "" ""
           (if String.eqb (App.activeCategory st) "All" then "Toys"
            else App.activeCategory st)
           None "")
  end.

(** [handleDelete], on the path where the awaited [fetch] resolves;
    [confirmed] is what [confirm(..)] answers, asked only when an item is
    being edited. *)
Definition handleDelete (confirmed : bool) (st : App.t)
  : App.t * list request :=
  match App.editingItem st with
  | None => (st, [])
  | Some item =>
      if confirmed then
        (App.mk (App.items st) (App.activeCategory st) false false
           (App.editingItem st) (App.formData st),
         [DELETE_items (Item.id item); GET_items])
      else (st, [])
  end.

(** The rendered grid is empty: the "Empty Category" notice shows. *)
Definition empty_category (st : App.t) : bool :=
  (List.length (filteredItems st) =? 0)%nat.

(** The list without the items of an id. *)
Definition without (id : Z) (l : list Item.t) : list Item.t :=
  filter (fun i => negb (Item.id i =? id)) l.

(** The schema's constraints on a table: the primary key is unique and no
    name is NULL. *)
Definition constraints_hold (db : Db.t) : Prop :=
  NoDup (map Row.id (Db.items db))
  /\ Forall (fun r => Row.name r <> SNull) (Db.items db).

(** Two rows that differ in their priority at most. *)
Definition same_but_priority (r r' : Row.t) : Prop :=
  Row.id r' = Row.id r /\ Row.name r' = Row.name r
  /\ Row.price r' = Row.price r /\ Row.url r' = Row.url r
  /\ Row.image_key r' = Row.image_key r
  /\ Row.category r' = Row.category r
  /\ Row.created_at r' = Row.created_at r.

(** Every character of a string passes a test. *)
Fixpoint all_chars (f : ascii -> bool) (s : string) : bool :=
  match s with
  | String c rest => f c && all_chars f rest
  | EmptyString => true
  end.

(** The second half of [trim]: what it does once the start is clean. *)
Definition trimEnd (s : string) : string :=
  string_rev (trimStart (string_rev s "")) "".

(** The form of a new item D with a picture chosen. *)
Definition app_new_with_file : App.t :=
  App.mk [item_A; item_B; item_C] "Tech" true false None
         (FormData.mk "D" "5" "example.com" "Tech"
            (Some (File.mk "my cat/1.png" "image/png")) "").

(** A [toString] good enough for the fixtures. *)
Definition toString_fixture (n : Z) : string :=
  DecimalString.NilZero.string_of_int (Z.to_int n).

(** The numerator and the denominator of a number. *)
Definition numerator (v : sqlval) : Z :=
  match v with SNum n => n | SDec m _ => m | _ => 0 end.

Definition denominator (v : sqlval) : Z :=
  match v with SDec _ k => pow10 k | _ => 1 end.

(** * Proofs *)

(** ** The order of [ORDER BY] *)

Section Ordering.

Lemma pow10_pos (k : positive) : 0 < pow10 k.
Proof. unfold pow10. apply Z.pow_pos_nonneg; lia. Qed.

Lemma ascii_compare_lt_trans (a b c : ascii) :
  Ascii.compare a b = Lt -> Ascii.compare b c = Lt -> Ascii.compare a c = Lt.
Proof.
  unfold Ascii.compare. rewrite !N.compare_lt_iff. lia.
Qed.

Lemma string_compare_refl (s : string) : String.compare s s = Eq.
Proof.
  induction s as [|a s IH]; simpl; [reflexivity|].
  unfold Ascii.compare. now rewrite N.compare_refl.
Qed.

Lemma string_compare_lt_trans (s t u : string) :
  String.compare s t = Lt -> String.compare t u = Lt ->
  String.compare s u = Lt.
Proof.
  revert t u.
  induction s as [|a s IH]; intros [|b t] [|c u]; simpl;
    try discriminate; try reflexivity.
  destruct (Ascii.compare a b) eqn:Hab; try discriminate.
  - apply Ascii.compare_eq_iff in Hab. subst b.
    destruct (Ascii.compare a c); try discriminate; auto.
    intros H1 H2. eapply IH; eassumption.
  - intros _.
    destruct (Ascii.compare b c) eqn:Hbc; try discriminate.
    + apply Ascii.compare_eq_iff in Hbc. subst c. now rewrite Hab.
    + now rewrite (ascii_compare_lt_trans _ _ _ Hab Hbc).
Qed.

Lemma string_ltb_compare (s t : string) :
  String.ltb s t = true <-> String.compare s t = Lt.
Proof.
  unfold String.ltb. destruct (String.compare s t); split; congruence.
Qed.

Lemma bytes_compare_refl (u : list Z) : bytes_compare u u = Eq.
Proof.
  induction u as [|x u IH]; simpl; auto. now rewrite Z.compare_refl.
Qed.

Lemma bytes_compare_eq (u v : list Z) : bytes_compare u v = Eq <-> u = v.
Proof.
  split; [|intros ->; apply bytes_compare_refl].
  revert v. induction u as [|x u IH]; intros [|y v]; simpl;
    try discriminate; auto.
  destruct (Z.compare_spec x y) as [E|E|E]; try discriminate.
  intros H. subst. f_equal. auto.
Qed.

Lemma bytes_compare_lt (u v : list Z) :
  bytes_compare u v = Lt <-> bytes_lt u v.
Proof.
  revert v. induction u as [|x u IH]; intros [|y v]; simpl;
    try tauto; try (split; [discriminate | tauto]).
  destruct (Z.compare_spec x y).
  - rewrite IH. split; [tauto|]. intros [H'|[_ H']]; [lia | exact H'].
  - split; tauto.
  - split; [discriminate|]. intros [H'|[H' _]]; lia.
Qed.

Lemma bytes_compare_antisym (u v : list Z) :
  bytes_compare u v = CompOpp (bytes_compare v u).
Proof.
  revert v. induction u as [|x u IH]; intros [|y v]; simpl; auto.
  rewrite (Z.compare_antisym y x).
  destruct (y ?= x); simpl; auto.
Qed.

Lemma bytes_compare_lt_trans (u v w : list Z) :
  bytes_compare u v = Lt -> bytes_compare v w = Lt -> bytes_compare u w = Lt.
Proof.
  revert v w.
  induction u as [|x u IH]; intros [|y v] [|z w]; simpl;
    try discriminate; try reflexivity.
  destruct (Z.compare_spec x y); try discriminate.
  - subst y. destruct (x ?= z); try discriminate; auto.
    intros H1 H2. eapply IH; eassumption.
  - intros _. destruct (Z.compare_spec y z); try discriminate; intros _.
    + subst z. now rewrite (proj2 (Z.compare_lt_iff x y)).
    + now rewrite (proj2 (Z.compare_lt_iff x z)) by lia.
Qed.

(** The comparison of the model reads as the order of the values. *)
Lemma sql_compare_lt (a b : sqlval) :
  sql_compare a b = Lt <-> sorts_before a b.
Proof.
  destruct a, b; simpl; unfold pow10;
    rewrite ?Z.compare_lt_iff; try tauto;
    try (split; [discriminate | tauto]);
    try (split; [reflexivity | tauto]);
    try (split; congruence).
  - symmetry. apply string_ltb_compare.
  - apply bytes_compare_lt.
Qed.

Lemma sql_compare_eq (a b : sqlval) :
  sql_compare a b = Eq <-> sorts_equal a b.
Proof.
  destruct a, b; simpl; unfold pow10;
    rewrite ?Z.compare_eq_iff; try tauto;
    try (split; [discriminate | tauto]).
  - split; [apply String.compare_eq_iff | intros ->; apply string_compare_refl].
  - apply bytes_compare_eq.
Qed.

Lemma sql_compare_refl (a : sqlval) : sql_compare a a = Eq.
Proof.
  destruct a; simpl;
    auto using Z.compare_refl, string_compare_refl, bytes_compare_refl.
Qed.

Lemma sql_compare_antisym (a b : sqlval) :
  sql_compare a b = CompOpp (sql_compare b a).
Proof.
  destruct a, b; simpl;
    auto using Z.compare_antisym, String.compare_antisym,
      bytes_compare_antisym.
Qed.

(** Numbers are compared as fractions with positive denominators. *)
Lemma fraction_lt_trans (n1 d1 n2 d2 n3 d3 : Z) :
  0 < d1 -> 0 < d2 -> 0 < d3 ->
  n1 * d2 < n2 * d1 -> n2 * d3 < n3 * d2 -> n1 * d3 < n3 * d1.
Proof.
  intros H1 H2 H3 Ha Hb.
  apply (Z.mul_lt_mono_pos_r d2); [assumption|].
  apply (Z.mul_lt_mono_pos_r d3) in Ha; [|assumption].
  apply (Z.mul_lt_mono_pos_r d1) in Hb; [|assumption].
  lia.
Qed.

Lemma fraction_eq_lt (n1 d1 n2 d2 n3 d3 : Z) :
  0 < d1 -> 0 < d2 -> 0 < d3 ->
  n1 * d2 = n2 * d1 -> n2 * d3 < n3 * d2 -> n1 * d3 < n3 * d1.
Proof.
  intros H1 H2 H3 Ha Hb.
  apply (Z.mul_lt_mono_pos_r d2); [assumption|].
  apply (f_equal (fun x => x * d3)) in Ha.
  apply (Z.mul_lt_mono_pos_r d1) in Hb; [|assumption].
  lia.
Qed.

Lemma fraction_lt_eq (n1 d1 n2 d2 n3 d3 : Z) :
  0 < d1 -> 0 < d2 -> 0 < d3 ->
  n1 * d2 < n2 * d1 -> n2 * d3 = n3 * d2 -> n1 * d3 < n3 * d1.
Proof.
  intros H1 H2 H3 Ha Hb.
  apply (Z.mul_lt_mono_pos_r d2); [assumption|].
  apply (Z.mul_lt_mono_pos_r d3) in Ha; [|assumption].
  apply (f_equal (fun x => x * d1)) in Hb.
  lia.
Qed.

Lemma fraction_eq_eq (n1 d1 n2 d2 n3 d3 : Z) :
  0 < d1 -> 0 < d2 -> 0 < d3 ->
  n1 * d2 = n2 * d1 -> n2 * d3 = n3 * d2 -> n1 * d3 = n3 * d1.
Proof.
  intros H1 H2 H3 Ha Hb.
  apply (Z.mul_reg_r _ _ d2); [lia|].
  apply (f_equal (fun x => x * d3)) in Ha.
  apply (f_equal (fun x => x * d1)) in Hb.
  lia.
Qed.

Lemma denominator_pos (v : sqlval) : 0 < denominator v.
Proof. destruct v; simpl; auto using pow10_pos; lia. Qed.

Lemma sql_compare_numbers (a b : sqlval) :
  storage_class a = 1 -> storage_class b = 1 ->
  sql_compare a b
  = (numerator a * denominator b ?= numerator b * denominator a).
Proof.
  destruct a, b; simpl; try discriminate; intros _ _;
    now rewrite ?Z.mul_1_r.
Qed.

Lemma sql_compare_classes (a b : sqlval) :
  storage_class a <> storage_class b ->
  sql_compare a b = (storage_class a ?= storage_class b).
Proof. destruct a, b; simpl; congruence. Qed.

Lemma sql_compare_same_class (a b : sqlval) :
  sql_compare a b = Eq -> storage_class a = storage_class b.
Proof. destruct a, b; simpl; try discriminate; auto. Qed.

Lemma sql_compare_class_le (a b : sqlval) :
  sql_compare a b = Lt -> storage_class a <= storage_class b.
Proof. destruct a, b; simpl; try discriminate; lia. Qed.

Lemma storage_class_range (a : sqlval) : 0 <= storage_class a <= 3.
Proof. destruct a; simpl; lia. Qed.

Ltac same_class a b c :=
  destruct a, b, c; simpl storage_class in *; try lia; try discriminate.

Lemma sql_compare_lt_trans (a b c : sqlval) :
  sql_compare a b = Lt -> sql_compare b c = Lt -> sql_compare a c = Lt.
Proof.
  intros Hab Hbc.
  pose proof (sql_compare_class_le _ _ Hab) as Cab.
  pose proof (sql_compare_class_le _ _ Hbc) as Cbc.
  destruct (Z.eq_dec (storage_class a) (storage_class c)) as [E|N].
  - assert (Eb : storage_class b = storage_class a) by lia.
    pose proof (storage_class_range a) as R.
    assert (Hc : storage_class a = 0 \/ storage_class a = 1
                 \/ storage_class a = 2 \/ storage_class a = 3) by lia.
    destruct Hc as [C|[C|[C|C]]].
    + same_class a b c.
    + rewrite sql_compare_numbers in * by lia.
      rewrite Z.compare_lt_iff in *.
      eapply fraction_lt_trans; eauto using denominator_pos.
    + same_class a b c. eapply string_compare_lt_trans; eassumption.
    + same_class a b c. eapply bytes_compare_lt_trans; eassumption.
  - rewrite sql_compare_classes by assumption.
    apply Z.compare_lt_iff. lia.
Qed.

Lemma sql_compare_eq_lt (a b c : sqlval) :
  sql_compare a b = Eq -> sql_compare b c = Lt -> sql_compare a c = Lt.
Proof.
  intros Hab Hbc.
  pose proof (sql_compare_same_class _ _ Hab) as Cab.
  destruct (Z.eq_dec (storage_class b) (storage_class c)) as [E|N].
  - pose proof (storage_class_range a) as R.
    assert (Hc : storage_class a = 0 \/ storage_class a = 1
                 \/ storage_class a = 2 \/ storage_class a = 3) by lia.
    destruct Hc as [C|[C|[C|C]]].
    + same_class a b c.
    + rewrite sql_compare_numbers in * by lia.
      rewrite Z.compare_lt_iff, Z.compare_eq_iff in *.
      eapply fraction_eq_lt; eauto using denominator_pos.
    + same_class a b c. apply String.compare_eq_iff in Hab. now subst.
    + same_class a b c. apply bytes_compare_eq in Hab. now subst.
  - rewrite sql_compare_classes in * by lia. now rewrite Cab.
Qed.

Lemma sql_compare_lt_eq (a b c : sqlval) :
  sql_compare a b = Lt -> sql_compare b c = Eq -> sql_compare a c = Lt.
Proof.
  intros Hab Hbc.
  pose proof (sql_compare_same_class _ _ Hbc) as Cbc.
  destruct (Z.eq_dec (storage_class a) (storage_class b)) as [E|N].
  - pose proof (storage_class_range a) as R.
    assert (Hc : storage_class a = 0 \/ storage_class a = 1
                 \/ storage_class a = 2 \/ storage_class a = 3) by lia.
    destruct Hc as [C|[C|[C|C]]].
    + same_class a b c.
    + rewrite sql_compare_numbers in * by lia.
      rewrite Z.compare_lt_iff, Z.compare_eq_iff in *.
      eapply fraction_lt_eq; eauto using denominator_pos.
    + same_class a b c. apply String.compare_eq_iff in Hbc. now subst.
    + same_class a b c. apply bytes_compare_eq in Hbc. now subst.
  - rewrite sql_compare_classes in * by lia. now rewrite <- Cbc.
Qed.

Lemma sql_compare_eq_eq (a b c : sqlval) :
  sql_compare a b = Eq -> sql_compare b c = Eq -> sql_compare a c = Eq.
Proof.
  intros Hab Hbc.
  pose proof (sql_compare_same_class _ _ Hab) as Cab.
  pose proof (sql_compare_same_class _ _ Hbc) as Cbc.
  pose proof (storage_class_range a) as R.
  assert (Hc : storage_class a = 0 \/ storage_class a = 1
               \/ storage_class a = 2 \/ storage_class a = 3) by lia.
  destruct Hc as [C|[C|[C|C]]].
  - same_class a b c. reflexivity.
  - rewrite sql_compare_numbers in * by lia.
    rewrite Z.compare_eq_iff in *.
    eapply fraction_eq_eq; eauto using denominator_pos.
  - same_class a b c. apply String.compare_eq_iff in Hab, Hbc.
    subst. apply string_compare_refl.
  - same_class a b c. apply bytes_compare_eq in Hab, Hbc.
    subst. apply bytes_compare_refl.
Qed.

Lemma order_leb_spec (r1 r2 : Row.t) :
  order_leb r1 r2 = true <-> priority_asc_created_desc r1 r2.
Proof.
  unfold order_leb, order_by, priority_asc_created_desc.
  rewrite <- sql_compare_lt, <- sql_compare_eq.
  destruct (sql_compare (Row.priority r1) (Row.priority r2)) eqn:Hp.
  - destruct (Row.created_at r2 ?= Row.created_at r1) eqn:Hc; split;
      try discriminate; auto.
    + intros _. right. split; auto. apply Z.compare_eq in Hc. lia.
    + intros _. right. split; auto. rewrite Z.compare_lt_iff in Hc. lia.
    + intros [H|[_ H]].
      * discriminate.
      * rewrite Z.compare_gt_iff in Hc. lia.
  - split; auto.
  - split; try discriminate.
    intros [H|[H _]]; discriminate.
Qed.

Lemma order_total (r1 r2 : Row.t) :
  order_leb r1 r2 = false -> priority_asc_created_desc r2 r1.
Proof.
  intros H. apply order_leb_spec. revert H.
  unfold order_leb, order_by.
  rewrite (sql_compare_antisym (Row.priority r2) (Row.priority r1)).
  destruct (sql_compare (Row.priority r1) (Row.priority r2)); simpl;
    try discriminate; auto.
  rewrite (Z.compare_antisym (Row.created_at r2) (Row.created_at r1)).
  destruct (Row.created_at r2 ?= Row.created_at r1); simpl;
    try discriminate; auto.
Qed.

Lemma order_trans (r1 r2 r3 : Row.t) :
  priority_asc_created_desc r1 r2 -> priority_asc_created_desc r2 r3 ->
  priority_asc_created_desc r1 r3.
Proof.
  unfold priority_asc_created_desc.
  rewrite <- !sql_compare_lt, <- !sql_compare_eq.
  intros [H12|[E12 C12]] [H23|[E23 C23]].
  - left. eapply sql_compare_lt_trans; eassumption.
  - left. eapply sql_compare_lt_eq; eassumption.
  - left. eapply sql_compare_eq_lt; eassumption.
  - right. split; [eapply sql_compare_eq_eq; eassumption | lia].
Qed.

Lemma sort_insert_perm (r : Row.t) (l : list Row.t) :
  Permutation (r :: l) (sort_insert r l).
Proof.
  induction l as [|h t IH]; simpl; auto.
  destruct (order_leb r h); auto.
  eapply perm_trans; [apply perm_swap|]. now constructor.
Qed.

Lemma sort_insert_sorted (r : Row.t) (l : list Row.t) :
  StronglySorted priority_asc_created_desc l ->
  StronglySorted priority_asc_created_desc (sort_insert r l).
Proof.
  induction 1 as [|h t Hs IH Hh]; simpl.
  - repeat constructor.
  - destruct (order_leb r h) eqn:Hrh.
    + apply order_leb_spec in Hrh.
      constructor; [now constructor|].
      constructor; auto.
      eapply Forall_impl; [|exact Hh].
      intros x Hx. eapply order_trans; eassumption.
    + apply order_total in Hrh.
      constructor; auto.
      eapply Permutation_Forall; [apply sort_insert_perm|].
      now constructor.
Qed.

Lemma sql_order_perm (rs : list Row.t) : Permutation rs (sql_order rs).
Proof.
  induction rs as [|r rs IH]; simpl; auto.
  eapply perm_trans; [|apply sort_insert_perm]. now constructor.
Qed.

Lemma sql_order_sorted (rs : list Row.t) :
  StronglySorted priority_asc_created_desc (sql_order rs).
Proof.
  induction rs as [|r rs IH]; simpl.
  - constructor.
  - now apply sort_insert_sorted.
Qed.

End Ordering.

Lemma sorted_apart {A : Type} (R : A -> A -> Prop)
  (before between after : list A) (x y : A) :
  StronglySorted R (before ++ x :: between ++ y :: after) -> R x y.
Proof.
  induction before as [|h before IH]; simpl; intros H.
  - apply StronglySorted_inv in H. destruct H as [_ H].
    rewrite Forall_forall in H. apply H.
    rewrite in_app_iff. simpl. tauto.
  - apply StronglySorted_inv in H. tauto.
Qed.

(** C5.  For every database, whatever the order of the inserts and
    whatever priorities it holds (duplicates included), [GET /api/items]
    answers with [listAll]: every row of the table, each once, sorted by
    priority ascending, and among rows of equal priority by [created_at]
    descending.  In particular, of two rows of the list whose priorities
    are the integers [p1] and [p2], the one listed first has [p1 <= p2],
    and when [p1 = p2] it is the one created last. *)
Theorem listAll_sorted_priority_asc_created_desc (db : Db.t) :
  get_items db = (Json (Results (listAll db)), db)
  /\ Permutation (Db.items db) (listAll db)
  /\ StronglySorted priority_asc_created_desc (listAll db)
  /\ (forall before r1 between r2 after p1 p2,
        listAll db = before ++ r1 :: between ++ r2 :: after ->
        Row.priority r1 = SNum p1 -> Row.priority r2 = SNum p2 ->
        p1 <= p2 /\ (p1 = p2 -> Row.created_at r2 <= Row.created_at r1)).
Proof.
  split; [reflexivity|]. split; [apply sql_order_perm|].
  split; [apply sql_order_sorted|].
  intros before r1 between r2 after p1 p2 Hl H1 H2.
  pose proof (sql_order_sorted (Db.items db)) as Hs.
  change (sql_order (Db.items db)) with (listAll db) in Hs.
  rewrite Hl in Hs. apply sorted_apart in Hs.
  unfold priority_asc_created_desc in Hs. rewrite H1, H2 in Hs.
  simpl in Hs. lia.
Qed.

Lemma listAll_sorted_priority_asc_created_desc_witness :
  listAll db_shuffled
  = [Row.mk 5 (SText "E") SNull SNull SNull SNull SNull 1004;
     Row.mk 4 (SText "D") SNull SNull SNull SNull (SNum (-1)) 1003;
     Row.mk 3 (SText "C") SNull SNull SNull SNull (SNum 0) 1002;
     Row.mk 2 (SText "B") SNull SNull SNull SNull (SNum 0) 1001;
     Row.mk 1 (SText "A") SNull SNull SNull SNull (SNum 2) 1000;
     Row.mk 6 (SText "F") SNull SNull SNull SNull (SText "top") 1005]
  /\ (0 <= 0 /\ (0 = 0 -> 1001 <= 1002))
  /\ (-1 <= 2 /\ (-1 = 2 -> 1000 <= 1003)).
Proof.
  split; [reflexivity|]. split.
  - apply (proj2 (proj2 (proj2
             (listAll_sorted_priority_asc_created_desc db_shuffled)))
             [Row.mk 5 (SText "E") SNull SNull SNull SNull SNull 1004;
              Row.mk 4 (SText "D") SNull SNull SNull SNull (SNum (-1)) 1003]
             (Row.mk 3 (SText "C") SNull SNull SNull SNull (SNum 0) 1002)
             []
             (Row.mk 2 (SText "B") SNull SNull SNull SNull (SNum 0) 1001)
             [Row.mk 1 (SText "A") SNull SNull SNull SNull (SNum 2) 1000;
              Row.mk 6 (SText "F") SNull SNull SNull SNull (SText "top") 1005]
             0 0); reflexivity.
  - apply (proj2 (proj2 (proj2
             (listAll_sorted_priority_asc_created_desc db_shuffled)))
             [Row.mk 5 (SText "E") SNull SNull SNull SNull SNull 1004]
             (Row.mk 4 (SText "D") SNull SNull SNull SNull (SNum (-1)) 1003)
             [Row.mk 3 (SText "C") SNull SNull SNull SNull (SNum 0) 1002;
              Row.mk 2 (SText "B") SNull SNull SNull SNull (SNum 0) 1001]
             (Row.mk 1 (SText "A") SNull SNull SNull SNull (SNum 2) 1000)
             [Row.mk 6 (SText "F") SNull SNull SNull SNull (SText "top") 1005]
             (-1) 2); reflexivity.
Defined.

(** ** The partial update *)

Section Update.

Lemma existsb_and_const_l {A : Type} (b : bool) (f : A -> bool)
  (l : list A) :
  existsb (fun x => b && f x) l = b && existsb f l.
Proof.
  destruct b; simpl; [reflexivity|].
  induction l; simpl; auto.
Qed.

Lemma existsb_pointwise {A : Type} (f g : A -> bool) (l : list A) :
  (forall x, f x = g x) -> existsb f l = existsb g l.
Proof.
  intros H. induction l as [|x l IH]; simpl; [reflexivity|].
  now rewrite H, IH.
Qed.

Lemma column_eqb_eq (a b : column) : column_eqb a b = true <-> a = b.
Proof. destruct a, b; simpl; split; congruence. Qed.

Lemma row_ext (r r' : Row.t) :
  Row.id r = Row.id r' -> Row.created_at r = Row.created_at r' ->
  (forall c, get_column c r = get_column c r') -> r = r'.
Proof.
  destruct r, r'; simpl. intros -> -> H.
  pose proof (H c_name). pose proof (H c_price). pose proof (H c_url).
  pose proof (H c_image_key). pose proof (H c_category).
  pose proof (H c_priority). simpl in *. congruence.
Qed.

Lemma get_set_column (c c' : column) (v : sqlval) (r : Row.t) :
  get_column c (set_column c' v r)
  = if column_eqb c c' then v else get_column c r.
Proof. destruct r, c, c'; reflexivity. Qed.

Lemma set_column_frame (c : column) (v : sqlval) (r : Row.t) :
  Row.id (set_column c v r) = Row.id r
  /\ Row.created_at (set_column c v r) = Row.created_at r.
Proof. destruct r, c; auto. Qed.

Lemma assign_frame (cols : list column) (params : list param) (r : Row.t) :
  Row.id (assign cols params r) = Row.id r
  /\ Row.created_at (assign cols params r) = Row.created_at r.
Proof.
  revert params r.
  induction cols as [|c cols IH]; intros [|v params] r; simpl; auto.
  destruct (IH params (set_column c (store c v) r)) as [-> ->].
  apply set_column_frame.
Qed.

(** Each column named by the statement takes its parameter, the others
    keep their value. *)
Lemma get_assign (w : column -> param) (cols : list column) (c : column)
  (r : Row.t) :
  get_column c (assign cols (map w cols) r)
  = if existsb (column_eqb c) cols then store c (w c) else get_column c r.
Proof.
  revert r. induction cols as [|c' cols IH]; intros r; simpl; auto.
  rewrite IH, get_set_column.
  destruct (existsb (column_eqb c) cols); rewrite ?orb_true_r; auto.
  rewrite orb_false_r.
  destruct (column_eqb c c') eqn:E; auto.
  apply column_eqb_eq in E. now subst.
Qed.

Lemma assign_key (cols : list column) (params : list param) (key : param)
  (r : Row.t) :
  List.length params = List.length cols ->
  assign cols (params ++ [key]) r = assign cols params r.
Proof.
  revert params r.
  induction cols as [|c cols IH]; intros [|v params] r; simpl;
    try discriminate; try reflexivity.
  intros H. apply IH. now injection H.
Qed.

Lemma nth_key (cols : list column) (params : list param) (key : param) :
  List.length params = List.length cols ->
  nth (List.length cols) (params ++ [key]) PNull = key.
Proof.
  intros <-. rewrite app_nth2, Nat.sub_diag; auto.
Qed.

Lemma provided_mentions (body : Body.t) (c : column) :
  existsb (column_eqb c) (provided body) = defined (field body c).
Proof.
  destruct body as [n p u k g o]. unfold provided, all_columns.
  destruct c; simpl;
    destruct (defined n), (defined p), (defined u), (defined k),
      (defined g), (defined o); reflexivity.
Qed.

Lemma provided_name (body : Body.t) :
  existsb is_c_name (provided body) = defined (Body.name body).
Proof.
  change (Body.name body) with (field body c_name).
  rewrite <- provided_mentions.
  apply existsb_pointwise. intros c; now destruct c.
Qed.

Lemma provided_none (body : Body.t) :
  (List.length (provided body) =? 0)%nat = no_field body.
Proof.
  destruct body as [n p u k g o]. unfold provided, all_columns, no_field.
  simpl.
  destruct (defined n), (defined p), (defined u), (defined k),
    (defined g), (defined o); reflexivity.
Qed.

Lemma write_undefined (c : column) (old : sqlval) :
  write c JUndefined old = old.
Proof. reflexivity. Qed.

Lemma write_defined (c : column) (v : jsval) (old : sqlval) :
  defined v = true -> write c v old = store c (bound v).
Proof. unfold write. now intros ->. Qed.

Lemma get_patch (body : Body.t) (c : column) (r : Row.t) :
  get_column c (patch body r) = write c (field body c) (get_column c r).
Proof. now destruct c. Qed.

Lemma assign_provided (body : Body.t) (r : Row.t) :
  assign (provided body)
    (map (fun c => bound (field body c)) (provided body)) r
  = patch body r.
Proof.
  apply row_ext.
  - exact (proj1 (assign_frame _ _ r)).
  - exact (proj2 (assign_frame _ _ r)).
  - intros c. rewrite get_assign, provided_mentions, get_patch.
    reflexivity.
Qed.

Lemma bind_all (vs : list jsval) :
  bind vs = if forallb can_bind vs then Some (map bound vs) else None.
Proof.
  induction vs as [|v vs IH]; simpl; auto.
  rewrite IH. unfold can_bind, bound.
  destruct (bind_value v); simpl; auto.
  now destruct (forallb _ vs).
Qed.

Lemma forallb_filter {A : Type} (f g : A -> bool) (l : list A) :
  forallb f (filter g l) = forallb (fun x => negb (g x) || f x) l.
Proof.
  induction l as [|x l IH]; simpl; auto.
  destruct (g x); simpl; now rewrite IH.
Qed.

Lemma forallb_mapped {A B : Type} (f : B -> bool) (g : A -> B) (l : list A) :
  forallb f (map g l) = forallb (fun x => f (g x)) l.
Proof. induction l as [|x l IH]; simpl; auto. now rewrite IH. Qed.

Lemma bind_provided (id : Z) (body : Body.t) :
  bind (map (field body) (provided body) ++ [JNum id])
  = if bindable body
    then Some (map (fun c => bound (field body c)) (provided body)
               ++ [PReal id])
    else None.
Proof.
  rewrite bind_all, forallb_app, forallb_mapped. simpl. rewrite andb_true_r.
  unfold provided at 1. rewrite forallb_filter. fold (bindable body).
  destruct (bindable body); auto.
  now rewrite map_app, map_map.
Qed.

(** The accumulators of the handler: the provided columns and their
    values, side by side. *)
Lemma put_items_accumulates (id : Z)
  (body : Body.t) (db : Db.t) :
  put_items id body db =
    if (List.length (provided body) =? 0)%nat then (Json Success, db)
    else
      match bind (map (field body) (provided body) ++ [JNum id]) with
      | None => (Uncaught D1_TYPE_ERROR, db)
      | Some params =>
          match update_items (provided body) params db with
          | Resolved db' => (Json Success, db')
          | Rejected e => (Uncaught e, db)
          end
      end.
Proof.
  destruct body as [n p u k g o].
  unfold put_items, push_if, provided, all_columns. simpl.
  destruct (defined n), (defined p), (defined u), (defined k),
    (defined g), (defined o); reflexivity.
Qed.

Lemma reduce_not_null (fuel : nat) (m k : Z) :
  is_null (reduce fuel m k) = false.
Proof.
  revert m k. induction fuel as [|f IH]; intros m k; simpl; auto.
  destruct (m mod 10 =? 0); auto.
Qed.

Lemma number_value_not_null (m e : Z) : is_null (number_value m e) = false.
Proof.
  unfold number_value. destruct (0 <=? e); auto using reduce_not_null.
Qed.

Lemma store_null (c : column) (p : param) :
  is_null (store c p) = match p with PNull => true | _ => false end.
Proof.
  destruct p; simpl; auto.
  - now destruct (column_affinity c).
  - destruct (column_affinity c); auto;
      destruct (numeric_literal s) as [[m e]|]; auto;
      apply number_value_not_null.
Qed.

Lemma write_name_null (v : jsval) (old : sqlval) :
  can_bind v = true ->
  is_null (write c_name v old)
  = if defined v then is_jnull v else is_null old.
Proof.
  unfold write, can_bind, bound.
  destruct (defined v) eqn:D; auto.
  rewrite store_null.
  destruct v; simpl; try discriminate; auto.
  destruct (bytes_of elements); simpl; auto; discriminate.
Qed.

(** What the statement built by the handler does to the table: with a
    field the driver refuses, nothing; otherwise [patch] on the rows of
    the key. *)
Lemma put_items_eq (id : Z) (body : Body.t)
  (db : Db.t) :
  put_items id body db =
    if no_field body then (Json Success, db)
    else if negb (bindable body) then (Uncaught D1_TYPE_ERROR, db)
    else if is_jnull (Body.name body)
            && existsb (fun r => Row.id r =? id) (Db.items db)
    then (Uncaught SQLITE_CONSTRAINT_NOTNULL, db)
    else (Json Success,
          Db.mk (map (patch_at id body) (Db.items db))
                (Db.sqlite_sequence db)).
Proof.
  rewrite put_items_accumulates, provided_none.
  destruct (no_field body); auto.
  rewrite bind_provided.
  destruct (bindable body) eqn:Hb; auto. simpl negb. cbv iota.
  set (ps := map (fun c => bound (field body c)) (provided body)).
  assert (Hlen : List.length ps = List.length (provided body))
    by (unfold ps; apply length_map).
  assert (Hname : defined (Body.name body) = true ->
                  can_bind (Body.name body) = true).
  { unfold bindable, all_columns in Hb. simpl in Hb.
    apply andb_true_iff in Hb. destruct Hb as [Hb _].
    intros D. now rewrite D in Hb. }
  unfold update_items.
  rewrite length_app, Hlen, Nat.add_1_r, Nat.eqb_refl. simpl negb. cbv iota.
  rewrite (nth_key _ _ _ Hlen).
  rewrite (existsb_pointwise _
             (fun r => is_jnull (Body.name body) && (Row.id r =? id))).
  2:{ intros r. rewrite (assign_key _ _ _ _ Hlen). unfold ps.
      rewrite assign_provided, provided_name. simpl.
      destruct (Row.id r =? id); rewrite ?andb_false_r; auto.
      destruct (defined (Body.name body)) eqn:D.
      - rewrite (write_name_null _ _ (Hname eq_refl)), D. simpl.
        now rewrite andb_true_r.
      - destruct (Body.name body); try discriminate. reflexivity. }
  rewrite existsb_and_const_l.
  destruct (is_jnull (Body.name body)
            && existsb (fun r => Row.id r =? id) (Db.items db)); auto.
  do 2 f_equal. apply map_ext. intros r.
  unfold update_row, patch_at. rewrite (nth_key _ _ _ Hlen). simpl.
  destruct (Row.id r =? id); auto.
  rewrite (assign_key _ _ _ _ Hlen). apply assign_provided.
Qed.

End Update.

Section UpdateFacts.

Lemma no_field_empty (body : Body.t) :
  no_field body = true <-> body = empty_body.
Proof.
  destruct body as [n p u k g o]. unfold no_field, empty_body. simpl.
  assert (Hu : forall v, defined v = false -> v = JUndefined)
    by (intros v; destruct v; auto; discriminate).
  split.
  - rewrite negb_true_iff, !orb_false_iff.
    intros (((((Hn & Hp) & Hu') & Hk) & Hg) & Ho).
    now rewrite (Hu _ Hn), (Hu _ Hp), (Hu _ Hu'), (Hu _ Hk), (Hu _ Hg),
      (Hu _ Ho).
  - now intros [= -> -> -> -> -> ->].
Qed.

Lemma patch_empty (r : Row.t) : patch empty_body r = r.
Proof. now destruct r. Qed.

Lemma patch_at_other (id : Z) (body : Body.t) (r : Row.t) :
  Row.id r <> id -> patch_at id body r = r.
Proof.
  intros H. unfold patch_at. destruct (Z.eqb_spec (Row.id r) id); tauto.
Qed.

Lemma patch_at_id (id : Z) (body : Body.t) (r : Row.t) :
  Row.id (patch_at id body r) = Row.id r.
Proof. unfold patch_at. now destruct (Row.id r =? id). Qed.

Lemma lookup_none (id : Z) (db : Db.t) :
  lookup id db = None ->
  forall r, In r (Db.items db) -> Row.id r <> id.
Proof.
  unfold lookup. intros H r Hr E.
  apply (find_none _ _ H) in Hr. simpl in Hr. lia.
Qed.

Lemma lookup_map (f : Row.t -> Row.t) (j : Z) (rows : list Row.t) (sq : Z) :
  (forall r, Row.id (f r) = Row.id r) ->
  lookup j (Db.mk (map f rows) sq) = option_map f (lookup j (Db.mk rows sq)).
Proof.
  intros Hf. unfold lookup. simpl.
  induction rows as [|r rows IH]; simpl; auto.
  rewrite Hf. destruct (Row.id r =? j); auto.
Qed.

Lemma db_eta (db : Db.t) : Db.mk (Db.items db) (Db.sqlite_sequence db) = db.
Proof. now destruct db. Qed.

Lemma map_patch_absent (id : Z) (body : Body.t) (rows : list Row.t) :
  (forall r, In r rows -> Row.id r <> id) ->
  map (patch_at id body) rows = rows.
Proof.
  intros H. induction rows as [|r rows IH]; simpl; auto.
  rewrite patch_at_other, IH; auto using in_eq, in_cons.
Qed.

Lemma existsb_absent (id : Z) (rows : list Row.t) :
  (forall r, In r rows -> Row.id r <> id) ->
  existsb (fun r => Row.id r =? id) rows = false.
Proof.
  intros H. induction rows as [|r rows IH]; simpl; auto.
  rewrite IH by auto using in_cons.
  destruct (Z.eqb_spec (Row.id r) id); auto.
  exfalso. eapply H; eauto using in_eq.
Qed.

End UpdateFacts.

Section UpdateValues.

Lemma plain_can_bind (v : jsval) : plain v = true -> can_bind v = true.
Proof. destruct v; simpl; auto; discriminate. Qed.

Lemma plain_bindable (body : Body.t) :
  plain_body body = true -> bindable body = true.
Proof.
  unfold plain_body, bindable. rewrite !forallb_forall.
  intros H c Hc. specialize (H c Hc).
  destruct (defined (field body c)); simpl in *; auto using plain_can_bind.
Qed.

Lemma object_not_bindable (body : Body.t) (c : column) :
  field body c = JObject -> bindable body = false.
Proof.
  intros H. destruct (bindable body) eqn:E; auto.
  unfold bindable in E. rewrite forallb_forall in E.
  assert (Hc : In c all_columns) by (destruct c; simpl; tauto).
  specialize (E c Hc). now rewrite H in E.
Qed.

Lemma object_is_a_field (body : Body.t) (c : column) :
  field body c = JObject -> no_field body = false.
Proof.
  destruct body as [n p u k g o]. unfold no_field.
  destruct c; simpl; intros ->; simpl; rewrite ?orb_true_r; reflexivity.
Qed.

Lemma write_typed (c : column) (v : jsval) (old : sqlval) :
  typed c v = true -> write c v old = as_given v.
Proof.
  unfold write, typed.
  destruct v; simpl; try discriminate; auto;
    unfold store; destruct (column_affinity c); auto; discriminate.
Qed.

Lemma write_empty_string (c : column) (old : sqlval) :
  write c (JStr "") old = SText "".
Proof. now destruct c. Qed.

Lemma patch_updates (id : Z) (body : Body.t) (r : Row.t) :
  updated_row id body r (patch_at id body r).
Proof.
  unfold updated_row, patch_at.
  destruct (Z.eqb_spec (Row.id r) id) as [E|E].
  - repeat split; auto; try tauto.
    + intros Hc. now rewrite get_patch, Hc.
    + intros Hc. rewrite get_patch. now apply write_typed.
    + intros Hc. rewrite get_patch, Hc. apply write_empty_string.
  - repeat split; auto; tauto.
Qed.

Lemma Forall2_mapped {A : Type} (R : A -> A -> Prop) (f : A -> A)
  (l : list A) :
  (forall x, R x (f x)) -> Forall2 R l (map f l).
Proof. intros H. induction l; simpl; constructor; auto. Qed.

Lemma map_patch_empty (id : Z) (rows : list Row.t) :
  map (patch_at id empty_body) rows = rows.
Proof.
  erewrite map_ext; [apply map_id|].
  intros r. unfold patch_at. rewrite patch_empty.
  now destruct (Row.id r =? id).
Qed.

End UpdateValues.

(** C6, as stated, fails.  An update of row A that provides [name] as
    [null] and [price] as 99 writes neither of the two fields it
    provides: the NOT NULL column refuses the statement, an exception
    leaves the handler and the table is as before.  An update that
    provides a new name and a price that is an object writes neither:
    the driver refuses the object.  And an update that provides the
    number 123 as name leaves the text ['123.0'] in the column. *)
Lemma update_with_null_name_writes_nothing :
  put_items 1 body_null_name db_ABC
  = (Uncaught SQLITE_CONSTRAINT_NOTNULL, db_ABC)
  /\ option_map Row.price (lookup 1 db_ABC) = Some (SNum 10)
  /\ put_items 1 body_object_price db_ABC = (Uncaught D1_TYPE_ERROR, db_ABC)
  /\ option_map Row.name (lookup 1 (snd (put_items 1 body_number_name db_ABC)))
     = Some (SText "123.0").
Proof. repeat split. Qed.

(** C6, amended.  An update whose provided fields are [null], numbers or
    strings and whose [name] is not [null] succeeds.  In the table it
    leaves, the rows of another id are untouched and every row keeps its
    id and its creation time; in the rows of the id, a field that is
    absent keeps its value, a provided field of the column's type is
    there as given, and the empty string is there as the empty string.
    With no field at all the database, and so [listAll], is unchanged. *)
Theorem update_writes_exactly_the_provided_fields
  (id : Z) (body : Body.t) (db : Db.t) :
  plain_body body = true ->
  Body.name body <> JNull ->
  exists db',
    put_items id body db = (Json Success, db')
    /\ Forall2 (updated_row id body) (Db.items db) (Db.items db')
    /\ Db.sqlite_sequence db' = Db.sqlite_sequence db
    /\ (body = empty_body -> db' = db /\ listAll db' = listAll db).
Proof.
  intros Hplain Hname.
  assert (Hj : is_jnull (Body.name body) = false)
    by (destruct (Body.name body); auto; congruence).
  exists (if no_field body then db
          else Db.mk (map (patch_at id body) (Db.items db))
                     (Db.sqlite_sequence db)).
  rewrite put_items_eq, (plain_bindable _ Hplain), Hj. simpl.
  split; [now destruct (no_field body)|].
  split.
  { replace (Db.items (if no_field body then db
                       else Db.mk (map (patch_at id body) (Db.items db))
                                  (Db.sqlite_sequence db)))
      with (map (patch_at id body) (Db.items db)).
    - apply Forall2_mapped. intros r. apply patch_updates.
    - destruct (no_field body) eqn:E; auto.
      apply no_field_empty in E. subst body. apply map_patch_empty. }
  split; [now destruct (no_field body)|].
  intros ->. now rewrite (proj2 (no_field_empty empty_body) eq_refl).
Qed.

Lemma update_writes_exactly_the_provided_fields_witness :
  exists db',
    put_items 2 body_empty_url db_ABC = (Json Success, db')
    /\ Forall2 (updated_row 2 body_empty_url) (Db.items db_ABC) (Db.items db')
    /\ Db.sqlite_sequence db' = Db.sqlite_sequence db_ABC
    /\ (body_empty_url = empty_body ->
        db' = db_ABC /\ listAll db' = listAll db_ABC).
Proof.
  apply (update_writes_exactly_the_provided_fields 2 body_empty_url db_ABC).
  - reflexivity.
  - simpl. discriminate.
Defined.

(** The update of the fixture, on the table: B's url is emptied, nothing
    else moves. *)
Example update_empty_url :
  put_items 2 body_empty_url db_ABC
  = (Json Success,
     Db.mk [row_A;
            Row.mk 2 (SText "B") (SNum 20) (SText "") (SText "")
                   (SText "Toys") (SNum 1) 1001;
            row_C] 3).
Proof. reflexivity. Qed.

(** What the column affinity makes of values that are not of the
    column's type: a text that reads as a number is stored as that
    number in [price] and in [priority], a number is stored as its text
    in [name]. *)
Example update_converts_to_the_affinity :
  option_map Row.price
    (lookup 1 (snd (put_items 1
       (Body.mk JUndefined (JStr "12") JUndefined JUndefined JUndefined
                (JStr "0")) db_ABC)))
  = Some (SNum 12)
  /\ option_map Row.priority
       (lookup 1 (snd (put_items 1
          (Body.mk JUndefined (JStr "12") JUndefined JUndefined JUndefined
                   (JStr "0")) db_ABC)))
     = Some (SNum 0)
  /\ option_map Row.name
       (lookup 1 (snd (put_items 1 body_number_name db_ABC)))
     = Some (SText "123.0").
Proof. repeat split. Qed.

(** C7, as stated, fails: an update of the id 7, which no row has, whose
    body provides a price that is an object does raise an error.  The
    driver refuses the object before the statement runs, the exception
    leaves the handler and the answer is a 500. *)
Lemma update_of_missing_id_with_an_object_raises :
  lookup 7 db_ABC = None
  /\ put_items 7 body_object_price db_ABC = (Uncaught D1_TYPE_ERROR, db_ABC)
  /\ status (fst (put_items 7 body_object_price db_ABC)) = 500.
Proof. repeat split. Qed.

(** C7, amended.  An update whose id names no row leaves the database as
    it was, whatever its body: no row is created and none is changed.
    When the fields it provides are [null], numbers or strings it
    answers [{ success: true }] and no exception leaves the handler;
    when one of them is an object the driver refuses it and an exception
    leaves the handler. *)
Theorem update_of_missing_id_changes_nothing
  (id : Z) (body : Body.t) (db : Db.t) :
  lookup id db = None ->
  snd (put_items id body db) = db
  /\ (plain_body body = true -> put_items id body db = (Json Success, db))
  /\ (forall c, field body c = JObject ->
        put_items id body db = (Uncaught D1_TYPE_ERROR, db)).
Proof.
  intros H. pose proof (lookup_none _ _ H) as Habs.
  rewrite put_items_eq, (existsb_absent _ _ Habs), andb_false_r.
  rewrite (map_patch_absent _ _ _ Habs), db_eta.
  split; [|split].
  - now destruct (no_field body), (bindable body).
  - intros Hp. rewrite (plain_bindable _ Hp). now destruct (no_field body).
  - intros c Hc.
    now rewrite (object_is_a_field _ _ Hc), (object_not_bindable _ _ Hc).
Qed.

Lemma update_of_missing_id_changes_nothing_witness :
  snd (put_items 7 body_null_name db_ABC) = db_ABC
  /\ (plain_body body_null_name = true ->
      put_items 7 body_null_name db_ABC = (Json Success, db_ABC))
  /\ (forall c, field body_null_name c = JObject ->
        put_items 7 body_null_name db_ABC = (Uncaught D1_TYPE_ERROR, db_ABC)).
Proof.
  apply (update_of_missing_id_changes_nothing 7 body_null_name db_ABC).
  reflexivity.
Defined.

(** ** The insert *)

Section Insert.

Lemma max_id_bound (rows : list Row.t) (r : Row.t) :
  In r rows -> Row.id r <= max_id rows.
Proof.
  induction rows as [|h rows IH]; simpl; [tauto|].
  intros [-> | H]; [lia|]. specialize (IH H). lia.
Qed.

Lemma next_rowid_fresh (db : Db.t) (r : Row.t) :
  In r (Db.items db) -> Row.id r < next_rowid db.
Proof.
  intros H. apply max_id_bound in H. unfold next_rowid. lia.
Qed.

Lemma next_rowid_absent (db : Db.t) : lookup (next_rowid db) db = None.
Proof.
  unfold lookup.
  destruct (find _ _) as [r|] eqn:E; auto.
  apply find_some in E. destruct E as [Hin He].
  apply next_rowid_fresh in Hin. lia.
Qed.

Lemma bound_null (v : jsval) :
  can_bind v = true ->
  match bound v with PNull => true | _ => false end = is_jnull v.
Proof.
  unfold can_bind, bound.
  destruct v; simpl; try discriminate; auto.
  destruct (bytes_of elements); simpl; auto; discriminate.
Qed.

(** The handler has two outcomes: the row is appended under the next
    rowid, or an exception leaves it and the table is as before. *)
Lemma post_items_eq (now : Z) (body : Body.t)
  (db : Db.t) :
  (accepted body = true
   /\ post_items now body db
      = (Json (SuccessId (next_rowid db)),
         Db.mk (Db.items db ++ [inserted_row (next_rowid db) now body])
               (next_rowid db)))
  \/ (accepted body = false
      /\ exists e, post_items now body db = (Uncaught e, db)).
Proof.
  destruct body as [n p u k g o]. unfold post_items, accepted.
  rewrite bind_all. unfold insert_values. cbn [Body.name Body.price Body.url
    Body.image_key Body.category Body.priority].
  destruct (forallb can_bind _) eqn:Hb; [|right; eauto].
  cbn [map]. unfold insert_items. cbv zeta. cbn [Row.name].
  rewrite store_null.
  assert (Hn : can_bind n = true)
    by (simpl in Hb; now apply andb_true_iff in Hb).
  rewrite (bound_null _ Hn).
  destruct (is_jnull n); simpl; [right; eauto|].
  left. auto.
Qed.

Lemma post_items_type_error (now : Z) (body : Body.t) (db : Db.t) :
  forallb can_bind (insert_values body) = false ->
  post_items now body db = (Uncaught D1_TYPE_ERROR, db).
Proof.
  destruct body as [n p u k g o]. unfold post_items, insert_values.
  cbn [Body.name Body.price Body.url Body.image_key Body.category
       Body.priority].
  rewrite bind_all. now intros ->.
Qed.

Lemma accepted_name (body : Body.t) :
  accepted body = true ->
  Body.name body <> JUndefined /\ Body.name body <> JNull.
Proof.
  destruct body as [n p u k g o]. unfold accepted, insert_values.
  cbn [Body.name forallb].
  rewrite !andb_true_iff. intros [[Hn _] Hj].
  split; intros ->; discriminate.
Qed.

Lemma can_bind_js_or (v d : jsval) :
  negb (defined v) || plain v = true -> can_bind d = true ->
  can_bind (js_or v d) = true.
Proof.
  unfold js_or. intros Hv Hd.
  destruct (truthy v) eqn:T; auto.
  destruct v; simpl in *; try discriminate; auto.
Qed.

Lemma complete_accepted (body : Body.t) :
  complete body = true -> accepted body = true.
Proof.
  destruct body as [n p u k g o]. unfold complete, accepted, insert_values.
  cbn [Body.name Body.price Body.url Body.image_key Body.category
       Body.priority forallb].
  rewrite !andb_true_iff.
  intros ((((((Hn & Hj) & Hp) & Hu) & Hk) & Hg) & Ho).
  rewrite (plain_can_bind _ Hn), (plain_can_bind _ Hp),
    (plain_can_bind _ Hu), (plain_can_bind _ Hk),
    (can_bind_js_or g (JStr "uncategorized") Hg eq_refl),
    (can_bind_js_or o (JNum 0) Ho eq_refl).
  repeat split; auto.
Qed.



End Insert.

Section InsertValues.

Lemma undefined_not_accepted (body : Body.t) :
  Body.name body = JUndefined \/ Body.price body = JUndefined
  \/ Body.url body = JUndefined \/ Body.image_key body = JUndefined ->
  forallb can_bind (insert_values body) = false.
Proof.
  destruct body as [n p u k g o]. unfold insert_values.
  cbn [Body.name Body.price Body.url Body.image_key forallb].
  intros [-> | [-> | [-> | ->]]]; simpl; rewrite ?andb_false_r; reflexivity.
Qed.



End InsertValues.

(** C2, as stated, fails twice.  An insert that omits [name] fails and
    creates no row, but it is not answered with a client error: the
    driver refuses [undefined], the exception leaves the handler and the
    answer is a 500.  And an insert with [name] and [price] present does
    not succeed when it omits [url]. *)
Lemma insert_without_name_is_a_server_error :
  post_items 2000 body_without_name db_ABC = (Uncaught D1_TYPE_ERROR, db_ABC)
  /\ status (Uncaught D1_TYPE_ERROR) = 500
  /\ is_client_error (Uncaught D1_TYPE_ERROR) = false
  /\ post_items 2000 body_without_url db_ABC
     = (Uncaught D1_TYPE_ERROR, db_ABC).
Proof. repeat split. Qed.

(** An insert that omits [price] fails in the same way, and so does one
    that omits the image key. *)
Example insert_without_price :
  post_items 2000 body_without_price db_ABC = (Uncaught D1_TYPE_ERROR, db_ABC)
  /\ post_items 2000 body_without_image_key db_ABC
     = (Uncaught D1_TYPE_ERROR, db_ABC).
Proof. split; reflexivity. Qed.

(** C2, amended.  An insert that omits [name], [price], [url] or the
    image key fails and creates no row: the driver refuses [undefined],
    the exception leaves the handler and the answer is a 500, not a
    client error.  An insert whose [name] is [null] fails too and
    creates no row.  An insert that leaves none of the four out, each a
    number or a string (or [null], but for the name), succeeds: it
    answers with the next rowid, which no row had, and appends exactly
    one row, of that id. *)
Theorem insert_has_no_validation_error
  (now : Z) (body : Body.t) (db : Db.t) :
  (Body.name body = JUndefined \/ Body.price body = JUndefined
   \/ Body.url body = JUndefined \/ Body.image_key body = JUndefined ->
   post_items now body db = (Uncaught D1_TYPE_ERROR, db)
   /\ status (fst (post_items now body db)) = 500)
  /\ (Body.name body = JNull ->
      exists e, post_items now body db = (Uncaught e, db))
  /\ (complete body = true ->
      exists row,
        post_items now body db
        = (Json (SuccessId (next_rowid db)),
           Db.mk (Db.items db ++ [row]) (next_rowid db))
        /\ Row.id row = next_rowid db
        /\ Row.created_at row = now
        /\ lookup (next_rowid db) db = None).
Proof.
  split; [|split].
  - intros H. apply undefined_not_accepted in H.
    rewrite (post_items_type_error now body db H). auto.
  - intros Hn.
    destruct (post_items_eq now body db) as [[Ha _]|[_ He]]; auto.
    apply accepted_name in Ha. tauto.
  - intros Hp. apply complete_accepted in Hp.
    destruct (post_items_eq now body db) as [[_ He]|[Ha _]]; [|congruence].
    exists (inserted_row (next_rowid db) now body).
    split; [exact He|]. split; [reflexivity|]. split; [reflexivity|].
    apply next_rowid_absent.
Qed.

Lemma insert_has_no_validation_error_witness :
  (post_items 2000 body_without_name db_ABC = (Uncaught D1_TYPE_ERROR, db_ABC)
   /\ status (fst (post_items 2000 body_without_name db_ABC)) = 500)
  /\ (exists e, post_items 2000
                  (Body.mk JNull (JNum 5) (JStr "") (JStr "") JUndefined
                           JUndefined) db_ABC
                = (Uncaught e, db_ABC))
  /\ exists row,
       post_items 2000 body_defaults db_ABC
       = (Json (SuccessId (next_rowid db_ABC)),
          Db.mk (Db.items db_ABC ++ [row]) (next_rowid db_ABC))
       /\ Row.id row = next_rowid db_ABC
       /\ Row.created_at row = 2000
       /\ lookup (next_rowid db_ABC) db_ABC = None.
Proof.
  split; [|split].
  - apply (proj1 (insert_has_no_validation_error
                    2000 body_without_name db_ABC)).
    left. reflexivity.
  - apply (proj1 (proj2 (insert_has_no_validation_error 2000
                    (Body.mk JNull (JNum 5) (JStr "") (JStr "") JUndefined
                             JUndefined) db_ABC))).
    reflexivity.
  - apply (proj2 (proj2 (insert_has_no_validation_error
                           2000 body_defaults db_ABC))).
    reflexivity.
Defined.




(** The round trip of the fixture, on the table: D is listed last, with
    the default category and the default priority. *)
Example insert_defaults_listed :
  listAll (snd (post_items 2000 body_defaults db_ABC))
  = [Row.mk 4 (SText "D") (SNum 5) (SText "https://d.example") (SText "")
            (SText "uncategorized") (SNum 0) 2000;
     row_A; row_B; row_C].
Proof. reflexivity. Qed.

(** ** Arrays *)

Section Arrays.

Context {A : Type}.

Lemma findIndex_range (test : A -> bool) (l : list A) :
  -1 <= findIndex test l < Z.of_nat (List.length l).
Proof.
  induction l as [|x l IH]; simpl List.length; simpl findIndex; [lia|].
  destruct (test x); [lia|].
  destruct (Z.ltb_spec (findIndex test l) 0); lia.
Qed.

Lemma findIndex_found (test : A -> bool) (l : list A) :
  (exists x, In x l /\ test x = true) -> 0 <= findIndex test l.
Proof.
  induction l as [|x l IH]; simpl; intros (y & Hy & Ht); [tauto|].
  destruct (test x) eqn:E; [lia|].
  destruct Hy as [-> | Hy]; [congruence|].
  assert (0 <= findIndex test l) by eauto.
  destruct (Z.ltb_spec (findIndex test l) 0); lia.
Qed.

Lemma take_out (l : list A) (s : nat) (x : A) :
  nth_error l s = Some x ->
  Permutation l (x :: firstn s l ++ skipn (S s) l).
Proof.
  intros H. apply nth_error_split in H.
  destruct H as (l1 & l2 & -> & <-).
  rewrite firstn_app, Nat.sub_diag, firstn_all. simpl firstn.
  rewrite app_nil_r.
  replace (skipn (S (List.length l1)) (l1 ++ x :: l2)) with l2.
  - apply Permutation_sym, Permutation_middle.
  - change (x :: l2) with ([x] ++ l2). rewrite app_assoc.
    rewrite skipn_app.
    replace (S (List.length l1)) with (List.length (l1 ++ [x]))
      by (rewrite length_app; simpl; lia).
    now rewrite skipn_all, Nat.sub_diag.
Qed.

Lemma splice_in_perm (l : list A) (start : Z) (x : A) :
  Permutation (x :: l) (splice_in l start x).
Proof.
  unfold splice_in.
  rewrite <- (firstn_skipn
                (splice_start (Z.of_nat (List.length l)) start) l) at 1.
  apply Permutation_middle.
Qed.

Lemma arrayMove_perm (l l' : list A) (from to : Z) :
  arrayMove l from to = Some l' -> Permutation l l'.
Proof.
  unfold arrayMove, splice_one.
  destruct (nth_error l _) as [x|] eqn:E; [|discriminate].
  intros [= <-].
  eapply perm_trans; [apply (take_out _ _ _ E)|].
  apply splice_in_perm.
Qed.

Lemma arrayMove_some (l : list A) (from to : Z) :
  l <> [] -> from < Z.of_nat (List.length l) ->
  exists l', arrayMove l from to = Some l'.
Proof.
  intros Hne Hlt. unfold arrayMove, splice_one.
  assert (Hlen : (0 < List.length l)%nat)
    by (destruct l; simpl; [congruence | lia]).
  destruct (nth_error l _) as [x|] eqn:E; [eauto|].
  apply nth_error_None in E. unfold splice_start in E.
  destruct (Z.ltb_spec from 0); lia.
Qed.

Context {B : Type}.

Lemma forEach_from_length (f : A -> Z -> B) (l : list A) (k : Z) :
  List.length (forEach_from f l k) = List.length l.
Proof.
  revert k. induction l as [|x l IH]; simpl; intros k; auto.
Qed.

Lemma forEach_from_nth (f : A -> Z -> B) (l : list A) (k : Z) (n : nat) :
  nth_error (forEach_from f l k) n
  = option_map (fun x => f x (k + Z.of_nat n)) (nth_error l n).
Proof.
  revert k n. induction l as [|x l IH]; intros k [|n]; simpl; auto.
  - now rewrite Z.add_0_r.
  - rewrite IH. destruct (nth_error l n); simpl; auto.
    do 2 f_equal. lia.
Qed.

End Arrays.

Lemma forEach_from_map {A B C : Type} (g : B -> C) (f : A -> Z -> B)
  (l : list A) (k : Z) :
  forEach_from (fun x i => g (f x i)) l k = map g (forEach_from f l k).
Proof.
  revert k. induction l as [|x l IH]; simpl; intros k; auto.
  now rewrite IH.
Qed.

Lemma forEach_from_keys {A : Type} (h : A -> Z) (l : list A) (k : Z) :
  map fst (forEach_from (fun x i => (h x, i)) l k) = map h l.
Proof.
  revert k. induction l as [|x l IH]; simpl; intros k; auto.
  now rewrite IH.
Qed.

(** ** Priority updates *)

Section PriorityUpdates.

Variable now : Z.

Lemma lookup_id (j : Z) (db : Db.t) (r : Row.t) :
  lookup j db = Some r -> Row.id r = j.
Proof.
  unfold lookup. intros H. apply find_some in H. lia.
Qed.

Lemma put_priority (i k : Z) (db : Db.t) :
  put_items i (priority_body k) db
  = (Json Success,
     Db.mk (map (patch_at i (priority_body k)) (Db.items db))
           (Db.sqlite_sequence db)).
Proof. now rewrite put_items_eq. Qed.

Lemma lookup_put_priority (i k j : Z) (db : Db.t) :
  lookup j (snd (put_items i (priority_body k) db))
  = option_map (patch_at i (priority_body k)) (lookup j db).
Proof.
  rewrite put_priority. simpl snd.
  rewrite lookup_map by (intros; apply patch_at_id).
  now rewrite db_eta.
Qed.

Lemma priority_put_same (i k : Z) (db : Db.t) :
  priority_of i (snd (put_items i (priority_body k) db))
  = option_map (fun _ => SNum k) (lookup i db).
Proof.
  unfold priority_of. rewrite lookup_put_priority.
  destruct (lookup i db) as [r|] eqn:E; simpl; auto.
  apply lookup_id in E. unfold patch_at. rewrite E, Z.eqb_refl.
  reflexivity.
Qed.

Lemma priority_put_other (i k j : Z) (db : Db.t) :
  j <> i ->
  priority_of j (snd (put_items i (priority_body k) db))
  = priority_of j db.
Proof.
  intros Hne. unfold priority_of. rewrite lookup_put_priority.
  destruct (lookup j db) as [r|] eqn:E; simpl; auto.
  apply lookup_id in E. rewrite patch_at_other; auto. congruence.
Qed.

Lemma present_put_priority (i k j : Z) (db : Db.t) (v : sqlval) :
  option_map (fun _ => v)
    (lookup j (snd (put_items i (priority_body k) db)))
  = option_map (fun _ => v) (lookup j db).
Proof.
  rewrite lookup_put_priority. now destruct (lookup j db).
Qed.

(** Requests that write the priorities of other rows leave a row's
    priority alone. *)
Lemma serve_priorities_other (L : list (Z * Z)) (j : Z) (db : Db.t) :
  ~ In j (map fst L) ->
  priority_of j (serve_all now (map priority_request L) db)
  = priority_of j db.
Proof.
  revert db. induction L as [|[i k] L IH]; intros db Hj; simpl; auto.
  simpl in Hj. rewrite IH by tauto.
  apply priority_put_other. intros ->. tauto.
Qed.

Lemma serve_priorities_present (L : list (Z * Z)) (j : Z) (db : Db.t)
  (v : sqlval) :
  option_map (fun _ => v)
    (lookup j (serve_all now (map priority_request L) db))
  = option_map (fun _ => v) (lookup j db).
Proof.
  revert db. induction L as [|[i k] L IH]; intros db; simpl; auto.
  rewrite IH. apply present_put_priority.
Qed.

(** With one request per row, a row ends with the priority of its
    request, wherever that request stands in the order of arrival. *)
Lemma serve_priorities_written (L : list (Z * Z)) (j k : Z) (db : Db.t) :
  NoDup (map fst L) -> In (j, k) L ->
  priority_of j (serve_all now (map priority_request L) db)
  = option_map (fun _ => SNum k) (lookup j db).
Proof.
  revert db. induction L as [|[i k'] L IH]; intros db Hnd Hin; simpl.
  - destruct Hin.
  - simpl in Hnd. inversion Hnd as [|? ? Hni Hnd']; subst.
    destruct Hin as [[= -> ->] | Hin].
    + rewrite serve_priorities_other by assumption.
      apply priority_put_same.
    + rewrite IH by assumption. apply present_put_priority.
Qed.

Lemma arrived_requests (L : list (Z * Z)) (arrived : list request) :
  Permutation (map priority_request L) arrived ->
  exists L', arrived = map priority_request L' /\ Permutation L L'.
Proof.
  intros H. apply Permutation_sym, Permutation_map_inv in H.
  destruct H as (L' & -> & H). exists L'. split; [reflexivity | exact H].
Qed.

End PriorityUpdates.

(** ** The drag *)

Section Drag.

Lemma drag_requests (l : list Item.t) :
  forEach (fun item index => PUT_items (Item.id item) (priority_body index)) l
  = map priority_request (forEach (fun item index => (Item.id item, index)) l).
Proof.
  unfold forEach.
  now rewrite <- (forEach_from_map priority_request
                    (fun item index => (Item.id item, index))).
Qed.

Lemma indexed_in (l : list Item.t) (k : nat) (item : Item.t) :
  nth_error l k = Some item ->
  In (Item.id item, Z.of_nat k)
     (forEach (fun item index => (Item.id item, index)) l).
Proof.
  intros H. apply (nth_error_In _ k). unfold forEach.
  now rewrite forEach_from_nth, H.
Qed.

Lemma handleDragEnd_eq (event : DragEndEvent.t) (st : App.t) :
  DragEndEvent.over event <> Some (DragEndEvent.active event) ->
  handleDragEnd event st
  = match arrayMove (App.items st)
            (findIndex (is_active event) (App.items st))
            (findIndex (is_over event) (App.items st)) with
    | Some newItems =>
        Some (with_items newItems st,
              map priority_request
                (forEach (fun item index => (Item.id item, index)) newItems))
    | None => None
    end.
Proof.
  intros Hne. unfold handleDragEnd.
  replace (match DragEndEvent.over event with
           | Some o => negb (DragEndEvent.active event =? o)
           | None => true
           end) with true.
  - fold (is_active event). fold (is_over event).
    destruct (arrayMove _ _ _); auto.
    now rewrite drag_requests.
  - destruct (DragEndEvent.over event) as [o|]; auto.
    destruct (Z.eqb_spec (DragEndEvent.active event) o); auto.
    congruence.
Qed.

Lemma handleDragEnd_returns (event : DragEndEvent.t) (st : App.t) :
  In (DragEndEvent.active event) (map Item.id (App.items st)) ->
  exists newItems,
    arrayMove (App.items st)
      (findIndex (is_active event) (App.items st))
      (findIndex (is_over event) (App.items st)) = Some newItems.
Proof.
  intros Hin. apply arrayMove_some.
  - intros E. rewrite E in Hin. destruct Hin.
  - apply findIndex_range.
Qed.

End Drag.

(** C1, as stated, fails.  With the Toys filter active the grid renders
    T1, T2; dragging T1 onto T2 takes both positions in the full list
    (0 and 2, not 0 and 1), sends four updates, one per item of the full
    list, and writes the priorities of K1 and K2, which are not in the
    active category; updates for the rendered items alone would be two,
    with priorities 0 and 1. *)
Lemma filtered_reorder_writes_outside_the_view :
  map Item.id (filteredItems app_toys) = [1; 3]
  /\ findIndex (is_active (DragEndEvent.mk 1 (Some 3))) (App.items app_toys) = 0
  /\ findIndex (is_over (DragEndEvent.mk 1 (Some 3))) (App.items app_toys) = 2
  /\ findIndex (is_over (DragEndEvent.mk 1 (Some 3))) (filteredItems app_toys)
     = 1
  /\ option_map snd (handleDragEnd (DragEndEvent.mk 1 (Some 3)) app_toys)
     = Some [PUT_items 2 (priority_body 0); PUT_items 3 (priority_body 1);
             PUT_items 1 (priority_body 2); PUT_items 4 (priority_body 3)]
  /\ reorder_rendered_only (DragEndEvent.mk 1 (Some 3)) app_toys
     = Some [PUT_items 3 (priority_body 0); PUT_items 1 (priority_body 1)]
  /\ option_map snd (handleDragEnd (DragEndEvent.mk 1 (Some 3)) app_toys)
     <> reorder_rendered_only (DragEndEvent.mk 1 (Some 3)) app_toys
  /\ Item.category item_K1 <> App.activeCategory app_toys
  /\ priority_of (Item.id item_K1) db_toys = Some (SNum 1)
  /\ priority_of (Item.id item_K1)
       (serve_all 2000
          [PUT_items 2 (priority_body 0); PUT_items 3 (priority_body 1);
           PUT_items 1 (priority_body 2); PUT_items 4 (priority_body 3)]
          db_toys)
     = Some (SNum 0).
Proof.
  repeat split; try reflexivity; try discriminate.
Qed.

(** C1, amended.  Whatever category filter is active, a drag of an item
    of the list onto anything but itself takes the dragged item's old and
    new positions in the full list of items, moves it there, and sends one
    update per item of the full list, in the order of the new list, each
    writing the item's index in the new full list as its priority: every
    item of the list is written, those outside the active category
    too. *)
Theorem reorder_writes_every_item_of_the_full_list
  (event : DragEndEvent.t) (st : App.t) :
  In (DragEndEvent.active event) (map Item.id (App.items st)) ->
  DragEndEvent.over event <> Some (DragEndEvent.active event) ->
  exists newItems requests,
    handleDragEnd event st = Some (with_items newItems st, requests)
    /\ arrayMove (App.items st)
         (findIndex (is_active event) (App.items st))
         (findIndex (is_over event) (App.items st)) = Some newItems
    /\ Permutation (App.items st) newItems
    /\ List.length requests = List.length (App.items st)
    /\ (forall k item, nth_error newItems k = Some item ->
          nth_error requests k
          = Some (PUT_items (Item.id item) (priority_body (Z.of_nat k))))
    /\ (forall item, In item (App.items st) ->
          exists k, In (PUT_items (Item.id item) (priority_body k)) requests).
Proof.
  intros Hin Hne.
  destruct (handleDragEnd_returns event st Hin) as (newItems & Hmove).
  pose proof (arrayMove_perm _ _ _ _ Hmove) as Hperm.
  exists newItems,
    (map priority_request
       (forEach (fun item index => (Item.id item, index)) newItems)).
  assert (Hnth : forall k item, nth_error newItems k = Some item ->
            nth_error
              (map priority_request
                 (forEach (fun item index => (Item.id item, index)) newItems)) k
            = Some (PUT_items (Item.id item) (priority_body (Z.of_nat k)))).
  { intros k item Hk.
    apply (map_nth_error priority_request k _ (d := (Item.id item, Z.of_nat k))).
    unfold forEach. now rewrite forEach_from_nth, Hk. }
  split; [now rewrite handleDragEnd_eq, Hmove|].
  split; [exact Hmove|]. split; [exact Hperm|].
  split.
  { unfold forEach. rewrite length_map, forEach_from_length.
    symmetry. now apply Permutation_length. }
  split; [exact Hnth|].
  intros item Hitem.
  apply (Permutation_in _ Hperm) in Hitem.
  apply In_nth_error in Hitem. destruct Hitem as (k & Hk).
  exists (Z.of_nat k). eapply nth_error_In. apply Hnth, Hk.
Qed.

Lemma reorder_writes_every_item_of_the_full_list_witness :
  exists newItems requests,
    handleDragEnd (DragEndEvent.mk 1 (Some 3)) app_toys
    = Some (with_items newItems app_toys, requests)
    /\ arrayMove (App.items app_toys)
         (findIndex (is_active (DragEndEvent.mk 1 (Some 3)))
                    (App.items app_toys))
         (findIndex (is_over (DragEndEvent.mk 1 (Some 3)))
                    (App.items app_toys)) = Some newItems
    /\ Permutation (App.items app_toys) newItems
    /\ List.length requests = List.length (App.items app_toys)
    /\ (forall k item, nth_error newItems k = Some item ->
          nth_error requests k
          = Some (PUT_items (Item.id item) (priority_body (Z.of_nat k))))
    /\ (forall item, In item (App.items app_toys) ->
          exists k, In (PUT_items (Item.id item) (priority_body k)) requests).
Proof.
  apply (reorder_writes_every_item_of_the_full_list
           (DragEndEvent.mk 1 (Some 3)) app_toys).
  - simpl. left. reflexivity.
  - simpl. discriminate.
Defined.

(** C3, as stated, fails.  A, B, C hold priorities 0, 1, 2 and A is
    dragged onto C: the new sequence is B, C, A and three requests are
    sent.  When the second one (C) fails, the first and the third still
    arrive: the third item, A, ends with priority 2, not with the 0 it had
    before the reorder. *)
Lemma third_item_is_written_when_the_second_request_fails :
  handleDragEnd (DragEndEvent.mk 1 (Some 3)) app_ABC
  = Some (with_items [item_B; item_C; item_A] app_ABC,
          [PUT_items 2 (priority_body 0); PUT_items 3 (priority_body 1);
           PUT_items 1 (priority_body 2)])
  /\ all_but 1 [PUT_items 2 (priority_body 0); PUT_items 3 (priority_body 1);
               PUT_items 1 (priority_body 2)]
     = [PUT_items 2 (priority_body 0); PUT_items 1 (priority_body 2)]
  /\ priority_of (Item.id item_A) db_ABC = Some (SNum 0)
  /\ priority_of (Item.id item_A)
       (serve_all 2000
          [PUT_items 2 (priority_body 0); PUT_items 1 (priority_body 2)]
          db_ABC)
     = Some (SNum 2)
  /\ priority_of (Item.id item_A)
       (serve_all 2000
          [PUT_items 2 (priority_body 0); PUT_items 1 (priority_body 2)]
          db_ABC)
     <> priority_of (Item.id item_A) db_ABC.
Proof.
  repeat split; try reflexivity; discriminate.
Qed.

(** C3, amended.  A reorder over three items with distinct ids sends three
    requests, one per item of the new sequence and none twice.  When the
    second one fails and the two others arrive, in either order, the rows
    of the first and of the third item end with their new indices 0 and 2
    as priority and the row of the second item keeps the priority it had:
    nothing is sent again and the first update is not undone. *)
Theorem reorder_with_second_request_lost
  (now : Z) (event : DragEndEvent.t) (st : App.t)
  (db : Db.t) :
  List.length (App.items st) = 3%nat ->
  NoDup (map Item.id (App.items st)) ->
  In (DragEndEvent.active event) (map Item.id (App.items st)) ->
  DragEndEvent.over event <> Some (DragEndEvent.active event) ->
  exists a b c requests,
    handleDragEnd event st = Some (with_items [a; b; c] st, requests)
    /\ requests = [PUT_items (Item.id a) (priority_body 0);
                   PUT_items (Item.id b) (priority_body 1);
                   PUT_items (Item.id c) (priority_body 2)]
    /\ forall arrived, Permutation (all_but 1 requests) arrived ->
         priority_of (Item.id a) (serve_all now arrived db)
         = option_map (fun _ => SNum 0) (lookup (Item.id a) db)
         /\ priority_of (Item.id b) (serve_all now arrived db)
            = priority_of (Item.id b) db
         /\ priority_of (Item.id c) (serve_all now arrived db)
            = option_map (fun _ => SNum 2) (lookup (Item.id c) db).
Proof.
  intros Hlen Hnd Hin Hne.
  destruct (handleDragEnd_returns event st Hin) as (newItems & Hmove).
  pose proof (arrayMove_perm _ _ _ _ Hmove) as Hperm.
  pose proof (Permutation_length Hperm) as Hlen'. rewrite Hlen in Hlen'.
  destruct newItems as [|a [|b [|c [|d newItems]]]]; try discriminate.
  exists a, b, c, (map priority_request
                     [(Item.id a, 0); (Item.id b, 1); (Item.id c, 2)]).
  split; [now rewrite handleDragEnd_eq, Hmove|].
  split; [reflexivity|].
  assert (Hids : NoDup [Item.id a; Item.id b; Item.id c]).
  { apply (Permutation_NoDup (Permutation_map Item.id Hperm) Hnd). }
  inversion Hids as [|? ? Hab Hbc]; subst.
  inversion Hbc as [|? ? Hb Hc]; subst. simpl in Hab, Hb.
  intros arrived Harr.
  change (all_but 1 (map priority_request
                       [(Item.id a, 0); (Item.id b, 1); (Item.id c, 2)]))
    with (map priority_request [(Item.id a, 0); (Item.id c, 2)]) in Harr.
  apply arrived_requests in Harr. destruct Harr as (L' & -> & HL).
  assert (HndL : NoDup (map fst L')).
  { apply (Permutation_NoDup (Permutation_map fst HL)). simpl.
    constructor; [simpl; tauto|]. constructor; [simpl; tauto|constructor]. }
  split; [|split].
  - apply serve_priorities_written; auto.
    apply (Permutation_in _ HL). simpl. auto.
  - apply serve_priorities_other.
    intros Hb'. apply (Permutation_in _ (Permutation_sym
                                           (Permutation_map fst HL))) in Hb'.
    simpl in Hb'. intuition congruence.
  - apply serve_priorities_written; auto.
    apply (Permutation_in _ HL). simpl. auto.
Qed.

Lemma reorder_with_second_request_lost_witness :
  exists a b c requests,
    handleDragEnd (DragEndEvent.mk 1 (Some 3)) app_ABC
    = Some (with_items [a; b; c] app_ABC, requests)
    /\ requests = [PUT_items (Item.id a) (priority_body 0);
                   PUT_items (Item.id b) (priority_body 1);
                   PUT_items (Item.id c) (priority_body 2)]
    /\ forall arrived, Permutation (all_but 1 requests) arrived ->
         priority_of (Item.id a) (serve_all 2000 arrived db_ABC)
         = option_map (fun _ => SNum 0) (lookup (Item.id a) db_ABC)
         /\ priority_of (Item.id b)
              (serve_all 2000 arrived db_ABC)
            = priority_of (Item.id b) db_ABC
         /\ priority_of (Item.id c)
              (serve_all 2000 arrived db_ABC)
            = option_map (fun _ => SNum 2) (lookup (Item.id c) db_ABC).
Proof.
  apply (reorder_with_second_request_lost 2000
           (DragEndEvent.mk 1 (Some 3)) app_ABC db_ABC).
  - reflexivity.
  - simpl. repeat constructor; simpl; intuition discriminate.
  - simpl. left. reflexivity.
  - simpl. discriminate.
Defined.

(** C4, as stated, fails in its general part.  With the Toys filter
    active, dragging T1 onto T2 leaves the grid rendering T2, T1; T2 is
    first in that sequence (index 0) and the priority persisted for it
    is 1, its index in the full list. *)
Lemma rendered_index_differs_from_priority_under_a_filter :
  handleDragEnd (DragEndEvent.mk 1 (Some 3)) app_toys
  = Some (with_items [item_K1; item_T2; item_T1; item_K2] app_toys,
          [PUT_items 2 (priority_body 0); PUT_items 3 (priority_body 1);
           PUT_items 1 (priority_body 2); PUT_items 4 (priority_body 3)])
  /\ filteredItems (with_items [item_K1; item_T2; item_T1; item_K2] app_toys)
     = [item_T2; item_T1]
  /\ priority_of (Item.id item_T2)
       (serve_all 2000
          [PUT_items 2 (priority_body 0); PUT_items 3 (priority_body 1);
           PUT_items 1 (priority_body 2); PUT_items 4 (priority_body 3)]
          db_toys)
     = Some (SNum 1).
Proof.
  repeat split.
Qed.

(** C4, amended.  For the sequence A, B, C with priorities 0, 1, 2 and no
    filter, dragging A onto C gives B, C, A and persists B:0, C:1, A:2.
    In general, after a drag of an item of the list (ids distinct) onto
    anything but itself, once the requests sent have arrived, in any
    order, every item of the new full list of items, moved or not, has as
    its stored priority its zero-based index in that list; the full list
    is the rendered sequence when no category filter is active. *)
Theorem reorder_flattens_the_full_order_into_priority :
  (handleDragEnd (DragEndEvent.mk 1 (Some 3)) app_ABC
   = Some (with_items [item_B; item_C; item_A] app_ABC,
           [PUT_items 2 (priority_body 0); PUT_items 3 (priority_body 1);
            PUT_items 1 (priority_body 2)])
   /\ map (fun r => (Row.name r, Row.priority r))
        (Db.items
           (serve_all 2000
              [PUT_items 2 (priority_body 0); PUT_items 3 (priority_body 1);
               PUT_items 1 (priority_body 2)] db_ABC))
      = [(SText "A", SNum 2); (SText "B", SNum 0); (SText "C", SNum 1)])
  /\ forall (now : Z) (event : DragEndEvent.t)
       (st : App.t) (db : Db.t),
       NoDup (map Item.id (App.items st)) ->
       In (DragEndEvent.active event) (map Item.id (App.items st)) ->
       DragEndEvent.over event <> Some (DragEndEvent.active event) ->
       exists newItems requests,
         handleDragEnd event st = Some (with_items newItems st, requests)
         /\ (App.activeCategory st = "All" ->
             filteredItems (with_items newItems st) = newItems)
         /\ forall arrived, Permutation requests arrived ->
            forall k item, nth_error newItems k = Some item ->
              priority_of (Item.id item) (serve_all now arrived db)
              = option_map (fun _ => SNum (Z.of_nat k))
                  (lookup (Item.id item) db).
Proof.
  split; [split; reflexivity|].
  intros now event st db Hnd Hin Hne.
  destruct (handleDragEnd_returns event st Hin) as (newItems & Hmove).
  pose proof (arrayMove_perm _ _ _ _ Hmove) as Hperm.
  exists newItems,
    (map priority_request
       (forEach (fun item index => (Item.id item, index)) newItems)).
  split; [now rewrite handleDragEnd_eq, Hmove|].
  split.
  { intros Hall. unfold filteredItems, with_items. simpl.
    now rewrite Hall. }
  intros arrived Harr k item Hk.
  apply arrived_requests in Harr. destruct Harr as (L' & -> & HL).
  apply serve_priorities_written.
  - apply (Permutation_NoDup (Permutation_map fst HL)).
    unfold forEach. rewrite forEach_from_keys.
    apply (Permutation_NoDup (Permutation_map Item.id Hperm) Hnd).
  - apply (Permutation_in _ HL). now apply indexed_in.
Qed.

Lemma reorder_flattens_the_full_order_into_priority_witness :
  exists newItems requests,
    handleDragEnd (DragEndEvent.mk 3 (Some 1)) app_ABC
    = Some (with_items newItems app_ABC, requests)
    /\ (App.activeCategory app_ABC = "All" ->
        filteredItems (with_items newItems app_ABC) = newItems)
    /\ forall arrived, Permutation requests arrived ->
       forall k item, nth_error newItems k = Some item ->
         priority_of (Item.id item)
           (serve_all 2000 arrived db_ABC)
         = option_map (fun _ => SNum (Z.of_nat k))
             (lookup (Item.id item) db_ABC).
Proof.
  apply (proj2 reorder_flattens_the_full_order_into_priority
           2000 (DragEndEvent.mk 3 (Some 1)) app_ABC db_ABC).
  - simpl. repeat constructor; simpl; intuition discriminate.
  - simpl. right. right. left. reflexivity.
  - simpl. discriminate.
Defined.

(** ** The form *)

Section Form.

Variable parseFloat : string -> option Z.

Lemma serve_all_app (now : Z)
  (rqs rqs' : list request) (db : Db.t) :
  serve_all now (rqs ++ rqs') db
  = serve_all now rqs' (serve_all now rqs db).
Proof.
  revert db. induction rqs as [|rq rqs IH]; simpl; auto.
Qed.

(** What [handleSubmit] sends: the upload, if a file was chosen, then
    the save, then the refetch. *)
Lemma handleSubmit_requests (date_now : Z) (st : App.t) :
  App.isSubmitting st = false ->
  exists upload imageKey,
    (upload = [] \/ exists key, upload = [PUT_upload key])
    /\ snd (handleSubmit parseFloat date_now st)
       = upload
         ++ [match App.editingItem st with
             | Some item =>
                 PUT_items (Item.id item) (payload parseFloat imageKey st)
             | None => POST_items (payload parseFloat imageKey st)
             end; GET_items].
Proof.
  intros Hs. unfold handleSubmit. rewrite Hs.
  destruct (FormData.imageFile (App.formData st)) as [file|].
  - exists [PUT_upload (upload_key date_now file)],
           (upload_key date_now file).
    split; eauto.
  - exists [], (FormData.currentImageKey (App.formData st)).
    split; auto.
Qed.

Lemma serve_submit (now : Z)
  (upload : list request) (save : request) (db : Db.t) :
  (upload = [] \/ exists key, upload = [PUT_upload key]) ->
  serve_all now (upload ++ [save; GET_items]) db
  = snd (serve now save db).
Proof.
  intros [-> | (key & ->)]; reflexivity.
Qed.

Lemma payload_accepted (imageKey : string)
  (st : App.t) :
  accepted (payload parseFloat imageKey st) = true.
Proof.
  apply complete_accepted. unfold complete, payload. simpl.
  now destruct (parseFloat _), (App.editingItem st).
Qed.

Lemma payload_plain (imageKey : string) (st : App.t) :
  plain_body (payload parseFloat imageKey st) = true.
Proof.
  unfold plain_body, payload. simpl.
  now destruct (parseFloat _), (App.editingItem st).
Qed.

Lemma payload_put (id : Z) (imageKey : string)
  (st : App.t) (db : Db.t) :
  put_items id (payload parseFloat imageKey st) db
  = (Json Success,
     Db.mk (map (patch_at id (payload parseFloat imageKey st)) (Db.items db))
           (Db.sqlite_sequence db)).
Proof.
  now rewrite put_items_eq, (plain_bindable _ (payload_plain imageKey st)).
Qed.

Lemma has_scheme_https (s : string) :
  has_scheme (String.append "https://" s) = true.
Proof. reflexivity. Qed.

Lemma submitUrl_cases (url : string) :
  trim url <> "" ->
  has_scheme (submitUrl url) = true
  /\ (has_scheme (trim url) = true -> submitUrl url = trim url)
  /\ (has_scheme (trim url) = false ->
      submitUrl url = String.append "https://" (trim url)).
Proof.
  intros Hne. unfold submitUrl.
  destruct (String.eqb_spec (trim url) ""); [contradiction|]. simpl.
  destruct (has_scheme (trim url)) eqn:E; simpl.
  - repeat split; auto. discriminate.
  - repeat split; auto using has_scheme_https. discriminate.
Qed.

End Form.

(** ** Strings of the form *)

Section Strings.

Lemma append_assoc (a b c : string) :
  String.append (String.append a b) c = String.append a (String.append b c).
Proof. induction a as [|x a IH]; simpl; auto. now rewrite IH. Qed.

Lemma string_rev_acc (s acc : string) :
  string_rev s acc = String.append (string_rev s "") acc.
Proof.
  revert acc. induction s as [|c s IH]; intros acc; simpl; auto.
  rewrite (IH (String c acc)), (IH (String c "")), append_assoc.
  reflexivity.
Qed.

Lemma string_rev_snoc (s : string) (c : ascii) :
  string_rev (String.append s (String c "")) "" = String c (string_rev s "").
Proof.
  induction s as [|x s IH]; simpl; auto.
  rewrite (string_rev_acc (String.append s (String c "")) (String x "")), IH.
  simpl. now rewrite <- string_rev_acc.
Qed.

Lemma string_rev_involutive (s : string) :
  string_rev (string_rev s "") "" = s.
Proof.
  induction s as [|c s IH]; simpl; auto.
  now rewrite (string_rev_acc s (String c "")), string_rev_snoc, IH.
Qed.

Lemma string_rev_empty (s : string) : string_rev s "" = "" -> s = "".
Proof.
  intros H. rewrite <- (string_rev_involutive s), H. reflexivity.
Qed.

Lemma trimStart_append (a b : string) :
  trimStart (String.append a b)
  = if String.eqb (trimStart a) "" then trimStart b
    else String.append (trimStart a) b.
Proof.
  induction a as [|c a IH]; simpl; auto.
  destruct (is_space c); auto.
Qed.

Lemma trimEnd_cons (c : ascii) (s : string) :
  trimEnd (String c s)
  = if String.eqb (trimEnd s) ""
    then (if is_space c then "" else String c "")
    else String c (trimEnd s).
Proof.
  unfold trimEnd.
  change (string_rev (String c s) "") with (string_rev s (String c "")).
  rewrite (string_rev_acc s (String c "")), trimStart_append.
  destruct (String.eqb_spec (trimStart (string_rev s "")) "") as [E|E].
  - rewrite E. simpl. now destruct (is_space c).
  - rewrite string_rev_snoc.
    destruct (String.eqb_spec (string_rev (trimStart (string_rev s "")) "") "")
      as [E2|E2]; auto.
    apply string_rev_empty in E2. contradiction.
Qed.

Lemma trimEnd_idempotent (s : string) : trimEnd (trimEnd s) = trimEnd s.
Proof.
  induction s as [|c s IH]; [reflexivity|].
  rewrite trimEnd_cons.
  destruct (String.eqb_spec (trimEnd s) "") as [E|E].
  - destruct (is_space c) eqn:Hc; [reflexivity|].
    rewrite trimEnd_cons. change (trimEnd "") with "". simpl.
    now rewrite Hc.
  - rewrite trimEnd_cons, IH.
    destruct (String.eqb_spec (trimEnd s) ""); [contradiction | reflexivity].
Qed.

Lemma trimStart_idempotent (s : string) : trimStart (trimStart s) = trimStart s.
Proof.
  induction s as [|c s IH]; simpl; auto.
  destruct (is_space c) eqn:E; auto. simpl. now rewrite E.
Qed.

Lemma trimStart_shorter (u : string) :
  (String.length (trimStart u) <= String.length u)%nat.
Proof.
  induction u as [|x u IHu]; simpl; auto.
  destruct (is_space x); simpl; lia.
Qed.

(** A string whose start is clean keeps a clean start when its end is
    trimmed. *)
Lemma trimStart_trimEnd (s : string) :
  trimStart s = s -> trimStart (trimEnd s) = trimEnd s.
Proof.
  destruct s as [|c s]; [reflexivity|].
  intros H. assert (Hc : is_space c = false).
  { destruct (is_space c) eqn:E; auto. simpl in H. rewrite E in H.
    pose proof (trimStart_shorter s) as Hl. rewrite H in Hl.
    simpl in Hl. lia. }
  rewrite trimEnd_cons.
  destruct (String.eqb (trimEnd s) ""); rewrite ?Hc; simpl; now rewrite Hc.
Qed.

Lemma trim_eq (s : string) : trim s = trimEnd (trimStart s).
Proof. reflexivity. Qed.

Lemma trim_idempotent (s : string) : trim (trim s) = trim s.
Proof.
  rewrite !trim_eq.
  rewrite (trimStart_trimEnd _ (trimStart_idempotent s)).
  apply trimEnd_idempotent.
Qed.

Lemma trimEnd_append (p u : string) :
  trimEnd u = u -> u <> "" -> trimEnd (String.append p u) = String.append p u.
Proof.
  intros Hu Hne. induction p as [|c p IH]; simpl; auto.
  rewrite trimEnd_cons, IH.
  destruct (String.eqb_spec (String.append p u) "") as [E|E]; auto.
  destruct p; simpl in E; [contradiction | discriminate].
Qed.

Lemma trim_https (u : string) :
  trim u = u -> u <> "" ->
  trim (String.append "https://" u) = String.append "https://" u.
Proof.
  intros Hu Hne. rewrite trim_eq.
  change (trimStart (String.append "https://" u))
    with (String.append "https://" u).
  apply trimEnd_append; auto.
  rewrite <- Hu at 1. rewrite trim_eq, trimEnd_idempotent.
  now rewrite <- trim_eq.
Qed.

Lemma trimStart_split (s : string) :
  exists before,
    s = String.append before (trimStart s)
    /\ all_chars is_space before = true.
Proof.
  induction s as [|c s (before & IH & Hb)]; simpl.
  - exists "". auto.
  - destruct (is_space c) eqn:E.
    + exists (String c before). simpl. rewrite E, Hb.
      split; [now rewrite <- IH | reflexivity].
    + exists "". auto.
Qed.

Lemma trimStart_clean (s : string) (c : ascii) (rest : string) :
  trimStart s = String c rest -> is_space c = false.
Proof.
  induction s as [|x s IH]; simpl; [discriminate|].
  destruct (is_space x) eqn:E; auto.
  intros [= <- _]. exact E.
Qed.

Lemma trimEnd_split (s : string) :
  exists after,
    s = String.append (trimEnd s) after
    /\ all_chars is_space after = true.
Proof.
  induction s as [|c s (after & IH & Ha)].
  - exists "". auto.
  - rewrite trimEnd_cons.
    destruct (String.eqb_spec (trimEnd s) "") as [E|E].
    + rewrite E in IH. simpl in IH. subst after.
      destruct (is_space c) eqn:Hc.
      * exists (String c s). simpl. now rewrite Hc, Ha.
      * exists s. auto.
    + exists after. simpl. split; congruence.
Qed.

Lemma trimEnd_clean (s front : string) (c : ascii) :
  trimEnd s = String.append front (String c "") -> is_space c = false.
Proof.
  revert front. induction s as [|x s IH]; intros front.
  - destruct front; discriminate.
  - rewrite trimEnd_cons.
    destruct (String.eqb_spec (trimEnd s) "") as [E|E].
    + destruct (is_space x) eqn:Hx.
      * destruct front; discriminate.
      * destruct front as [|y front]; simpl.
        -- intros [= <-]. exact Hx.
        -- intros [= _ H]. destruct front; discriminate.
    + destruct front as [|y front]; simpl.
      * intros [= _ H]. contradiction.
      * intros [= _ H]. eapply IH. exact H.
Qed.

(** What [trim] is: the string without the white space around it. *)
Lemma trim_split (s : string) :
  exists before after,
    s = String.append before (String.append (trim s) after)
    /\ all_chars is_space before = true
    /\ all_chars is_space after = true.
Proof.
  destruct (trimStart_split s) as (before & Hs & Hb).
  destruct (trimEnd_split (trimStart s)) as (after & Ht & Ha).
  exists before, after. rewrite trim_eq, <- Ht. auto.
Qed.

Lemma trim_clean_start (s : string) (c : ascii) (rest : string) :
  trim s = String c rest -> is_space c = false.
Proof.
  rewrite trim_eq.
  destruct (trimStart s) as [|x t] eqn:E; [discriminate|].
  apply trimStart_clean in E.
  rewrite trimEnd_cons.
  destruct (String.eqb (trimEnd t) ""); rewrite ?E; intros [= <- _]; exact E.
Qed.

Lemma trim_clean_end (s front : string) (c : ascii) :
  trim s = String.append front (String c "") -> is_space c = false.
Proof. rewrite trim_eq. apply trimEnd_clean. Qed.

End Strings.

(** C9, as stated, fails: a link made of spaces passes the form, is
    trimmed to the empty string, which the guard [submitUrl && ..] leaves
    alone, and the row is stored with an url that carries no scheme. *)
Lemma blank_url_is_stored_without_a_scheme :
  snd (handleSubmit parseFloat_fixture 0 app_new_blank_url)
  = [POST_items (Body.mk (JStr "D") (JNum 5) (JStr "") (JStr "")
                         (JStr "Toys") (JNum 3));
     GET_items]
  /\ map Row.url
       (Db.items
          (serve_all 2000
             (snd (handleSubmit parseFloat_fixture 0 app_new_blank_url))
             db_ABC))
     = [SText "https://a.example"; SText "https://b.example";
        SText "https://c.example"; SText ""]
  /\ has_scheme "" = false.
Proof. repeat split. Qed.

(** The normalisation on some links: white space around the link goes,
    the scheme is recognised in any letter case, another scheme does not
    count, and a blank link stays empty. *)
Example submitUrl_examples :
  map submitUrl
    ["  example.com "; "HTTP://Example.com"; "https://example.com";
     "ftp://example.com"; "http:/example.com"; "   "; ""]
  = ["https://example.com"; "HTTP://Example.com"; "https://example.com";
     "https://ftp://example.com"; "https://http:/example.com"; ""; ""].
Proof. reflexivity. Qed.

(** C9, amended.  Submitting [example.com] stores [https://example.com]
    and submitting [http://example.com] stores it unchanged.  The link is
    trimmed first: what is left is the link without the white space
    before and after it.  When nothing is left the url is the empty
    string; otherwise the url carries an explicit scheme: it is the
    trimmed link when that starts with [http://] or [https://] in any
    letter case, and [https://] followed by the trimmed link when it
    does not.  That url is the one persisted, in the row created or in
    the rows of the edited item. *)
Theorem submitted_url_carries_a_scheme_unless_blank :
  submitUrl "example.com" = "https://example.com"
  /\ submitUrl "http://example.com" = "http://example.com"
  /\ (forall url : string,
        (exists before after,
           url = String.append before (String.append (trim url) after)
           /\ all_chars is_space before = true
           /\ all_chars is_space after = true)
        /\ (forall c rest, trim url = String c rest -> is_space c = false)
        /\ (forall front c, trim url = String.append front (String c "") ->
              is_space c = false)
        /\ (trim url = "" -> submitUrl url = "")
        /\ (trim url <> "" -> has_scheme (submitUrl url) = true)
        /\ (has_scheme (trim url) = true -> submitUrl url = trim url)
        /\ (trim url <> "" -> has_scheme (trim url) = false ->
            submitUrl url = String.append "https://" (trim url)))
  /\ forall (parseFloat : string -> option Z) (date_now : Z) (st : App.t)
       (now : Z) (db : Db.t),
       App.isSubmitting st = false ->
       match App.editingItem st with
       | None =>
           exists row,
             Db.items (serve_all now
                         (snd (handleSubmit parseFloat date_now st)) db)
             = Db.items db ++ [row]
             /\ Row.url row
                = SText (submitUrl (FormData.url (App.formData st)))
       | Some item =>
           Forall (fun r => Row.id r = Item.id item ->
                     Row.url r
                     = SText (submitUrl (FormData.url (App.formData st))))
             (Db.items (serve_all now
                          (snd (handleSubmit parseFloat date_now st)) db))
       end.
Proof.
  split; [reflexivity|]. split; [reflexivity|]. split.
  { intros url.
    split; [apply trim_split|].
    split; [apply trim_clean_start|].
    split; [apply trim_clean_end|].
    split.
    { intros E. unfold submitUrl. now rewrite E. }
    split.
    { intros Hne. apply (submitUrl_cases _ Hne). }
    split.
    { intros Hs. unfold submitUrl. now rewrite Hs, andb_false_r. }
    intros Hne. apply (submitUrl_cases _ Hne). }
  intros parseFloat date_now st now db Hs.
  destruct (handleSubmit_requests parseFloat date_now st Hs)
    as (upload & imageKey & Hup & ->).
  rewrite (serve_submit now upload _ db Hup).
  destruct (App.editingItem st) as [item|]; cbn [serve].
  - rewrite payload_put. simpl. apply Forall_forall.
    intros r' Hr'. apply in_map_iff in Hr'. destruct Hr' as (r & <- & _).
    rewrite patch_at_id. unfold patch_at.
    intros ->. now rewrite Z.eqb_refl.
  - destruct (post_items_eq now (payload parseFloat imageKey st) db)
      as [[_ ->]|[Hr _]].
    + simpl. eexists. split; reflexivity.
    + rewrite payload_accepted in Hr. discriminate.
Qed.

Lemma submitted_url_carries_a_scheme_unless_blank_witness :
  (exists row,
     Db.items (serve_all 2000
                 (snd (handleSubmit parseFloat_fixture 0 app_new_D)) db_ABC)
     = Db.items db_ABC ++ [row]
     /\ Row.url row = SText "https://example.com")
  /\ (exists row,
        Db.items (serve_all 2000
                    (snd (handleSubmit parseFloat_fixture 0 app_new_blank_url))
                    db_ABC)
        = Db.items db_ABC ++ [row]
        /\ Row.url row = SText "")
  /\ has_scheme (submitUrl "  example.com ") = true.
Proof.
  split; [|split].
  - apply (proj2 (proj2 (proj2 submitted_url_carries_a_scheme_unless_blank))
             parseFloat_fixture 0 app_new_D 2000 db_ABC).
    reflexivity.
  - apply (proj2 (proj2 (proj2 submitted_url_carries_a_scheme_unless_blank))
             parseFloat_fixture 0 app_new_blank_url 2000 db_ABC).
    reflexivity.
  - apply (proj1 (proj2 (proj2 (proj2 (proj2
             (proj1 (proj2 (proj2
                submitted_url_carries_a_scheme_unless_blank))
                "  example.com ")))))).
    simpl. discriminate.
Defined.

(** C10.  Saving the form (when no submit is under way) sends one save
    request after the optional upload.  When an item is edited the save
    is an update of that item whose body has no [priority] field, and
    serving the requests leaves every stored priority as it was.  When a
    new item is created the save is an insert whose [priority] is the
    length of the full list of items, and the row it appends is stored
    with that priority, also when the list is empty. *)
Theorem edit_keeps_priority_and_create_takes_the_length
  (parseFloat : string -> option Z) (date_now : Z) (st : App.t)
  (now : Z) (db : Db.t) :
  App.isSubmitting st = false ->
  exists upload imageKey,
    (upload = [] \/ exists key, upload = [PUT_upload key])
    /\ match App.editingItem st with
       | Some item =>
           snd (handleSubmit parseFloat date_now st)
           = upload ++ [PUT_items (Item.id item)
                          (payload parseFloat imageKey st); GET_items]
           /\ Body.priority (payload parseFloat imageKey st) = JUndefined
           /\ map Row.priority
                (Db.items (serve_all now
                             (snd (handleSubmit parseFloat date_now st)) db))
              = map Row.priority (Db.items db)
       | None =>
           snd (handleSubmit parseFloat date_now st)
           = upload ++ [POST_items (payload parseFloat imageKey st);
                        GET_items]
           /\ Body.priority (payload parseFloat imageKey st)
              = JNum (Z.of_nat (List.length (App.items st)))
           /\ exists row,
                Db.items (serve_all now
                            (snd (handleSubmit parseFloat date_now st)) db)
                = Db.items db ++ [row]
                /\ Row.id row = next_rowid db
                /\ Row.priority row
                   = SNum (Z.of_nat (List.length (App.items st)))
       end.
Proof.
  intros Hs.
  destruct (handleSubmit_requests parseFloat date_now st Hs)
    as (upload & imageKey & Hup & Hreq).
  exists upload, imageKey. split; [exact Hup|].
  rewrite Hreq, (serve_submit now upload _ db Hup).
  assert (Hprio : Body.priority (payload parseFloat imageKey st)
                  = match App.editingItem st with
                    | Some _ => JUndefined
                    | None => JNum (Z.of_nat (List.length (App.items st)))
                    end) by reflexivity.
  destruct (App.editingItem st) as [item|] eqn:Hed; cbn [serve].
  - split; [reflexivity|]. split; [exact Hprio|].
    rewrite payload_put. simpl. rewrite map_map. apply map_ext.
    intros r. unfold patch_at.
    destruct (Row.id r =? Item.id item); auto.
    unfold patch. cbn [Row.priority]. now rewrite Hprio.
  - split; [reflexivity|]. split; [exact Hprio|].
    destruct (post_items_eq now (payload parseFloat imageKey st) db)
      as [[_ ->]|[Hr _]].
    + cbn [snd Db.items]. eexists. split; [reflexivity|].
      split; [reflexivity|].
      unfold inserted_row. cbn [Row.priority]. rewrite Hprio.
      unfold js_or. simpl.
      destruct (Z.eqb_spec (Z.of_nat (List.length (App.items st))) 0) as [E|E];
        simpl; [now rewrite E | reflexivity].
    + rewrite payload_accepted in Hr. discriminate.
Qed.

Lemma edit_keeps_priority_and_create_takes_the_length_witness :
  exists upload imageKey,
    (upload = [] \/ exists key, upload = [PUT_upload key])
    /\ snd (handleSubmit parseFloat_fixture 0 app_edit_B)
       = upload ++ [PUT_items (Item.id item_B)
                      (payload parseFloat_fixture imageKey app_edit_B);
                    GET_items]
    /\ Body.priority (payload parseFloat_fixture imageKey app_edit_B)
       = JUndefined
    /\ map Row.priority
         (Db.items (serve_all 2000
                      (snd (handleSubmit parseFloat_fixture 0 app_edit_B))
                      db_ABC))
       = map Row.priority (Db.items db_ABC).
Proof.
  apply (edit_keeps_priority_and_create_takes_the_length
           parseFloat_fixture 0 app_edit_B 2000 db_ABC).
  reflexivity.
Defined.

(** * Further properties of the worker *)

Section Worker.

Lemma map_id_patch (id : Z) (body : Body.t) (rows : list Row.t) :
  map Row.id (map (patch_at id body) rows) = map Row.id rows.
Proof.
  rewrite map_map. apply map_ext. intros r. apply patch_at_id.
Qed.

Lemma max_id_app (l l' : list Row.t) :
  max_id (l ++ l') = Z.max (max_id l) (max_id l').
Proof.
  induction l as [|r l IH]; simpl.
  - assert (0 <= max_id l') by (induction l'; simpl; lia). lia.
  - rewrite IH. lia.
Qed.

Lemma max_id_nonneg (l : list Row.t) : 0 <= max_id l.
Proof. induction l; simpl; lia. Qed.

Lemma lookup_filter_other (key j : Z) (rows : list Row.t) :
  j <> key ->
  find (fun r => Row.id r =? j)
       (filter (fun r => negb (key_matches (PReal key) r)) rows)
  = find (fun r => Row.id r =? j) rows.
Proof.
  intros Hne. induction rows as [|r rows IH]; [reflexivity|].
  cbn [filter find]. unfold key_matches at 1.
  destruct (Z.eqb_spec (Row.id r) key) as [E|E]; cbn [negb].
  - destruct (Z.eqb_spec (Row.id r) j); [lia | exact IH].
  - cbn [find]. now rewrite IH.
Qed.

Lemma filter_all {A : Type} (f : A -> bool) (l : list A) :
  (forall x, In x l -> f x = true) -> filter f l = l.
Proof.
  induction l as [|x l IH]; simpl; auto.
  intros H. rewrite (H x) by auto. f_equal. auto.
Qed.

Lemma NoDup_map_filter {A B : Type} (g : A -> B) (f : A -> bool) (l : list A) :
  NoDup (map g l) -> NoDup (map g (filter f l)).
Proof.
  induction l as [|x l IH]; simpl; auto.
  intros H. inversion H as [|? ? Hx Hl]; subst.
  destruct (f x); simpl; auto.
  constructor; auto.
  intros Hin. apply Hx. apply in_map_iff in Hin.
  destruct Hin as (y & <- & Hy). apply filter_In in Hy.
  apply in_map. tauto.
Qed.

Lemma is_null_eq (v : sqlval) : is_null v = false <-> v <> SNull.
Proof. destruct v; simpl; split; congruence. Qed.

Lemma write_not_null (v : jsval) (old : sqlval) :
  negb (defined v) || can_bind v = true ->
  is_jnull v = false -> old <> SNull -> write c_name v old <> SNull.
Proof.
  intros Hb Hj Ho. apply is_null_eq.
  destruct (defined v) eqn:D.
  - simpl in Hb. now rewrite (write_name_null _ _ Hb), D.
  - unfold write. rewrite D. now apply is_null_eq.
Qed.

End Worker.

Section WorkerFacts.

Lemma post_items_success (now : Z) (body : Body.t) (db : Db.t) (i : Z)
  (db1 : Db.t) :
  post_items now body db = (Json (SuccessId i), db1) ->
  accepted body = true
  /\ i = next_rowid db
  /\ db1 = Db.mk (Db.items db ++ [inserted_row i now body]) i.
Proof.
  intros H.
  destruct (post_items_eq now body db) as [[Ha He]|[_ (e & He)]];
    rewrite He in H; [|discriminate].
  injection H as <- <-. auto.
Qed.

Lemma accepted_name_stored (body : Body.t) :
  accepted body = true -> store c_name (bound (Body.name body)) <> SNull.
Proof.
  destruct body as [n p u k g o]. unfold accepted, insert_values.
  cbn [Body.name forallb]. rewrite !andb_true_iff.
  intros [[Hn _] Hj]. apply is_null_eq.
  rewrite store_null, (bound_null _ Hn). now destruct (is_jnull n).
Qed.

Lemma bindable_field (body : Body.t) (c : column) :
  bindable body = true ->
  negb (defined (field body c)) || can_bind (field body c) = true.
Proof.
  unfold bindable. rewrite forallb_forall. intros H. apply H.
  destruct c; simpl; tauto.
Qed.

Lemma serve_sequence (now : Z) (rq : request) (db : Db.t) :
  Db.sqlite_sequence db <= Db.sqlite_sequence (snd (serve now rq db)).
Proof.
  destruct rq as [|body|id body|id|key]; simpl; try lia.
  - destruct (post_items_eq now body db) as [[_ ->]|[_ (e & ->)]];
      simpl; [unfold next_rowid|]; lia.
  - rewrite put_items_eq.
    destruct (no_field body); simpl; try lia.
    destruct (bindable body); simpl; try lia.
    destruct (_ && _); simpl; lia.
Qed.

Lemma serve_all_sequence (now : Z) (rqs : list request) (db : Db.t) :
  Db.sqlite_sequence db <= Db.sqlite_sequence (serve_all now rqs db).
Proof.
  revert db. induction rqs as [|rq rqs IH]; intros db; simpl; [lia|].
  pose proof (serve_sequence now rq db).
  pose proof (IH (snd (serve now rq db))). lia.
Qed.

Lemma patch_at_twice (id : Z) (body : Body.t) (r : Row.t) :
  patch_at id body (patch_at id body r) = patch_at id body r.
Proof.
  unfold patch_at at 2 3.
  destruct (Row.id r =? id) eqn:E.
  - unfold patch_at. cbn [patch Row.id]. rewrite E. unfold patch. simpl.
    f_equal; unfold write;
      match goal with |- context [defined ?v] => now destruct (defined v) end.
  - unfold patch_at. now rewrite E.
Qed.

Lemma existsb_map {A B : Type} (f : B -> bool) (g : A -> B) (l : list A) :
  existsb f (map g l) = existsb (fun x => f (g x)) l.
Proof. induction l as [|x l IH]; simpl; auto. now rewrite IH. Qed.

Lemma sort_insert_map (f : Row.t -> Row.t) (r : Row.t) (l : list Row.t) :
  (forall a b, order_leb (f a) (f b) = order_leb a b) ->
  sort_insert (f r) (map f l) = map f (sort_insert r l).
Proof.
  intros Hf. induction l as [|h t IH]; simpl; auto.
  rewrite Hf. destruct (order_leb r h); simpl; auto. now rewrite IH.
Qed.

Lemma sql_order_map (f : Row.t -> Row.t) (rows : list Row.t) :
  (forall a b, order_leb (f a) (f b) = order_leb a b) ->
  sql_order (map f rows) = map f (sql_order rows).
Proof.
  intros Hf. induction rows as [|r rows IH]; simpl; auto.
  now rewrite IH, sort_insert_map.
Qed.

Lemma patch_at_order (id : Z) (body : Body.t) (a b : Row.t) :
  Body.priority body = JUndefined ->
  order_leb (patch_at id body a) (patch_at id body b) = order_leb a b.
Proof.
  intros Hp. unfold order_leb, order_by, patch_at, patch.
  destruct (Row.id a =? id), (Row.id b =? id); simpl; now rewrite ?Hp.
Qed.

End WorkerFacts.

(** X1.  [DELETE /api/items/:id] always answers [{ success: true }].  No
    row of the id is left, every other id finds the row it found before,
    the rows kept are rows of the table, and a delete of an id that no row
    has, a second delete for instance, leaves the database as it is. *)
Theorem delete_removes_the_rows_of_the_id_only (id : Z) (db : Db.t) :
  fst (delete_item id db) = Json Success
  /\ lookup id (snd (delete_item id db)) = None
  /\ (forall j, j <> id -> lookup j (snd (delete_item id db)) = lookup j db)
  /\ (forall r, In r (Db.items (snd (delete_item id db))) ->
        In r (Db.items db) /\ Row.id r <> id)
  /\ (lookup id db = None -> snd (delete_item id db) = db)
  /\ snd (delete_item id (snd (delete_item id db))) = snd (delete_item id db).
Proof.
  assert (Hgone : lookup id (snd (delete_item id db)) = None).
  { unfold lookup. simpl.
    destruct (find _ _) as [r|] eqn:E; auto.
    apply find_some in E. destruct E as [Hin He].
    apply filter_In in Hin. destruct Hin as [_ Hn].
    simpl in Hn. rewrite He in Hn. discriminate. }
  assert (Hmiss : forall d, lookup id d = None -> snd (delete_item id d) = d).
  { intros d H. unfold delete_item, delete_items. simpl.
    rewrite filter_all; [apply db_eta|].
    intros r Hr. simpl.
    destruct (Z.eqb_spec (Row.id r) id); auto.
    exfalso. eapply lookup_none; eauto. }
  split; [reflexivity|]. split; [exact Hgone|].
  split; [intros j Hj; apply lookup_filter_other; exact Hj|].
  split.
  { intros r Hr. simpl in Hr. apply filter_In in Hr.
    destruct Hr as [Hin Hn]. split; auto.
    simpl in Hn. intros E. rewrite E, Z.eqb_refl in Hn. discriminate. }
  split; [apply Hmiss|].
  apply Hmiss, Hgone.
Qed.

Lemma delete_removes_the_rows_of_the_id_only_witness :
  lookup 2 (snd (delete_item 2 db_ABC)) = None
  /\ lookup 3 (snd (delete_item 2 db_ABC)) = lookup 3 db_ABC
  /\ snd (delete_item 7 db_ABC) = db_ABC.
Proof.
  pose proof (delete_removes_the_rows_of_the_id_only 2 db_ABC)
    as (_ & H1 & H2 & _).
  pose proof (delete_removes_the_rows_of_the_id_only 7 db_ABC)
    as (_ & _ & _ & _ & H3 & _).
  split; [exact H1|]. split; [apply H2; discriminate|].
  apply H3. reflexivity.
Defined.

(** X2.  An id is never given twice: once an insert has answered with an
    id, every later insert that succeeds answers with a larger one,
    whatever requests (deletes included) were served in between. *)
Theorem ids_are_never_reused (now now' : Z)
  (body body' : Body.t) (rqs : list request) (db db1 db3 : Db.t) (i i' : Z) :
  post_items now body db = (Json (SuccessId i), db1) ->
  post_items now' body' (serve_all now' rqs db1)
  = (Json (SuccessId i'), db3) ->
  i < i'.
Proof.
  intros H1 H3.
  apply post_items_success in H1. destruct H1 as (_ & _ & ->).
  apply post_items_success in H3. destruct H3 as (_ & -> & _).
  pose proof (serve_all_sequence now' rqs
                (Db.mk (Db.items db ++ [inserted_row i now body]) i)) as H.
  simpl in H. unfold next_rowid. lia.
Qed.

Lemma ids_are_never_reused_witness : 4 < 5.
Proof.
  apply (ids_are_never_reused 2000 2001
           body_defaults body_defaults [DELETE_items 4; DELETE_items 3]
           db_ABC
           (Db.mk [row_A; row_B; row_C; inserted_row 4 2000 body_defaults] 4)
           (Db.mk [row_A; row_B; inserted_row 5 2001 body_defaults] 5)
           4 5).
  - reflexivity.
  - reflexivity.
Defined.

(** X3.  The constraints of the schema survive every request: when the
    ids of the table are pairwise distinct and no name is NULL, the same
    holds after any sequence of requests has been served. *)
Theorem requests_keep_the_schema_constraints
  (now : Z) (rqs : list request) (db : Db.t) :
  constraints_hold db -> constraints_hold (serve_all now rqs db).
Proof.
  revert db. induction rqs as [|rq rqs IH]; intros db H; simpl; auto.
  apply IH. clear IH. destruct H as [Hid Hname]. unfold constraints_hold.
  destruct rq as [|body|id body|id|key]; simpl; auto.
  - destruct (post_items_eq now body db) as [[Ha ->]|[_ (e & ->)]];
      simpl; auto.
    split.
    + rewrite map_app. simpl.
      apply (Permutation_NoDup (Permutation_cons_append _ _)).
      constructor; auto.
      intros Hin. apply in_map_iff in Hin. destruct Hin as (r & E & Hr).
      apply next_rowid_fresh in Hr. lia.
    + apply Forall_app. split; auto. constructor; auto.
      now apply accepted_name_stored.
  - rewrite put_items_eq.
    destruct (no_field body); simpl; auto.
    destruct (bindable body) eqn:Hb; simpl; auto.
    destruct (is_jnull (Body.name body)) eqn:Hj; simpl.
    + destruct (existsb _ _) eqn:Hex; simpl; auto.
      split; [now rewrite map_id_patch|].
      rewrite map_patch_absent; auto.
      intros r Hr E.
      assert (existsb (fun r => Row.id r =? id) (Db.items db) = true).
      { apply existsb_exists. exists r. split; auto. lia. }
      congruence.
    + split; [now rewrite map_id_patch|].
      apply Forall_forall. intros r' Hr'.
      apply in_map_iff in Hr'. destruct Hr' as (r & <- & Hr).
      pose proof (proj1 (Forall_forall _ _) Hname r Hr) as Hn.
      unfold patch_at. destruct (Row.id r =? id); auto.
      simpl. apply write_not_null; auto.
      exact (bindable_field body c_name Hb).
  - split.
    + now apply NoDup_map_filter.
    + apply Forall_forall. intros r Hr. apply filter_In in Hr.
      apply (proj1 (Forall_forall _ _) Hname). tauto.
Qed.

Lemma requests_keep_the_schema_constraints_witness :
  constraints_hold
    (serve_all 2000
       [POST_items body_defaults; PUT_items 2 body_null_name;
        DELETE_items 1; PUT_items 3 body_empty_url] db_ABC).
Proof.
  apply (requests_keep_the_schema_constraints 2000).
  split.
  - simpl. repeat constructor; simpl; intuition discriminate.
  - simpl. repeat constructor; discriminate.
Defined.

(** X4.  An update is idempotent: sending the same update a second time
    gives the same answer and leaves the database the first one left. *)
Theorem update_is_idempotent (id : Z)
  (body : Body.t) (db : Db.t) :
  put_items id body (snd (put_items id body db))
  = put_items id body db.
Proof.
  rewrite (put_items_eq id body db).
  destruct (no_field body) eqn:Hn; simpl.
  { now rewrite put_items_eq, Hn. }
  destruct (bindable body) eqn:Hb; simpl.
  2:{ now rewrite put_items_eq, Hn, Hb. }
  destruct (is_jnull (Body.name body)
            && existsb (fun r => Row.id r =? id) (Db.items db)) eqn:He; simpl.
  { now rewrite put_items_eq, Hn, Hb, He. }
  rewrite put_items_eq, Hn, Hb. simpl.
  rewrite existsb_map.
  rewrite (existsb_pointwise _ (fun r => Row.id r =? id))
    by (intros r; now rewrite patch_at_id).
  rewrite He. rewrite map_map.
  do 2 f_equal. apply map_ext. intros r. apply patch_at_twice.
Qed.

(** X5.  An update that provides no [priority] never moves a row in the
    list: whatever it answers, [listAll] gives the ids in the order it
    gave them before. *)
Theorem update_without_priority_keeps_the_order
  (id : Z) (body : Body.t) (db : Db.t) :
  Body.priority body = JUndefined ->
  map Row.id (listAll (snd (put_items id body db)))
  = map Row.id (listAll db).
Proof.
  intros Hp.
  assert (Hsort : sql_order (map (patch_at id body) (Db.items db))
                  = map (patch_at id body) (sql_order (Db.items db))).
  { apply sql_order_map. intros a b. now apply patch_at_order. }
  rewrite put_items_eq.
  destruct (no_field body); simpl; auto.
  destruct (bindable body); simpl; auto.
  destruct (is_jnull (Body.name body)
            && existsb (fun r => Row.id r =? id) (Db.items db)); simpl; auto.
  unfold listAll, select_items. simpl. rewrite Hsort.
  apply map_id_patch.
Qed.

Lemma update_without_priority_keeps_the_order_witness :
  map Row.id (listAll (snd (put_items 2 body_empty_url db_ABC)))
  = map Row.id (listAll db_ABC).
Proof.
  apply (update_without_priority_keeps_the_order 2 body_empty_url db_ABC).
  reflexivity.
Defined.

(** X6.  Deleting the row an insert has just created gives back the rows
    of the table, and so the same [listAll], but not the id: the next
    insert takes the id after the deleted one. *)
Theorem insert_then_delete_restores_the_rows
  (now : Z) (body : Body.t) (db db1 : Db.t) (i : Z) :
  post_items now body db = (Json (SuccessId i), db1) ->
  Db.items (snd (delete_item i db1)) = Db.items db
  /\ listAll (snd (delete_item i db1)) = listAll db
  /\ next_rowid (snd (delete_item i db1)) = i + 1.
Proof.
  intros H. apply post_items_success in H. destruct H as (_ & Hi & ->).
  assert (Hrows : Db.items
                    (snd (delete_item i
                            (Db.mk (Db.items db ++ [inserted_row i now body])
                                   i)))
                  = Db.items db).
  { simpl. rewrite filter_app. simpl. rewrite Z.eqb_refl. simpl.
    rewrite app_nil_r. apply filter_all.
    intros r Hr. simpl. apply next_rowid_fresh in Hr.
    destruct (Z.eqb_spec (Row.id r) i); auto. lia. }
  split; [exact Hrows|]. split.
  - unfold listAll, select_items. now rewrite Hrows.
  - unfold next_rowid. rewrite Hrows. simpl Db.sqlite_sequence.
    subst i. unfold next_rowid. lia.
Qed.

Lemma insert_then_delete_restores_the_rows_witness :
  Db.items (snd (delete_item 4
                   (Db.mk [row_A; row_B; row_C;
                           inserted_row 4 2000 body_defaults] 4)))
  = Db.items db_ABC
  /\ listAll (snd (delete_item 4
                     (Db.mk [row_A; row_B; row_C;
                             inserted_row 4 2000 body_defaults] 4)))
     = listAll db_ABC
  /\ next_rowid (snd (delete_item 4
                        (Db.mk [row_A; row_B; row_C;
                                inserted_row 4 2000 body_defaults] 4)))
     = 4 + 1.
Proof.
  apply (insert_then_delete_restores_the_rows
           2000 body_defaults db_ABC).
  reflexivity.
Defined.

(** X7.  An image uploaded under a key is served back under that key:
    same body, status 200, with the content type sent with the upload or
    [application/octet-stream] when none (or an empty one) was sent; the
    other keys answer what they answered before, and a key that holds
    nothing answers 404. *)
Theorem uploaded_image_is_served_back (key body : string)
  (content_type : option string) (bucket : Bucket) :
  fst (put_upload key body content_type bucket) = SuccessKey key
  /\ get_image key (snd (put_upload key body content_type bucket))
     = Content body 200
         (if truthy_string content_type
          then match content_type with Some t => t | None => "" end
          else "application/octet-stream")
  /\ (forall k, k <> key ->
        get_image k (snd (put_upload key body content_type bucket))
        = get_image k bucket)
  /\ (forall k, bucket k = None -> response_status (get_image k bucket) = 404).
Proof.
  split; [reflexivity|]. split.
  - unfold get_image, put_upload, bucket_put. simpl. rewrite String.eqb_refl.
    simpl. destruct content_type as [t|]; simpl; auto.
    destruct (String.eqb t ""); reflexivity.
  - split.
    + intros k Hk. unfold get_image, put_upload, bucket_put. simpl.
      destruct (String.eqb_spec k key); [contradiction | reflexivity].
    + intros k Hk. unfold get_image. now rewrite Hk.
Qed.

Lemma uploaded_image_is_served_back_witness :
  get_image "other"
    (snd (put_upload "img-1-a.png" "bytes" None (fun _ => None)))
  = get_image "other" (fun _ => None)
  /\ response_status (get_image "other" (fun _ => None)) = 404.
Proof.
  pose proof (uploaded_image_is_served_back "img-1-a.png" "bytes" None
                (fun _ => None)) as (_ & _ & H1 & H2).
  split; [apply H1; discriminate | apply H2; reflexivity].
Defined.

Section StaticFacts.

Variable manifest : string -> option string.
Variable STATIC_CONTENT : string -> option string.
Variable getMimeType : string -> option string.

Lemma or_string_truthy (a b : option string) :
  truthy_string (or_string a b) = truthy_string a || truthy_string b.
Proof.
  destruct a as [s|]; simpl; auto.
  destruct (String.eqb s "") eqn:E; simpl; auto. now rewrite E.
Qed.

Lemma or_string_left (a b : option string) :
  truthy_string a = true -> or_string a b = a.
Proof.
  destruct a as [s|]; simpl; try discriminate.
  now destruct (String.eqb s "").
Qed.

Lemma or_string_right (a b : option string) :
  truthy_string a = false -> or_string a b = b.
Proof.
  destruct a as [s|]; simpl; auto.
  now destruct (String.eqb s "").
Qed.

Lemma mime_not_empty (path : string) :
  match or_string (getMimeType path) (Some "text/html") with
  | Some t => t
  | None => "text/html"
  end <> "".
Proof.
  destruct (getMimeType path) as [t|]; simpl; try discriminate.
  destruct (String.eqb_spec t ""); simpl; [discriminate | assumption].
Qed.

End StaticFacts.

(** X8.  The static route falls back to the single-page entry document.
    When the manifest names [index.html], its asset is stored, and every
    asset the manifest names is stored, a pathname is not answered 404
    unless it names a member that every object inherits ([constructor],
    [toString], ..) and the manifest has no entry of that name: a
    pathname the manifest does not know, and [/] itself, get the content
    of [index.html] with status 200 and a content type that is never
    empty. *)
Theorem static_route_falls_back_to_index
  (manifest STATIC_CONTENT getMimeType : string -> option string)
  (index content : string) (pathname : string) :
  manifest "index.html" = Some index -> index <> "" ->
  STATIC_CONTENT index = Some content ->
  (forall p k, manifest p = Some k -> k <> "" -> STATIC_CONTENT k <> None) ->
  (manifest (asset_path pathname) = None ->
   ~ In (asset_path pathname) object_prototype) ->
  response_status (get_static manifest STATIC_CONTENT getMimeType pathname)
  = 200
  /\ (truthy_string (manifest (asset_path pathname)) = false ->
      exists t,
        get_static manifest STATIC_CONTENT getMimeType pathname
        = Content content 200 t /\ t <> "")
  /\ (exists t,
        get_static manifest STATIC_CONTENT getMimeType "/"
        = Content content 200 t /\ t <> "").
Proof.
  intros Hi Hne Hc Hall Hown.
  assert (Hindex : manifest_get manifest "index.html" = Own index)
    by (unfold manifest_get; now rewrite Hi).
  assert (Hne' : String.eqb index "" = false)
    by (destruct (String.eqb_spec index ""); [contradiction | reflexivity]).
  assert (Hmiss : manifest (asset_path pathname) = None ->
                  manifest_get manifest (asset_path pathname) = Missing).
  { intros E. unfold manifest_get. rewrite E.
    destruct (existsb _ object_prototype) eqn:Ex; auto.
    apply existsb_exists in Ex. destruct Ex as (x & Hx & Ex).
    apply String.eqb_eq in Ex. subst x. now apply Hown in E. }
  assert (Hfall : truthy_string (manifest (asset_path pathname)) = false ->
            exists t,
              get_static manifest STATIC_CONTENT getMimeType pathname
              = Content content 200 t /\ t <> "").
  { intros Hf. unfold get_static.
    destruct (manifest (asset_path pathname)) as [k|] eqn:Ek.
    - unfold manifest_get at 1. rewrite Ek. simpl in Hf.
      apply negb_false_iff in Hf. simpl. rewrite Hf, Hindex, Hne', Hc.
      eexists. split; [reflexivity | apply mime_not_empty].
    - rewrite (Hmiss eq_refl). simpl. rewrite Hindex, Hne', Hc.
      eexists. split; [reflexivity | apply mime_not_empty]. }
  split; [|split].
  - destruct (truthy_string (manifest (asset_path pathname))) eqn:Ht.
    + unfold get_static.
      destruct (manifest (asset_path pathname)) as [k|] eqn:Ek;
        [|discriminate].
      unfold manifest_get at 1. rewrite Ek.
      simpl in Ht. apply negb_true_iff in Ht. simpl. rewrite Ht.
      simpl. rewrite Ht.
      destruct (STATIC_CONTENT k) eqn:Es; [reflexivity|].
      exfalso. eapply Hall; eauto.
      intros ->. discriminate.
    + destruct (Hfall eq_refl) as (t & -> & _). reflexivity.
  - exact Hfall.
  - unfold get_static. change (asset_path "/") with "index.html".
    rewrite Hindex. simpl. rewrite Hne'. simpl. rewrite Hne', Hc.
    eexists. split; [reflexivity | apply mime_not_empty].
Qed.

Lemma static_route_falls_back_to_index_witness :
  response_status
    (get_static
       (fun p => if String.eqb p "index.html" then Some "index.abc.html"
                 else None)
       (fun k => if String.eqb k "index.abc.html" then Some "<html>"
                 else None)
       (fun _ => None) "/wishlist/42")
  = 200.
Proof.
  apply (static_route_falls_back_to_index
           (fun p => if String.eqb p "index.html" then Some "index.abc.html"
                     else None)
           (fun k => if String.eqb k "index.abc.html" then Some "<html>"
                     else None)
           (fun _ => None) "index.abc.html" "<html>" "/wishlist/42").
  - reflexivity.
  - discriminate.
  - reflexivity.
  - intros p k H Hk.
    destruct (String.eqb p "index.html"); [|discriminate].
    injection H as <-. discriminate.
  - intros _. simpl. intuition discriminate.
Defined.

(** A pathname that names a member every object inherits finds that
    member in the manifest; the fallback is skipped and, nothing being
    stored under the member, the answer is 404. *)
Example static_route_of_an_inherited_member :
  map (get_static
         (fun p => if String.eqb p "index.html" then Some "index.abc.html"
                   else None)
         (fun k => if String.eqb k "index.abc.html" then Some "<html>"
                   else None)
         (fun _ => None))
      ["/constructor"; "/toString"; "/__proto__"]
  = [Text "Asset Not Found" 404; Text "Asset Not Found" 404;
     Text "Asset Not Found" 404].
Proof. reflexivity. Qed.

(** * Further properties of the client *)

Section Moves.

Context {A : Type}.

Lemma firstn_exact (a b : list A) : firstn (List.length a) (a ++ b) = a.
Proof.
  rewrite firstn_app, Nat.sub_diag, firstn_all. simpl. apply app_nil_r.
Qed.

Lemma skipn_exact (a b : list A) : skipn (List.length a) (a ++ b) = b.
Proof.
  rewrite skipn_app, Nat.sub_diag, skipn_all. reflexivity.
Qed.

Lemma findIndex_hit (test : A -> bool) (l1 l2 : list A) (x : A) :
  (forall a, In a l1 -> test a = false) -> test x = true ->
  findIndex test (l1 ++ x :: l2) = Z.of_nat (List.length l1).
Proof.
  intros H Hx. induction l1 as [|a l1 IH]; simpl findIndex.
  - now rewrite Hx.
  - rewrite (H a) by (left; reflexivity).
    rewrite IH by (intros; apply H; now right).
    destruct (Z.ltb_spec (Z.of_nat (List.length l1)) 0);
      simpl List.length; lia.
Qed.

Lemma findIndex_miss (test : A -> bool) (l : list A) :
  (forall a, In a l -> test a = false) -> findIndex test l = -1.
Proof.
  intros H. induction l as [|a l IH]; simpl; auto.
  rewrite (H a) by (left; reflexivity).
  rewrite IH by (intros; apply H; now right). reflexivity.
Qed.

Lemma arrayMove_split (l1 l2 : list A) (x : A) (to : Z) :
  arrayMove (l1 ++ x :: l2) (Z.of_nat (List.length l1)) to
  = Some (splice_in (l1 ++ l2)
            (if to <? 0
             then Z.of_nat (List.length l1 + S (List.length l2)) + to
             else to) x).
Proof.
  unfold arrayMove, splice_one, splice_start.
  replace (List.length (l1 ++ x :: l2))
    with (List.length l1 + S (List.length l2))%nat
    by (rewrite length_app; reflexivity).
  destruct (Z.ltb_spec (Z.of_nat (List.length l1)) 0); [lia|].
  rewrite Z.min_l, Nat2Z.id by lia.
  rewrite nth_error_app2, Nat.sub_diag by lia. simpl nth_error.
  rewrite firstn_exact.
  change (x :: l2) with ([x] ++ l2). rewrite app_assoc.
  replace (S (List.length l1)) with (List.length (l1 ++ [x]))
    by (rewrite length_app; simpl; lia).
  now rewrite skipn_exact.
Qed.

Lemma splice_in_at (a b : list A) (x : A) :
  splice_in (a ++ b) (Z.of_nat (List.length a)) x = a ++ x :: b.
Proof.
  unfold splice_in, splice_start.
  destruct (Z.ltb_spec (Z.of_nat (List.length a)) 0); [lia|].
  rewrite Z.min_l, Nat2Z.id by (rewrite length_app; lia).
  now rewrite firstn_exact, skipn_exact.
Qed.

(** The move of an element onto a later position and onto an earlier
    one. *)
Lemma arrayMove_forward (l1 l2 l3 : list A) (x y : A) :
  arrayMove (l1 ++ x :: l2 ++ y :: l3) (Z.of_nat (List.length l1))
    (Z.of_nat (List.length (l1 ++ x :: l2)))
  = Some (l1 ++ l2 ++ y :: x :: l3).
Proof.
  rewrite arrayMove_split.
  destruct (Z.ltb_spec (Z.of_nat (List.length (l1 ++ x :: l2))) 0); [lia|].
  replace (l1 ++ l2 ++ y :: l3) with ((l1 ++ l2 ++ [y]) ++ l3)
    by (rewrite <- !app_assoc; reflexivity).
  replace (List.length (l1 ++ x :: l2))
    with (List.length (l1 ++ l2 ++ [y]))
    by (rewrite !length_app; simpl; lia).
  rewrite splice_in_at. now rewrite <- !app_assoc.
Qed.

Lemma arrayMove_backward (l1 l2 l3 : list A) (x y : A) :
  arrayMove (l1 ++ y :: l2 ++ x :: l3)
    (Z.of_nat (List.length (l1 ++ y :: l2))) (Z.of_nat (List.length l1))
  = Some (l1 ++ x :: y :: l2 ++ l3).
Proof.
  replace (l1 ++ y :: l2 ++ x :: l3) with ((l1 ++ y :: l2) ++ x :: l3)
    by (rewrite <- app_assoc; reflexivity).
  rewrite arrayMove_split.
  destruct (Z.ltb_spec (Z.of_nat (List.length l1)) 0); [lia|].
  rewrite <- app_assoc. now rewrite splice_in_at.
Qed.

(** The move onto the position -1, the one [findIndex] gives for a
    target that is not in the array: the element goes last. *)
Lemma arrayMove_last (l1 l2 : list A) (x : A) :
  arrayMove (l1 ++ x :: l2) (Z.of_nat (List.length l1)) (-1)
  = Some (l1 ++ l2 ++ [x]).
Proof.
  rewrite arrayMove_split. simpl (-1 <? 0).
  replace (Z.of_nat (List.length l1 + S (List.length l2)) + -1)
    with (Z.of_nat (List.length (l1 ++ l2)))
    by (rewrite length_app; lia).
  rewrite <- (app_nil_r (l1 ++ l2)) at 1.
  rewrite splice_in_at. now rewrite <- app_assoc.
Qed.

End Moves.

Section DragShape.

Lemma unique_id (u v : list Item.t) (z b : Item.t) :
  NoDup (map Item.id (u ++ z :: v)) -> In b (u ++ v) ->
  Item.id b <> Item.id z.
Proof.
  rewrite map_app. simpl. intros H Hb E.
  apply NoDup_remove_2 in H. apply H. rewrite <- map_app, <- E.
  now apply in_map.
Qed.

(** Two items of a list with distinct ids stand one before the other. *)
Lemma two_split (l : list Item.t) (a o : Z) :
  NoDup (map Item.id l) -> In a (map Item.id l) -> In o (map Item.id l) ->
  a <> o ->
  exists l1 l2 l3 x y,
    Item.id x = a /\ Item.id y = o
    /\ (l = l1 ++ x :: l2 ++ y :: l3 \/ l = l1 ++ y :: l2 ++ x :: l3)
    /\ (forall b, In b (l1 ++ l2 ++ l3) -> Item.id b <> a /\ Item.id b <> o).
Proof.
  intros Hnd Ha Ho Hne.
  apply in_map_iff in Ha. destruct Ha as (x & Hx & Hin).
  apply in_split in Hin. destruct Hin as (p & q & ->).
  apply in_map_iff in Ho. destruct Ho as (y & Hy & Hin).
  apply in_app_or in Hin. destruct Hin as [Hin | [E | Hin]].
  - apply in_split in Hin. destruct Hin as (p1 & p2 & ->).
    exists p1, p2, q, x, y. repeat split; auto.
    + right. now rewrite <- app_assoc.
    + rewrite <- Hx. apply (unique_id (p1 ++ y :: p2) q x b); auto.
      rewrite !in_app_iff in *. simpl. tauto.
    + rewrite <- Hy.
      rewrite <- app_assoc in Hnd. simpl in Hnd.
      apply (unique_id p1 (p2 ++ x :: q) y b); auto.
      rewrite !in_app_iff in *. simpl. tauto.
  - subst y. congruence.
  - apply in_split in Hin. destruct Hin as (q1 & q2 & ->).
    exists p, q1, q2, x, y. repeat split; auto.
    + rewrite <- Hx. apply (unique_id p (q1 ++ y :: q2) x b); auto.
      rewrite !in_app_iff in *. simpl. tauto.
    + rewrite <- Hy.
      replace (p ++ x :: q1 ++ y :: q2) with ((p ++ x :: q1) ++ y :: q2) in Hnd
        by (rewrite <- app_assoc; reflexivity).
      apply (unique_id (p ++ x :: q1) q2 y b); auto.
      rewrite !in_app_iff in *. simpl. tauto.
Qed.

Variables (ta tb : Item.t -> bool).

Lemma move_forward (l1 l2 l3 : list Item.t) (x y : Item.t) :
  (forall b, In b l1 -> ta b = false) -> ta x = true ->
  (forall b, In b (l1 ++ x :: l2) -> tb b = false) -> tb y = true ->
  arrayMove (l1 ++ x :: l2 ++ y :: l3)
    (findIndex ta (l1 ++ x :: l2 ++ y :: l3))
    (findIndex tb (l1 ++ x :: l2 ++ y :: l3))
  = Some (l1 ++ l2 ++ y :: x :: l3).
Proof.
  intros Ha Hx Hb Hy.
  rewrite (findIndex_hit ta l1 _ x Ha Hx).
  replace (findIndex tb (l1 ++ x :: l2 ++ y :: l3))
    with (Z.of_nat (List.length (l1 ++ x :: l2))).
  - apply arrayMove_forward.
  - symmetry.
    replace (l1 ++ x :: l2 ++ y :: l3) with ((l1 ++ x :: l2) ++ y :: l3)
      by (rewrite <- app_assoc; reflexivity).
    now apply findIndex_hit.
Qed.

Lemma move_backward (l1 l2 l3 : list Item.t) (x y : Item.t) :
  (forall b, In b (l1 ++ y :: l2) -> ta b = false) -> ta x = true ->
  (forall b, In b l1 -> tb b = false) -> tb y = true ->
  arrayMove (l1 ++ y :: l2 ++ x :: l3)
    (findIndex ta (l1 ++ y :: l2 ++ x :: l3))
    (findIndex tb (l1 ++ y :: l2 ++ x :: l3))
  = Some (l1 ++ x :: y :: l2 ++ l3).
Proof.
  intros Ha Hx Hb Hy.
  rewrite (findIndex_hit tb l1 _ y Hb Hy).
  replace (findIndex ta (l1 ++ y :: l2 ++ x :: l3))
    with (Z.of_nat (List.length (l1 ++ y :: l2))).
  - apply arrayMove_backward.
  - symmetry.
    replace (l1 ++ y :: l2 ++ x :: l3) with ((l1 ++ y :: l2) ++ x :: l3)
      by (rewrite <- app_assoc; reflexivity).
    now apply findIndex_hit.
Qed.

End DragShape.

(** What a drag onto another item does to a list, and to the part of it a
    filter keeps, when the filter keeps both items. *)
Lemma drag_onto (l : list Item.t) (keep ta tb : Item.t -> bool) (a o : Z) :
  NoDup (map Item.id l) ->
  In a (map Item.id (filter keep l)) -> In o (map Item.id (filter keep l)) ->
  a <> o ->
  (forall i, ta i = (Item.id i =? a)) -> (forall i, tb i = (Item.id i =? o)) ->
  exists x newItems,
    In x l /\ Item.id x = a
    /\ arrayMove l (findIndex ta l) (findIndex tb l) = Some newItems
    /\ arrayMove (filter keep l) (findIndex ta (filter keep l))
         (findIndex tb (filter keep l)) = Some (filter keep newItems)
    /\ nth_error newItems (Z.to_nat (findIndex tb l)) = Some x
    /\ 0 <= findIndex tb l
    /\ filter (fun i => negb (Item.id i =? a)) newItems
       = filter (fun i => negb (Item.id i =? a)) l.
Proof.
  intros Hnd Ha Ho Hne Hta Htb.
  assert (Ha' : In a (map Item.id l)).
  { apply in_map_iff in Ha. destruct Ha as (x & E & Hx).
    apply filter_In in Hx. apply in_map_iff. exists x. tauto. }
  assert (Ho' : In o (map Item.id l)).
  { apply in_map_iff in Ho. destruct Ho as (x & E & Hx).
    apply filter_In in Hx. apply in_map_iff. exists x. tauto. }
  assert (Hkeep : forall z, In z l -> (Item.id z = a \/ Item.id z = o) ->
                            keep z = true).
  { intros z Hz Hid.
    assert (Hin : In (Item.id z) (map Item.id (filter keep l)))
      by (destruct Hid as [-> | ->]; assumption).
    apply in_map_iff in Hin. destruct Hin as (w & E & Hw).
    apply filter_In in Hw. destruct Hw as [Hw Hk].
    assert (w = z); [|now subst].
    apply in_split in Hz. destruct Hz as (u & v & ->).
    apply in_app_or in Hw. destruct Hw as [Hw | [Hw | Hw]]; auto;
      exfalso; apply (unique_id u v z w Hnd); auto;
      rewrite in_app_iff; tauto. }
  destruct (two_split l a o Hnd Ha' Ho' Hne)
    as (l1 & l2 & l3 & x & y & Hx & Hy & Hshape & Hothers).
  assert (Hta_x : ta x = true) by (rewrite Hta, Hx; apply Z.eqb_refl).
  assert (Htb_y : tb y = true) by (rewrite Htb, Hy; apply Z.eqb_refl).
  assert (Hta_y : ta y = false).
  { rewrite Hta, Hy. destruct (Z.eqb_spec o a); congruence. }
  assert (Htb_x : tb x = false).
  { rewrite Htb, Hx. destruct (Z.eqb_spec a o); congruence. }
  assert (Hta_o : forall b, In b (l1 ++ l2 ++ l3) -> ta b = false).
  { intros b Hb. rewrite Hta. destruct (Z.eqb_spec (Item.id b) a); auto.
    apply Hothers in Hb. tauto. }
  assert (Htb_o : forall b, In b (l1 ++ l2 ++ l3) -> tb b = false).
  { intros b Hb. rewrite Htb. destruct (Z.eqb_spec (Item.id b) o); auto.
    apply Hothers in Hb. tauto. }
  assert (Hsub : forall m b, In b (filter keep m) -> In b m)
    by (intros m b Hb; apply filter_In in Hb; tauto).
  assert (Hdrop : forall m, (forall b, In b m -> ta b = false) ->
            filter (fun i => negb (Item.id i =? a)) m = m).
  { intros m Hm. apply filter_all. intros b Hb.
    rewrite <- Hta, (Hm b Hb). reflexivity. }
  assert (Hda : forall z, ta z = true ->
            negb (Item.id z =? a) = false)
    by (intros z Hz; rewrite <- Hta, Hz; reflexivity).
  assert (Hdo : forall z, ta z = false ->
            negb (Item.id z =? a) = true)
    by (intros z Hz; rewrite <- Hta, Hz; reflexivity).
  assert (Hkx : keep x = true).
  { apply Hkeep; auto. destruct Hshape as [-> | ->];
      rewrite !in_app_iff; simpl; rewrite ?in_app_iff; simpl; tauto. }
  assert (Hky : keep y = true).
  { apply Hkeep; auto. destruct Hshape as [-> | ->];
      rewrite !in_app_iff; simpl; rewrite ?in_app_iff; simpl; tauto. }
  destruct Hshape as [-> | ->].
  - exists x, (l1 ++ l2 ++ y :: x :: l3).
    assert (H1 : forall b, In b l1 -> ta b = false)
      by (intros; apply Hta_o; rewrite !in_app_iff; tauto).
    assert (H2 : forall b, In b (l1 ++ x :: l2) -> tb b = false).
    { intros b Hb. apply in_app_or in Hb. destruct Hb as [Hb|[<-|Hb]]; auto;
        apply Htb_o; rewrite !in_app_iff; tauto. }
    split; [rewrite in_app_iff; simpl; tauto|]. split; [exact Hx|].
    split; [now apply move_forward|].
    split.
    { rewrite !filter_app. simpl. rewrite !filter_app. simpl.
      rewrite Hkx, Hky.
      apply move_forward; [|exact Hta_x| |exact Htb_y].
      - intros b Hb. apply H1. eapply Hsub; eauto.
      - intros b Hb. apply in_app_or in Hb.
        destruct Hb as [Hb|[<-|Hb]]; auto; apply Htb_o;
          apply Hsub in Hb; rewrite !in_app_iff; tauto. }
    replace (findIndex tb (l1 ++ x :: l2 ++ y :: l3))
      with (Z.of_nat (List.length (l1 ++ x :: l2))).
    2:{ symmetry.
        replace (l1 ++ x :: l2 ++ y :: l3) with ((l1 ++ x :: l2) ++ y :: l3)
          by (rewrite <- app_assoc; reflexivity).
        now apply findIndex_hit. }
    split.
    { rewrite Nat2Z.id.
      replace (l1 ++ l2 ++ y :: x :: l3) with ((l1 ++ l2 ++ [y]) ++ x :: l3)
        by (rewrite <- !app_assoc; reflexivity).
      replace (List.length (l1 ++ x :: l2))
        with (List.length (l1 ++ l2 ++ [y]))
        by (rewrite !length_app; simpl; lia).
      rewrite nth_error_app2, Nat.sub_diag by lia. reflexivity. }
    split; [lia|].
    rewrite !filter_app. simpl. rewrite !filter_app. simpl.
    now rewrite (Hda x Hta_x), (Hdo y Hta_y).
  - exists x, (l1 ++ x :: y :: l2 ++ l3).
    assert (H1 : forall b, In b l1 -> tb b = false)
      by (intros; apply Htb_o; rewrite !in_app_iff; tauto).
    assert (H2 : forall b, In b (l1 ++ y :: l2) -> ta b = false).
    { intros b Hb. apply in_app_or in Hb. destruct Hb as [Hb|[<-|Hb]]; auto;
        apply Hta_o; rewrite !in_app_iff; tauto. }
    split; [rewrite in_app_iff; simpl; rewrite in_app_iff; simpl; tauto|].
    split; [exact Hx|].
    split; [now apply move_backward|].
    split.
    { rewrite !filter_app. simpl. rewrite !filter_app. simpl.
      rewrite Hkx, Hky, ?filter_app.
      apply move_backward; [|exact Hta_x| |exact Htb_y].
      - intros b Hb. apply in_app_or in Hb.
        destruct Hb as [Hb|[<-|Hb]]; auto; apply Hta_o;
          apply Hsub in Hb; rewrite !in_app_iff; tauto.
      - intros b Hb. apply H1. eapply Hsub; eauto. }
    rewrite (findIndex_hit tb l1 _ y H1 Htb_y).
    split.
    { rewrite Nat2Z.id, nth_error_app2, Nat.sub_diag by lia. reflexivity. }
    split; [lia|].
    rewrite !filter_app. simpl. rewrite !filter_app. simpl.
    now rewrite (Hda x Hta_x), (Hdo y Hta_y).
Qed.

Lemma filter_true {A : Type} (l : list A) : filter (fun _ => true) l = l.
Proof. apply filter_all. reflexivity. Qed.

(** The rendered sequence is the list filtered by one test, whatever the
    list. *)
Lemma filteredItems_filter (st : App.t) :
  exists keep : Item.t -> bool,
    forall l, filteredItems (with_items l st) = filter keep l.
Proof.
  unfold filteredItems, with_items. simpl.
  destruct (String.eqb (App.activeCategory st) "All").
  - exists (fun _ => true). intros l. now rewrite filter_true.
  - eexists. intros l. reflexivity.
Qed.

Lemma with_items_same (st : App.t) : with_items (App.items st) st = st.
Proof. now destruct st. Qed.

Lemma is_over_some (event : DragEndEvent.t) (o : Z) (i : Item.t) :
  DragEndEvent.over event = Some o -> is_over event i = (Item.id i =? o).
Proof. unfold is_over. now intros ->. Qed.

(** X9.  Dragging an item onto another one puts the dragged item at the
    index the target had in the list, and leaves the other items in the
    order they were in. *)
Theorem drag_puts_the_item_at_the_index_of_the_target
  (event : DragEndEvent.t) (st : App.t) (o : Z) :
  NoDup (map Item.id (App.items st)) ->
  In (DragEndEvent.active event) (map Item.id (App.items st)) ->
  DragEndEvent.over event = Some o ->
  In o (map Item.id (App.items st)) ->
  o <> DragEndEvent.active event ->
  exists x newItems requests,
    handleDragEnd event st = Some (with_items newItems st, requests)
    /\ In x (App.items st) /\ Item.id x = DragEndEvent.active event
    /\ 0 <= findIndex (is_over event) (App.items st)
    /\ nth_error newItems
         (Z.to_nat (findIndex (is_over event) (App.items st))) = Some x
    /\ without (DragEndEvent.active event) newItems
       = without (DragEndEvent.active event) (App.items st).
Proof.
  intros Hnd Ha Hov Ho Hne.
  destruct (drag_onto (App.items st) (fun _ => true) (is_active event)
              (is_over event) (DragEndEvent.active event) o)
    as (x & newItems & Hx & Hid & Hmove & _ & Hnth & Hpos & Hrest); auto.
  - now rewrite filter_true.
  - now rewrite filter_true.
  - intros i. now apply is_over_some.
  - exists x, newItems. eexists.
    split; [|repeat split; eauto].
    rewrite handleDragEnd_eq, Hmove; [reflexivity|].
    rewrite Hov. congruence.
Qed.

Lemma drag_puts_the_item_at_the_index_of_the_target_witness :
  exists x newItems requests,
    handleDragEnd (DragEndEvent.mk 4 (Some 2)) app_toys
    = Some (with_items newItems app_toys, requests)
    /\ In x (App.items app_toys) /\ Item.id x = 4
    /\ 0 <= findIndex (is_over (DragEndEvent.mk 4 (Some 2)))
              (App.items app_toys)
    /\ nth_error newItems
         (Z.to_nat (findIndex (is_over (DragEndEvent.mk 4 (Some 2)))
                      (App.items app_toys))) = Some x
    /\ without 4 newItems = without 4 (App.items app_toys).
Proof.
  apply (drag_puts_the_item_at_the_index_of_the_target
           (DragEndEvent.mk 4 (Some 2)) app_toys 2).
  - simpl. repeat constructor; simpl; intuition discriminate.
  - simpl. tauto.
  - reflexivity.
  - simpl. tauto.
  - simpl. discriminate.
Defined.

(** X10.  Under a category filter the positions are taken in the full
    list, yet the grid shows what a move inside the rendered sequence
    would show: when both the dragged item and the target are rendered,
    the sequence rendered after the drag is the rendered sequence with the
    dragged item moved from its rendered position onto the rendered
    position of the target. *)
Theorem drag_moves_the_item_within_the_rendered_sequence
  (event : DragEndEvent.t) (st : App.t) (o : Z) :
  NoDup (map Item.id (App.items st)) ->
  In (DragEndEvent.active event) (map Item.id (filteredItems st)) ->
  DragEndEvent.over event = Some o ->
  In o (map Item.id (filteredItems st)) ->
  o <> DragEndEvent.active event ->
  exists newItems requests,
    handleDragEnd event st = Some (with_items newItems st, requests)
    /\ arrayMove (filteredItems st)
         (findIndex (is_active event) (filteredItems st))
         (findIndex (is_over event) (filteredItems st))
       = Some (filteredItems (with_items newItems st)).
Proof.
  intros Hnd Ha Hov Ho Hne.
  destruct (filteredItems_filter st) as (keep & Hkeep).
  pose proof (Hkeep (App.items st)) as Hshown.
  rewrite with_items_same in Hshown. rewrite Hshown in *.
  destruct (drag_onto (App.items st) keep (is_active event)
              (is_over event) (DragEndEvent.active event) o)
    as (x & newItems & _ & _ & Hmove & Hview & _); auto.
  - intros i. now apply is_over_some.
  - exists newItems. eexists. split.
    + rewrite handleDragEnd_eq, Hmove; [reflexivity|].
      rewrite Hov. congruence.
    + now rewrite Hkeep.
Qed.

Lemma drag_moves_the_item_within_the_rendered_sequence_witness :
  exists newItems requests,
    handleDragEnd (DragEndEvent.mk 1 (Some 3)) app_toys
    = Some (with_items newItems app_toys, requests)
    /\ arrayMove (filteredItems app_toys)
         (findIndex (is_active (DragEndEvent.mk 1 (Some 3)))
                    (filteredItems app_toys))
         (findIndex (is_over (DragEndEvent.mk 1 (Some 3)))
                    (filteredItems app_toys))
       = Some (filteredItems (with_items newItems app_toys)).
Proof.
  apply (drag_moves_the_item_within_the_rendered_sequence
           (DragEndEvent.mk 1 (Some 3)) app_toys 3).
  - simpl. repeat constructor; simpl; intuition discriminate.
  - simpl. tauto.
  - reflexivity.
  - simpl. tauto.
  - simpl. discriminate.
Defined.

(** X11.  A drag that ends over nothing ([over] is null), or over an id
    that is not in the list, moves the dragged item to the end of the
    list: the other items keep their order and the dragged one comes
    last. *)
Theorem drop_outside_moves_the_item_last
  (event : DragEndEvent.t) (st : App.t) :
  NoDup (map Item.id (App.items st)) ->
  In (DragEndEvent.active event) (map Item.id (App.items st)) ->
  (forall o, DragEndEvent.over event = Some o ->
             ~ In o (map Item.id (App.items st))) ->
  exists x requests,
    In x (App.items st) /\ Item.id x = DragEndEvent.active event
    /\ handleDragEnd event st
       = Some (with_items
                 (without (DragEndEvent.active event) (App.items st) ++ [x])
                 st,
               requests).
Proof.
  intros Hnd Ha Hout.
  apply in_map_iff in Ha. destruct Ha as (x & Hx & Hin).
  pose proof Hin as Hin'.
  apply in_split in Hin. destruct Hin as (l1 & l2 & Hl).
  rewrite Hl in Hnd.
  assert (Hothers : forall b, In b (l1 ++ l2) ->
            Item.id b <> DragEndEvent.active event).
  { intros b Hb. rewrite <- Hx. now apply (unique_id l1 l2 x b). }
  assert (Hmiss : findIndex (is_over event) (App.items st) = -1).
  { apply findIndex_miss. intros b Hb. unfold is_over.
    destruct (DragEndEvent.over event) as [o|] eqn:Ho; auto.
    destruct (Z.eqb_spec (Item.id b) o); auto.
    exfalso. apply (Hout o eq_refl). subst o. now apply in_map. }
  assert (Hhit : findIndex (is_active event) (App.items st)
                 = Z.of_nat (List.length l1)).
  { rewrite Hl. apply findIndex_hit.
    - intros b Hb. unfold is_active.
      destruct (Z.eqb_spec (Item.id b) (DragEndEvent.active event)); auto.
      exfalso. apply (Hothers b); auto. rewrite in_app_iff. tauto.
    - unfold is_active. rewrite Hx. apply Z.eqb_refl. }
  exists x. eexists. split; [exact Hin'|]. split; [exact Hx|].
  rewrite handleDragEnd_eq.
  2:{ intros Ho. apply (Hout _ Ho). rewrite <- Hx. now apply in_map. }
  rewrite Hmiss, Hhit. rewrite Hl at 1. rewrite arrayMove_last.
  replace (without (DragEndEvent.active event) (App.items st))
    with (l1 ++ l2); [rewrite <- app_assoc; reflexivity|].
  rewrite Hl. unfold without. rewrite filter_app. simpl.
  rewrite Hx, Z.eqb_refl. simpl. rewrite <- filter_app.
  symmetry. apply filter_all. intros b Hb.
  destruct (Z.eqb_spec (Item.id b) (DragEndEvent.active event)); auto.
  exfalso. now apply (Hothers b).
Qed.

Lemma drop_outside_moves_the_item_last_witness :
  exists x requests,
    In x (App.items app_ABC) /\ Item.id x = 1
    /\ handleDragEnd (DragEndEvent.mk 1 None) app_ABC
       = Some (with_items (without 1 (App.items app_ABC) ++ [x]) app_ABC,
               requests).
Proof.
  apply (drop_outside_moves_the_item_last (DragEndEvent.mk 1 None) app_ABC).
  - simpl. repeat constructor; simpl; intuition discriminate.
  - simpl. tauto.
  - simpl. discriminate.
Defined.

(** ** A reorder and the table *)

Section ReorderTable.

Variable now : Z.

Lemma same_but_priority_refl (rows : list Row.t) :
  Forall2 same_but_priority rows rows.
Proof.
  induction rows; constructor; auto. unfold same_but_priority. tauto.
Qed.

Lemma same_but_priority_put (i k : Z) (rows : list Row.t) :
  Forall2 same_but_priority rows (map (patch_at i (priority_body k)) rows).
Proof.
  induction rows as [|r rows IH]; simpl; constructor; auto.
  unfold same_but_priority, patch_at.
  destruct (Row.id r =? i); simpl; tauto.
Qed.

Lemma same_but_priority_trans (l1 l2 l3 : list Row.t) :
  Forall2 same_but_priority l1 l2 -> Forall2 same_but_priority l2 l3 ->
  Forall2 same_but_priority l1 l3.
Proof.
  intros H. revert l3. induction H as [|a b l1 l2 Hab _ IH]; intros l3 H3;
    inversion H3; subst; constructor; auto.
  unfold same_but_priority in *. intuition congruence.
Qed.

Lemma serve_priorities_frame (L : list (Z * Z)) (db : Db.t) :
  Forall2 same_but_priority (Db.items db)
    (Db.items (serve_all now (map priority_request L) db)).
Proof.
  revert db. induction L as [|[i k] L IH]; intros db; cbn [map serve_all].
  - apply same_but_priority_refl.
  - change (serve now (priority_request (i, k)) db)
      with (put_items i (priority_body k) db).
    rewrite put_priority. cbn [snd].
    eapply same_but_priority_trans; [|apply IH].
    apply same_but_priority_put.
Qed.

Lemma same_but_priority_ids (l l' : list Row.t) :
  Forall2 same_but_priority l l' -> map Row.id l' = map Row.id l.
Proof.
  induction 1 as [|a b l l' Hab _ IH]; simpl; auto.
  destruct Hab as (-> & _). now rewrite IH.
Qed.

Lemma find_unique (rows : list Row.t) (r : Row.t) :
  NoDup (map Row.id rows) -> In r rows ->
  find (fun r' => Row.id r' =? Row.id r) rows = Some r.
Proof.
  induction rows as [|h rows IH]; simpl; [tauto|].
  intros Hnd Hin. inversion Hnd as [|? ? Hh Hnd']; subst.
  destruct Hin as [-> | Hin].
  - now rewrite Z.eqb_refl.
  - destruct (Z.eqb_spec (Row.id h) (Row.id r)) as [E|E]; auto.
    exfalso. apply Hh. rewrite E. now apply in_map.
Qed.

End ReorderTable.

Section SortedByKey.

Variable key : Z -> Z.

Lemma sorted_by_key_unique (L1 L2 : list Z) :
  Permutation L1 L2 ->
  StronglySorted (fun a b => key a < key b) L1 ->
  StronglySorted (fun a b => key a < key b) L2 ->
  L1 = L2.
Proof.
  revert L2. induction L1 as [|a t IH]; intros L2 Hp H1 H2.
  - now apply Permutation_nil in Hp.
  - destruct L2 as [|b t2];
      [apply Permutation_sym, Permutation_nil in Hp; discriminate|].
    apply StronglySorted_inv in H1. destruct H1 as [H1 Ha].
    apply StronglySorted_inv in H2. destruct H2 as [H2 Hb].
    assert (a = b).
    { destruct (Z.eq_dec a b) as [E|E]; auto. exfalso.
      assert (Hin : In a (b :: t2))
        by (apply (Permutation_in _ Hp); now left).
      assert (Hin' : In b (a :: t))
        by (apply (Permutation_in _ (Permutation_sym Hp)); now left).
      destruct Hin as [Hin|Hin]; [congruence|].
      destruct Hin' as [Hin'|Hin']; [congruence|].
      pose proof (proj1 (Forall_forall _ _) Hb a Hin) as Hba.
      pose proof (proj1 (Forall_forall _ _) Ha b Hin') as Hab.
      cbv beta in Hba, Hab. lia. }
    subst b. f_equal. apply IH; auto.
    now apply Permutation_cons_inv in Hp.
Qed.

Lemma sorted_items (l : list Item.t) (off : Z) :
  (forall k item, nth_error l k = Some item ->
                  key (Item.id item) = off + Z.of_nat k) ->
  StronglySorted (fun a b => key a < key b) (map Item.id l).
Proof.
  revert off. induction l as [|x l IH]; intros off H; simpl; constructor.
  - apply (IH (off + 1)). intros k item Hk.
    rewrite (H (S k) item Hk). lia.
  - apply Forall_forall. intros b Hb.
    apply in_map_iff in Hb. destruct Hb as (y & <- & Hy).
    apply In_nth_error in Hy. destruct Hy as (k & Hk).
    rewrite (H 0%nat x eq_refl), (H (S k) y Hk). lia.
Qed.

Lemma sorted_rows (P : list Row.t) :
  StronglySorted priority_asc_created_desc P ->
  (forall r, In r P -> Row.priority r = SNum (key (Row.id r))) ->
  NoDup (map Row.id P) ->
  (forall a b, In a (map Row.id P) -> In b (map Row.id P) ->
               key a = key b -> a = b) ->
  StronglySorted (fun a b => key a < key b) (map Row.id P).
Proof.
  induction 1 as [|r t Ht IH Hr]; intros Hprio Hnd Hinj; simpl; constructor.
  - apply IH.
    + intros; apply Hprio; now right.
    + now inversion Hnd.
    + intros a b Ha Hb. apply Hinj; now right.
  - apply Forall_forall. intros b Hb.
    apply in_map_iff in Hb. destruct Hb as (r' & <- & Hr').
    pose proof (proj1 (Forall_forall _ _) Hr r' Hr') as Hle.
    unfold priority_asc_created_desc in Hle.
    rewrite (Hprio r), (Hprio r') in Hle by (simpl; auto).
    simpl in Hle. destruct Hle as [Hlt | [E _]].
    + exact Hlt.
    + exfalso.
      assert (Row.id r = Row.id r').
      { apply Hinj; simpl; auto. right. now apply in_map. }
      inversion Hnd as [|? ? Hni _]; subst. apply Hni.
      rewrite H. now apply in_map.
Qed.

End SortedByKey.

Lemma index_of_nth (l : list Item.t) (k : nat) (item : Item.t) :
  NoDup (map Item.id l) -> nth_error l k = Some item ->
  findIndex (fun i => Item.id i =? Item.id item) l = Z.of_nat k.
Proof.
  intros Hnd Hk. apply nth_error_split in Hk.
  destruct Hk as (l1 & l2 & -> & <-).
  apply findIndex_hit; [|apply Z.eqb_refl].
  intros b Hb. destruct (Z.eqb_spec (Item.id b) (Item.id item)); auto.
  exfalso. apply (unique_id l1 l2 item b Hnd); auto.
  rewrite in_app_iff. tauto.
Qed.

(** X12.  When the table holds exactly the items of the list (ids
    distinct), a drag followed by a refetch shows the order the drag
    produced: once the requests of the drag have arrived, in any order,
    [listAll] returns the rows in the order of the new list. *)
Theorem refetch_after_a_drag_gives_the_new_order
  (now : Z) (event : DragEndEvent.t) (st : App.t)
  (db : Db.t) :
  NoDup (map Item.id (App.items st)) ->
  Permutation (map Row.id (Db.items db)) (map Item.id (App.items st)) ->
  In (DragEndEvent.active event) (map Item.id (App.items st)) ->
  DragEndEvent.over event <> Some (DragEndEvent.active event) ->
  exists newItems requests,
    handleDragEnd event st = Some (with_items newItems st, requests)
    /\ forall arrived, Permutation requests arrived ->
         map Row.id (listAll (serve_all now arrived db))
         = map Item.id newItems.
Proof.
  intros Hnd Hrows Hin Hne.
  destruct (handleDragEnd_returns event st Hin) as (newItems & Hmove).
  pose proof (arrayMove_perm _ _ _ _ Hmove) as Hperm.
  exists newItems,
    (map priority_request
       (forEach (fun item index => (Item.id item, index)) newItems)).
  split; [now rewrite handleDragEnd_eq, Hmove|].
  intros arrived Harr.
  apply arrived_requests in Harr. destruct Harr as (L' & -> & HL).
  set (db' := serve_all now (map priority_request L') db).
  assert (HndNew : NoDup (map Item.id newItems))
    by (apply (Permutation_NoDup (Permutation_map Item.id Hperm) Hnd)).
  assert (HndL : NoDup (map fst L')).
  { apply (Permutation_NoDup (Permutation_map fst HL)).
    unfold forEach. now rewrite forEach_from_keys. }
  assert (Hids : map Row.id (Db.items db') = map Row.id (Db.items db))
    by (apply same_but_priority_ids, serve_priorities_frame).
  assert (HidsNew : Permutation (map Row.id (Db.items db'))
                      (map Item.id newItems)).
  { rewrite Hids. eapply perm_trans; [exact Hrows|].
    now apply Permutation_map. }
  assert (HndRows : NoDup (map Row.id (Db.items db')))
    by (apply (Permutation_NoDup (Permutation_sym HidsNew) HndNew)).
  set (key := fun id => findIndex (fun i => Item.id i =? id) newItems).
  assert (Hkey : forall k item, nth_error newItems k = Some item ->
            key (Item.id item) = Z.of_nat k)
    by (intros; now apply index_of_nth).
  assert (Hprio : forall r, In r (Db.items db') ->
            Row.priority r = SNum (key (Row.id r))).
  { intros r Hr.
    assert (Hid : In (Row.id r) (map Item.id newItems))
      by (apply (Permutation_in _ HidsNew); now apply in_map).
    apply in_map_iff in Hid. destruct Hid as (item & Hitem & Hi).
    apply In_nth_error in Hi. destruct Hi as (k & Hk).
    assert (HinL : In (Item.id item, Z.of_nat k) L')
      by (apply (Permutation_in _ HL); now apply indexed_in).
    pose proof (serve_priorities_written now L' (Item.id item)
                  (Z.of_nat k) db HndL HinL) as Hw.
    fold db' in Hw.
    unfold priority_of, lookup in Hw. rewrite Hitem in Hw.
    rewrite (find_unique _ r HndRows Hr) in Hw. simpl in Hw.
    rewrite <- Hitem, (Hkey k item Hk).
    destruct (find _ (Db.items db)); simpl in Hw; congruence. }
  apply (sorted_by_key_unique key).
  - eapply perm_trans; [|exact HidsNew].
    apply Permutation_map, Permutation_sym.
    unfold listAll, select_items. apply sql_order_perm.
  - assert (HP : Permutation (Db.items db') (listAll db'))
      by (unfold listAll, select_items; apply sql_order_perm).
    apply sorted_rows.
    + unfold listAll, select_items. apply sql_order_sorted.
    + intros r Hr. apply Hprio.
      apply (Permutation_in _ (Permutation_sym HP)). exact Hr.
    + apply (Permutation_NoDup (Permutation_map Row.id HP) HndRows).
    + intros a b Ha Hb E.
      assert (Ha' : In a (map Item.id newItems)).
      { apply (Permutation_in _ HidsNew).
        apply (Permutation_in _ (Permutation_sym
                                   (Permutation_map Row.id HP))). exact Ha. }
      assert (Hb' : In b (map Item.id newItems)).
      { apply (Permutation_in _ HidsNew).
        apply (Permutation_in _ (Permutation_sym
                                   (Permutation_map Row.id HP))). exact Hb. }
      apply in_map_iff in Ha'. destruct Ha' as (ia & <- & Hia).
      apply in_map_iff in Hb'. destruct Hb' as (ib & <- & Hib).
      apply In_nth_error in Hia. destruct Hia as (ka & Hka).
      apply In_nth_error in Hib. destruct Hib as (kb & Hkb).
      rewrite (Hkey _ _ Hka), (Hkey _ _ Hkb) in E.
      apply Nat2Z.inj in E. subst kb. congruence.
  - apply (sorted_items key newItems 0). intros k item Hk.
    rewrite (Hkey k item Hk). lia.
Qed.

Lemma refetch_after_a_drag_gives_the_new_order_witness :
  exists newItems requests,
    handleDragEnd (DragEndEvent.mk 3 (Some 1)) app_ABC
    = Some (with_items newItems app_ABC, requests)
    /\ forall arrived, Permutation requests arrived ->
         map Row.id (listAll (serve_all 2000 arrived db_ABC))
         = map Item.id newItems.
Proof.
  apply (refetch_after_a_drag_gives_the_new_order
           2000 (DragEndEvent.mk 3 (Some 1)) app_ABC db_ABC).
  - simpl. repeat constructor; simpl; intuition discriminate.
  - simpl. apply Permutation_refl.
  - simpl. tauto.
  - simpl. discriminate.
Defined.

Section ClientAndTable.

Variable now : Z.

Lemma handleDragEnd_onto_itself (event : DragEndEvent.t) (st : App.t) :
  DragEndEvent.over event = Some (DragEndEvent.active event) ->
  handleDragEnd event st = Some (st, []).
Proof.
  intros H. unfold handleDragEnd. now rewrite H, Z.eqb_refl.
Qed.

Lemma priority_requests_only (requests arrived : list request) :
  (exists L, requests = map priority_request L) ->
  (forall rq, In rq arrived -> In rq requests) ->
  exists L', arrived = map priority_request L'.
Proof.
  intros (L & ->) H. induction arrived as [|rq arrived IH].
  - now exists [].
  - destruct IH as (L' & ->); [intros; apply H; now right|].
    assert (Hin : In rq (map priority_request L)) by (apply H; now left).
    apply in_map_iff in Hin. destruct Hin as (p & <- & _).
    now exists (p :: L').
Qed.

Lemma serve_priorities_sequence (L : list (Z * Z)) (db : Db.t) :
  Db.sqlite_sequence (serve_all now (map priority_request L) db)
  = Db.sqlite_sequence db.
Proof.
  revert db. induction L as [|[i k] L IH]; intros db; cbn [map serve_all].
  - reflexivity.
  - change (serve now (priority_request (i, k)) db)
      with (put_items i (priority_body k) db).
    rewrite put_priority. cbn [snd]. now rewrite IH.
Qed.

Lemma sort_insert_below (r x : Row.t) (l : list Row.t) :
  order_leb r x = true ->
  sort_insert r (l ++ [x]) = sort_insert r l ++ [x].
Proof.
  intros H. induction l as [|h t IH]; simpl.
  - now rewrite H.
  - destruct (order_leb r h); simpl; auto. now rewrite IH.
Qed.

Lemma sql_order_last (rows : list Row.t) (x : Row.t) :
  (forall r, In r rows -> order_leb r x = true) ->
  sql_order (rows ++ [x]) = sql_order rows ++ [x].
Proof.
  induction rows as [|r rows IH]; intros H; simpl; auto.
  rewrite IH by (intros; apply H; now right).
  apply sort_insert_below. apply H. now left.
Qed.

Lemma delete_lookup_gone (id : Z) (db : Db.t) :
  lookup id (snd (delete_item id db)) = None.
Proof.
  unfold lookup. simpl.
  destruct (find _ _) as [r|] eqn:E; auto.
  apply find_some in E. destruct E as [Hin He].
  apply filter_In in Hin. destruct Hin as [_ Hn].
  simpl in Hn. rewrite He in Hn. discriminate.
Qed.

Lemma put_keeps_order_without_priority (id : Z) (body : Body.t) (db : Db.t) :
  Body.priority body = JUndefined ->
  map Row.id (listAll (snd (put_items id body db)))
  = map Row.id (listAll db).
Proof.
  intros Hp. rewrite put_items_eq.
  destruct (no_field body); simpl; auto.
  destruct (bindable body); simpl; auto.
  destruct (_ && _); simpl; auto.
  unfold listAll, select_items. simpl.
  rewrite sql_order_map by (intros a b; now apply patch_at_order).
  apply map_id_patch.
Qed.

End ClientAndTable.

(** X13.  A reorder writes priorities and nothing else: whichever of the
    requests of a drag arrive, in whatever order and number, the table
    keeps its rows in place, each with its id, name, price, url, image
    key, category and creation time, and the rowid counter does not
    move. *)
Theorem reorder_writes_nothing_but_priorities
  (now : Z) (event : DragEndEvent.t)
  (st st' : App.t) (requests arrived : list request) (db : Db.t) :
  handleDragEnd event st = Some (st', requests) ->
  (forall rq, In rq arrived -> In rq requests) ->
  Forall2 same_but_priority (Db.items db)
    (Db.items (serve_all now arrived db))
  /\ Db.sqlite_sequence (serve_all now arrived db)
     = Db.sqlite_sequence db.
Proof.
  intros Hdrag Harr.
  assert (HL : exists L, requests = map priority_request L).
  { destruct (DragEndEvent.over event) as [o|] eqn:Ho.
    - destruct (Z.eq_dec o (DragEndEvent.active event)) as [-> | Hne].
      + rewrite (handleDragEnd_onto_itself _ _ Ho) in Hdrag.
        injection Hdrag as _ <-. now exists [].
      + rewrite handleDragEnd_eq in Hdrag by (rewrite Ho; congruence).
        destruct (arrayMove _ _ _); [|discriminate].
        injection Hdrag as _ <-. eauto.
    - rewrite handleDragEnd_eq in Hdrag by (rewrite Ho; discriminate).
      destruct (arrayMove _ _ _); [|discriminate].
      injection Hdrag as _ <-. eauto. }
  destruct (priority_requests_only _ _ HL Harr) as (L' & ->).
  split; [apply serve_priorities_frame | apply serve_priorities_sequence].
Qed.

Lemma reorder_writes_nothing_but_priorities_witness :
  Forall2 same_but_priority (Db.items db_toys)
    (Db.items (serve_all 2000
                 [PUT_items 4 (priority_body 3); PUT_items 2 (priority_body 0);
                  PUT_items 4 (priority_body 3)] db_toys))
  /\ Db.sqlite_sequence
       (serve_all 2000
          [PUT_items 4 (priority_body 3); PUT_items 2 (priority_body 0);
           PUT_items 4 (priority_body 3)] db_toys)
     = Db.sqlite_sequence db_toys.
Proof.
  apply (reorder_writes_nothing_but_priorities 2000
           (DragEndEvent.mk 1 (Some 3)) app_toys
           (with_items [item_K1; item_T2; item_T1; item_K2] app_toys)
           [PUT_items 2 (priority_body 0); PUT_items 3 (priority_body 1);
            PUT_items 1 (priority_body 2); PUT_items 4 (priority_body 3)]).
  - reflexivity.
  - simpl. intuition.
Defined.

(** X14.  A new item goes to the end of the list: when every stored
    priority sorts before the length of the client's list (as it does
    after a reorder of that list), the [listAll] that follows the
    creation is the former [listAll] followed by the new row. *)
Theorem created_item_is_listed_last
  (parseFloat : string -> option Z) (date_now : Z) (st : App.t)
  (now : Z) (db : Db.t) :
  App.isSubmitting st = false ->
  App.editingItem st = None ->
  (forall r, In r (Db.items db) ->
     sql_compare (Row.priority r)
       (SNum (Z.of_nat (List.length (App.items st)))) = Lt) ->
  exists row,
    listAll (serve_all now (snd (handleSubmit parseFloat date_now st)) db)
    = listAll db ++ [row]
    /\ Row.id row = next_rowid db
    /\ Row.priority row = SNum (Z.of_nat (List.length (App.items st))).
Proof.
  intros Hs Hed Hlt.
  destruct (handleSubmit_requests parseFloat date_now st Hs)
    as (upload & imageKey & Hup & ->).
  rewrite (serve_submit now upload _ db Hup), Hed. cbn [serve].
  assert (Hprio : Body.priority (payload parseFloat imageKey st)
                  = JNum (Z.of_nat (List.length (App.items st))))
    by (unfold payload; now rewrite Hed).
  destruct (post_items_eq now (payload parseFloat imageKey st) db)
    as [[_ ->]|[Hr _]];
    [|rewrite payload_accepted in Hr; discriminate].
  cbn [snd].
  assert (Hrow : Row.priority
                   (inserted_row (next_rowid db) now
                      (payload parseFloat imageKey st))
                 = SNum (Z.of_nat (List.length (App.items st)))).
  { unfold inserted_row. cbn [Row.priority]. rewrite Hprio.
    unfold js_or. simpl.
    destruct (Z.eqb_spec (Z.of_nat (List.length (App.items st))) 0) as [E|E];
      simpl; [now rewrite E | reflexivity]. }
  exists (inserted_row (next_rowid db) now (payload parseFloat imageKey st)).
  split; [|split; [reflexivity | exact Hrow]].
  unfold listAll, select_items. cbn [Db.items].
  apply sql_order_last. intros r Hr.
  unfold order_leb, order_by. rewrite Hrow, (Hlt r Hr). reflexivity.
Qed.

Lemma created_item_is_listed_last_witness :
  exists row,
    listAll (serve_all 2000
               (snd (handleSubmit parseFloat_fixture 0 app_new_D)) db_ABC)
    = listAll db_ABC ++ [row]
    /\ Row.id row = next_rowid db_ABC
    /\ Row.priority row = SNum (Z.of_nat (List.length (App.items app_new_D))).
Proof.
  apply (created_item_is_listed_last parseFloat_fixture 0 app_new_D
           2000 db_ABC).
  - reflexivity.
  - reflexivity.
  - simpl. intros r [<- | [<- | [<- | []]]]; reflexivity.
Defined.

(** X15.  Saving an edit never moves an item: the update the form sends
    carries no priority, and the [listAll] that follows gives the ids in
    the order it gave them before. *)
Theorem saving_an_edit_keeps_the_order
  (parseFloat : string -> option Z) (date_now : Z) (st : App.t)
  (item : Item.t) (now : Z) (db : Db.t) :
  App.isSubmitting st = false ->
  App.editingItem st = Some item ->
  map Row.id
    (listAll (serve_all now (snd (handleSubmit parseFloat date_now st)) db))
  = map Row.id (listAll db).
Proof.
  intros Hs Hed.
  destruct (handleSubmit_requests parseFloat date_now st Hs)
    as (upload & imageKey & Hup & ->).
  rewrite (serve_submit now upload _ db Hup), Hed. cbn [serve].
  apply put_keeps_order_without_priority.
  unfold payload. now rewrite Hed.
Qed.

Lemma saving_an_edit_keeps_the_order_witness :
  map Row.id
    (listAll (serve_all 2000
                (snd (handleSubmit parseFloat_fixture 0 app_edit_B)) db_ABC))
  = map Row.id (listAll db_ABC).
Proof.
  apply (saving_an_edit_keeps_the_order parseFloat_fixture 0 app_edit_B
           item_B 2000 db_ABC); reflexivity.
Defined.

(** X16.  [handleDelete] sends nothing unless an item is being edited and
    the user confirms; then it sends one delete for the edited item,
    followed by the refetch, and once they are served no row of that id
    is left while every other id finds the row it found before. *)
Theorem handleDelete_removes_the_edited_item_only
  (confirmed : bool) (st : App.t) (now : Z)
  (db : Db.t) :
  match App.editingItem st with
  | Some item =>
      if confirmed then
        snd (handleDelete confirmed st)
        = [DELETE_items (Item.id item); GET_items]
        /\ lookup (Item.id item)
             (serve_all now (snd (handleDelete confirmed st)) db) = None
        /\ (forall j, j <> Item.id item ->
              lookup j (serve_all now (snd (handleDelete confirmed st)) db)
              = lookup j db)
      else handleDelete confirmed st = (st, [])
  | None => handleDelete confirmed st = (st, [])
  end.
Proof.
  unfold handleDelete.
  destruct (App.editingItem st) as [item|]; [|reflexivity].
  destruct confirmed; [|reflexivity].
  cbn [snd serve_all serve get_items].
  split; [reflexivity|]. split.
  - apply delete_lookup_gone.
  - intros j Hj. now apply lookup_filter_other.
Qed.

Lemma handleDelete_removes_the_edited_item_only_witness :
  lookup 3 (serve_all 2000
              (snd (handleDelete true app_edit_B)) db_ABC)
  = lookup 3 db_ABC.
Proof.
  pose proof (handleDelete_removes_the_edited_item_only true app_edit_B
                2000 db_ABC) as H.
  simpl in H. destruct H as (_ & _ & H).
  apply H. discriminate.
Defined.

(** X17.  The normalisation of the link is idempotent: what [handleSubmit]
    makes of a link is left as it is when it is submitted again, so
    saving an item again never stacks a second [https://] nor trims
    further. *)
Theorem submitUrl_is_idempotent (url : string) :
  submitUrl (submitUrl url) = submitUrl url.
Proof.
  destruct (String.eqb_spec (trim url) "") as [E|E].
  - assert (H : submitUrl url = "")
      by (unfold submitUrl; rewrite E; reflexivity).
    rewrite H. reflexivity.
  - destruct (has_scheme (trim url)) eqn:Hs.
    + assert (H : submitUrl url = trim url)
        by (unfold submitUrl; rewrite Hs, andb_false_r; reflexivity).
      rewrite H. unfold submitUrl.
      now rewrite trim_idempotent, Hs, andb_false_r.
    + assert (H : submitUrl url = String.append "https://" (trim url)).
      { unfold submitUrl. rewrite Hs.
        destruct (String.eqb_spec (trim url) ""); [contradiction|].
        reflexivity. }
      rewrite H. unfold submitUrl.
      rewrite (trim_https _ (trim_idempotent url) E).
      change (has_scheme (String.append "https://" (trim url))) with true.
      now rewrite andb_false_r.
Qed.

Section UploadKey.

Lemma all_chars_append (f : ascii -> bool) (a b : string) :
  all_chars f (String.append a b) = all_chars f a && all_chars f b.
Proof.
  induction a as [|c a IH]; simpl; auto. now rewrite IH, andb_assoc.
Qed.

Lemma all_chars_keep (f : ascii -> bool) (s : string) :
  all_chars f (keep f s) = true.
Proof.
  induction s as [|c s IH]; simpl; auto.
  destruct (f c) eqn:E; simpl; auto. now rewrite E.
Qed.

Lemma digits_are_key_chars (d : Decimal.uint) :
  all_chars key_char (DecimalString.NilEmpty.string_of_uint d) = true.
Proof. induction d; simpl; auto. Qed.

Lemma number_is_key_chars (n : Z) :
  all_chars key_char (DecimalString.NilZero.string_of_int (Z.to_int n)) = true.
Proof.
  unfold DecimalString.NilZero.string_of_int,
    DecimalString.NilZero.string_of_uint.
  destruct (Z.to_int n) as [d|d]; destruct d; simpl; auto;
    apply digits_are_key_chars.
Qed.

Lemma upload_key_chars (date_now : Z) (file : File.t) :
  all_chars key_char (upload_key date_now file) = true.
Proof.
  unfold upload_key.
  rewrite !all_chars_append, number_is_key_chars, all_chars_keep.
  reflexivity.
Qed.

End UploadKey.

(** X18.  When a file is chosen, [handleSubmit] uploads it first, under a
    key made of letters, digits, dots and hyphens only (so the key is one
    path segment, whatever the name of the file), and the item is saved
    with that same key as its image key: in the row created, or in the
    rows of the item edited. *)
Theorem chosen_file_is_saved_under_the_key_uploaded
  (parseFloat : string -> option Z) (date_now : Z) (st : App.t)
  (file : File.t) (now : Z) (db : Db.t) :
  App.isSubmitting st = false ->
  FormData.imageFile (App.formData st) = Some file ->
  all_chars key_char (upload_key date_now file) = true
  /\ exists save,
       snd (handleSubmit parseFloat date_now st)
       = [PUT_upload (upload_key date_now file); save; GET_items]
       /\ match App.editingItem st with
          | None =>
              exists body row,
                save = POST_items body
                /\ Body.image_key body = JStr (upload_key date_now file)
                /\ Db.items (serve_all now
                               (snd (handleSubmit parseFloat date_now st)) db)
                   = Db.items db ++ [row]
                /\ Row.image_key row = SText (upload_key date_now file)
          | Some item =>
              exists body,
                save = PUT_items (Item.id item) body
                /\ Body.image_key body = JStr (upload_key date_now file)
                /\ Forall (fun r => Row.id r = Item.id item ->
                             Row.image_key r
                             = SText (upload_key date_now file))
                     (Db.items (serve_all now
                                  (snd (handleSubmit parseFloat date_now st))
                                  db))
          end.
Proof.
  intros Hs Hfile. split; [apply upload_key_chars|].
  unfold handleSubmit. rewrite Hs, Hfile. cbn [snd app].
  destruct (App.editingItem st) as [item|];
    (eexists; split; [reflexivity|]);
    cbn [serve_all serve snd get_items].
  - eexists. split; [reflexivity|]. split; [reflexivity|].
    rewrite payload_put. simpl. apply Forall_forall.
    intros r' Hr'. apply in_map_iff in Hr'. destruct Hr' as (r & <- & _).
    rewrite patch_at_id. unfold patch_at.
    intros ->. now rewrite Z.eqb_refl.
  - destruct (post_items_eq now
                (payload parseFloat (upload_key date_now file) st) db)
      as [[_ He]|[Hr _]];
      [|rewrite payload_accepted in Hr; discriminate].
    do 2 eexists. split; [reflexivity|]. split; [reflexivity|].
    rewrite He. cbn [snd Db.items]. split; reflexivity.
Qed.

Lemma chosen_file_is_saved_under_the_key_uploaded_witness :
  all_chars key_char (upload_key 1730 (File.mk "my cat/1.png" "image/png"))
  = true
  /\ exists save,
       snd (handleSubmit parseFloat_fixture 1730 app_new_with_file)
       = [PUT_upload (upload_key 1730 (File.mk "my cat/1.png" "image/png"));
          save; GET_items]
       /\ exists body row,
            save = POST_items body
            /\ Body.image_key body
               = JStr (upload_key 1730 (File.mk "my cat/1.png" "image/png"))
            /\ Db.items (serve_all 2000
                           (snd (handleSubmit parseFloat_fixture 1730
                                   app_new_with_file)) db_ABC)
               = Db.items db_ABC ++ [row]
            /\ Row.image_key row
               = SText (upload_key 1730
                          (File.mk "my cat/1.png" "image/png")).
Proof.
  apply (chosen_file_is_saved_under_the_key_uploaded parseFloat_fixture 1730
           app_new_with_file (File.mk "my cat/1.png" "image/png")
           2000 db_ABC); reflexivity.
Defined.

(** X19.  Opening the form.  On an item and saving at once: no upload is
    sent, the save is an update of that item that carries its name and
    category as they are, its link normalised, its image key (the empty
    string when it has none) and no priority.  On no item: the save is an
    insert whose category is the active category, or Toys when no filter
    is active, which is one of the options of the select whenever the
    active category is one of the categories; so the item created shows
    in the view it was created from. *)
Theorem openModal_then_save
  (parseFloat : string -> option Z) (toString : Z -> string) (date_now : Z)
  (st : App.t) :
  App.isSubmitting st = false ->
  (forall item,
     exists price,
       snd (handleSubmit parseFloat date_now
              (openModal toString (Some item) st))
       = [PUT_items (Item.id item)
            (Body.mk (JStr (Item.name item)) price
               (JStr (submitUrl (Item.url item)))
               (JStr (match Item.image_key item with
                      | Some k => k
                      | None => ""
                      end))
               (JStr (Item.category item)) JUndefined);
          GET_items])
  /\ (exists body,
        snd (handleSubmit parseFloat date_now (openModal toString None st))
        = [POST_items body; GET_items]
        /\ Body.category body
           = JStr (if String.eqb (App.activeCategory st) "All" then "Toys"
                   else App.activeCategory st)
        /\ (In (App.activeCategory st) categories ->
            exists c, Body.category body = JStr c /\ In c category_options)
        /\ (forall l, String.eqb (App.activeCategory st) "All" = false ->
            forall c, Body.category body = JStr c ->
            forall i, Item.category i = c ->
            In i l -> In i (filteredItems (with_items l st)))).
Proof.
  intros Hs. split.
  - intros item. unfold handleSubmit, openModal. cbn. rewrite Hs.
    eexists. cbn. unfold payload. cbn.
    destruct (Item.image_key item) as [k|]; cbn;
      [destruct (String.eqb_spec k ""); subst|]; reflexivity.
  - unfold handleSubmit, openModal. cbn. rewrite Hs. cbn.
    eexists. split; [reflexivity|]. unfold payload. cbn.
    split; [reflexivity|]. split.
    + intros Hin. eexists. split; [reflexivity|].
      unfold category_options, categories in *. simpl in Hin.
      destruct Hin as [<- | [<- | [<- | [<- | [<- | [<- | []]]]]]];
        simpl; tauto.
    + intros l Hall c [= <-] i Hi Hin.
      unfold filteredItems, with_items. cbn. rewrite Hall in *.
      apply filter_In. split; auto. rewrite Hi. apply String.eqb_refl.
Qed.

Lemma openModal_then_save_witness :
  exists price,
    snd (handleSubmit parseFloat_fixture 0
           (openModal toString_fixture (Some item_B) app_toys))
    = [PUT_items (Item.id item_B)
         (Body.mk (JStr (Item.name item_B)) price
            (JStr (submitUrl (Item.url item_B)))
            (JStr (match Item.image_key item_B with
                   | Some k => k
                   | None => ""
                   end))
            (JStr (Item.category item_B)) JUndefined);
       GET_items].
Proof.
  apply (proj1 (openModal_then_save parseFloat_fixture toString_fixture 0
                  app_toys eq_refl) item_B).
Defined.
